(** * The Ask service of glass: screenshot queue, stream decoding and
      request lifecycle, embedded from [askService.js].

    Strings are sequences of 8-bit code units (the Latin-1 range of a
    JavaScript string).  Calls into collaborators (repositories, model
    state, the provider, the window pool) are answered by an explicit
    environment; their observable effects are recorded as a trace of
    events in program order.

    Further modules embed the transcript view ([ListenView.js]), the
    Copilot provider and its device-flow sign-in ([copilot.js],
    [copilotAuthService.js]) and the shortcuts service
    ([shortcutsService.js]), each with the answers of its collaborators
    given as arguments. *)

From Stdlib Require Import List String Ascii Bool Arith Lia.
From Stdlib Require Import ZArith NArith DecimalString Sorted Permutation.
Import ListNotations.
Open Scope string_scope.
Open Scope list_scope.
Open Scope nat_scope.

(** ** JavaScript built-ins used by the service *)

Module Js.

(** [Array.prototype.slice(start)] with one argument: a negative [start]
    counts from the end, and the index is clamped to the array. *)
Definition slice {A : Type} (start : Z) (l : list A) : list A :=
  let len := Z.of_nat (List.length l) in
  let k := if (start <? 0)%Z then Z.max (len + start) 0 else Z.min start len in
  skipn (Z.to_nat k) l.

(** [Array.prototype.join(sep)] on an array of strings. *)
Definition join (sep : string) (l : list string) : string :=
  String.concat sep l.

(** [String.prototype.startsWith(p)]. *)
Definition startsWith (p s : string) : bool := String.prefix p s.

(** [String.prototype.includes(sub)]. *)
Fixpoint includes (sub s : string) : bool :=
  match s with
  | EmptyString => String.prefix sub EmptyString
  | String _ s' => String.prefix sub s || includes sub s'
  end.

(** [String.prototype.substring(n)] with one argument. *)
Fixpoint substring_from (n : nat) (s : string) : string :=
  match n, s with
  | O, _ => s
  | S _, EmptyString => EmptyString
  | S n', String _ s' => substring_from n' s'
  end.

(** [String.prototype.split(sep)] for a one-character separator. *)
Fixpoint split (sep : ascii) (s : string) : list string :=
  match s with
  | EmptyString => [EmptyString]
  | String c s' =>
      if Ascii.eqb c sep then EmptyString :: split sep s'
      else match split sep s' with
           | [] => [String c EmptyString]
           | x :: xs => String c x :: xs
           end
  end.

(** White space and line terminators below code unit 256. *)
Definition is_white (c : ascii) : bool :=
  let n := nat_of_ascii c in
  ((9 <=? n) && (n <=? 13)) || (n =? 32) || (n =? 160).

Fixpoint trimStart (s : string) : string :=
  match s with
  | EmptyString => EmptyString
  | String c s' => if is_white c then trimStart s' else s
  end.

Fixpoint trimEnd (s : string) : string :=
  match s with
  | EmptyString => EmptyString
  | String c s' =>
      match trimEnd s' with
      | EmptyString => if is_white c then EmptyString else String c EmptyString
      | t => String c t
      end
  end.

(** [String.prototype.trim()]. *)
Definition trim (s : string) : string := trimEnd (trimStart s).

(** Lower-casing of one code unit: A-Z and the Latin-1 capitals. *)
Definition lower_char (c : ascii) : ascii :=
  let n := nat_of_ascii c in
  if ((65 <=? n) && (n <=? 90))
     || ((192 <=? n) && (n <=? 222) && negb (n =? 215))
  then ascii_of_nat (n + 32) else c.

(** [String.prototype.toLowerCase()]. *)
Fixpoint toLowerCase (s : string) : string :=
  match s with
  | EmptyString => EmptyString
  | String c s' => String (lower_char c) (toLowerCase s')
  end.

(** Truthiness of a string: the empty string is falsy. *)
Definition truthy (s : string) : bool :=
  match s with EmptyString => false | _ => true end.

(** Decimal rendering of a number inside a template literal. *)
Definition of_nat (n : nat) : string :=
  NilEmpty.string_of_uint (Nat.to_uint n).

Definition nl : string := String (ascii_of_nat 10) EmptyString.

End Js.

(** ** Screenshot queue (module-level state of askService.js) *)

(** An entry as the service reads it: [base64] is tested for truthiness
    when the payload is built; the size fields may be [null]; a fresh
    capture made by [sendMessage] carries no timestamp. *)
Record Screenshot := mkScreenshot {
  base64 : option string;
  width : option nat;
  height : option nat;
  timestamp : option nat
}.

Definition MAX_SCREENSHOT_QUEUE_SIZE : nat := 10.

(** The two statements shared by both enqueue paths:
    [screenshotQueue.push(e)] followed by the size limit. *)
Definition push_limited (e : Screenshot) (screenshotQueue : list Screenshot)
  : list Screenshot :=
  let q := screenshotQueue ++ [e] in
  if MAX_SCREENSHOT_QUEUE_SIZE <? List.length q
  then Js.slice (- Z.of_nat MAX_SCREENSHOT_QUEUE_SIZE) q
  else q.

(** [addScreenshotToQueue(screenshot)]: the spread keeps the fields of
    the argument and [timestamp] is overwritten with [Date.now()].
    Returns the new queue and the reported [queueSize]. *)
Definition addScreenshotToQueue (now : nat) (screenshot : Screenshot)
    (screenshotQueue : list Screenshot) : list Screenshot * nat :=
  let e := {| base64 := base64 screenshot; width := width screenshot;
              height := height screenshot; timestamp := Some now |} in
  let q := push_limited e screenshotQueue in
  (q, List.length q).

(** What [desktopCapturer.getSources] gave to the manual capture. *)
Inductive CaptureSources :=
| SourcesThrow (message : string)
| SourcesNone
| SourcesFirst (jpegBase64 : string) (w h : nat).

(** [captureManualScreenshotToQueue()], queue part: nothing is queued
    when the capture throws or finds no source; otherwise the first
    source is encoded, stamped and pushed. [inl] is the reported error. *)
Definition captureManualScreenshotToQueue (now : nat) (src : CaptureSources)
    (screenshotQueue : list Screenshot)
  : list Screenshot * (string + nat) :=
  match src with
  | SourcesThrow m => (screenshotQueue, inl m)
  | SourcesNone => (screenshotQueue, inl "No screen sources available")
  | SourcesFirst b w h =>
      let e := {| base64 := Some b; width := Some w; height := Some h;
                  timestamp := Some now |} in
      let q := push_limited e screenshotQueue in
      (q, inr (List.length q))
  end.

(** [getAndClearScreenshotQueue()]: a copy of the queue is returned and
    the module variable is replaced by the empty array. *)
Definition getAndClearScreenshotQueue (screenshotQueue : list Screenshot)
  : list Screenshot * list Screenshot :=
  let queue := screenshotQueue in
  (queue, []).

Definition hasQueuedScreenshots (screenshotQueue : list Screenshot) : bool :=
  0 <? List.length screenshotQueue.

Definition clearScreenshotQueue (screenshotQueue : list Screenshot)
  : list Screenshot := [].

Definition getScreenshotQueueSize (screenshotQueue : list Screenshot) : nat :=
  List.length screenshotQueue.

(** The spec's [isEmpty()] is the negation of [hasQueuedScreenshots]. *)
Definition isEmpty (screenshotQueue : list Screenshot) : bool :=
  negb (hasQueuedScreenshots screenshotQueue).

(** ** Prompt context and error classification (methods of AskService) *)

(** [_formatConversationForPrompt(conversationTexts)]; [None] is a
    missing ([null] or [undefined]) history. *)
Definition _formatConversationForPrompt (conversationTexts : option (list string))
  : string :=
  match conversationTexts with
  | None => "No conversation history available."
  | Some texts =>
      if List.length texts =? 0 then "No conversation history available."
      else Js.join Js.nl (Js.slice (-30) texts)
  end.

(** A thrown value, as far as the service inspects it: its [message]. *)
Record JsError := mkError { message : option string }.

Definition multimodal_markers : list string :=
  ["vision"; "image"; "multimodal"; "unsupported"; "image_url"; "400";
   "invalid"; "not supported"].

(** [_isMultimodalError(error)]. *)
Definition _isMultimodalError (error : JsError) : bool :=
  let errorMessage :=
    match message error with
    | Some m => Js.toLowerCase m
    | None => EmptyString
    end in
  Js.includes "vision" errorMessage ||
  Js.includes "image" errorMessage ||
  Js.includes "multimodal" errorMessage ||
  Js.includes "unsupported" errorMessage ||
  Js.includes "image_url" errorMessage ||
  Js.includes "400" errorMessage ||
  Js.includes "invalid" errorMessage ||
  Js.includes "not supported" errorMessage.

(** ** Parsed JSON and the token read out of a frame *)

Set Warnings "-register-all".

(** A number keeps what the decoder looks at: whether it is non-zero and
    its rendering as a string. *)
Inductive Json :=
| JNull
| JBool (b : bool)
| JNumber (nonzero : bool) (text : string)
| JString (s : string)
| JArray (items : list Json)
| JObject (fields : list (string * Json)).

Module JsonAccess.

Fixpoint lookup (k : string) (fields : list (string * Json)) : option Json :=
  match fields with
  | [] => None
  | (k', v) :: rest => if String.eqb k k' then Some v else lookup k rest
  end.

(** [v.k] for [k] one of choices, delta, content on a value that is not
    [null]; [None] is [undefined]. *)
Definition get_prop (k : string) (v : Json) : option Json :=
  match v with
  | JObject fields => lookup k fields
  | _ => None
  end.

(** [v[0]] on a value that is not [null]. *)
Definition index0 (v : Json) : option Json :=
  match v with
  | JArray items => nth_error items 0
  | JObject fields => lookup "0" fields
  | JString (String c _) => Some (JString (String c EmptyString))
  | _ => None
  end.

(** The optional chaining step [x?.k]. *)
Definition opt_prop (k : string) (x : option Json) : option Json :=
  match x with
  | None | Some JNull => None
  | Some v => get_prop k v
  end.

(** [json.choices[0]?.delta?.content]; the outer [None] is the TypeError
    raised when [json] or [json.choices] is [null] or [undefined]. *)
Definition delta_content (json : Json) : option (option Json) :=
  match json with
  | JNull => None
  | _ =>
      match get_prop "choices" json with
      | None | Some JNull => None
      | Some choices => Some (opt_prop "content" (opt_prop "delta" (index0 choices)))
      end
  end.

Definition truthy (v : Json) : bool :=
  match v with
  | JNull => false
  | JBool b => b
  | JNumber nonzero _ => nonzero
  | JString s => Js.truthy s
  | JArray _ | JObject _ => true
  end.

(** String conversion applied by [fullResponse += token]. *)
Fixpoint toString (v : Json) : string :=
  match v with
  | JNull => "null"
  | JBool true => "true"
  | JBool false => "false"
  | JNumber _ text => text
  | JString s => s
  | JArray items =>
      Js.join "," (map (fun x => match x with
                                 | JNull => EmptyString
                                 | _ => toString x
                                 end) items)
  | JObject _ => "[object Object]"
  end.

(** [const token = ... || ''; if (token)]: the text appended when the
    token is truthy. *)
Definition token_text (content : option Json) : option string :=
  match content with
  | Some v => if truthy v then Some (toString v) else None
  | None => None
  end.

End JsonAccess.

(** ** Service state, collaborators and the trace of effects *)

Record AskState := mkState {
  isVisible : bool;
  isLoading : bool;
  isStreaming : bool;
  currentQuestion : string;
  currentResponse : string;
  showTextInput : bool
}.

Definition initial_state : AskState :=
  {| isVisible := false; isLoading := false; isStreaming := false;
     currentQuestion := ""; currentResponse := ""; showTextInput := true |}.

(** What [getWindowPool()?.get('ask')] currently is. *)
Inductive WindowStatus := WinMissing | WinDestroyed | WinHidden | WinVisible.

(** The system prompt placed in the payload is the value of the call
    [getSystemPrompt(profile, conversationHistory, false)], kept
    symbolically by its arguments. *)
Inductive SystemPrompt :=
| GetSystemPrompt (profile customPrompt : string) (googleSearchEnabled : bool).

Inductive ContentPart :=
| TextPart (text : string)
| ImageUrlPart (url : string).

Inductive Message :=
| SystemMessage (content : SystemPrompt)
| UserParts (content : list ContentPart)
| UserText (content : string).

Inductive ReadResult :=
| Chunk (text : string)
| Done
| ReadError (e : JsError).

(** Observable effects, in program order. *)
Inductive Event :=
| RequestVisibility (visible : bool)
| StateUpdate (st : AskState)
| AbortCall (ctrl : nat) (reason : string)
| ReaderCancel (ctrl : nat)
| GetOrCreateActive
| AddAiMessage (sessionId : nat) (role content : string)
| GetCurrentModelInfo
| CaptureScreenshot
| StreamChat (messages : list Message)
| ResponseCancelled
| StreamErrorSent (error : option string).

(** The service object together with the module variables and the
    window it talks to.  Controllers are identified by allocation
    order; [aborted] and [listeners] record which signals were aborted
    and which carry a reader-cancelling abort listener. *)
Record World := mkWorld {
  screenshotQueue : list Screenshot;
  abortController : option nat;
  controllers : nat;
  aborted : list nat;
  listeners : list nat;
  state : AskState;
  askWindow : WindowStatus
}.

Definition initial_world (win : WindowStatus) : World :=
  {| screenshotQueue := []; abortController := None; controllers := 0;
     aborted := []; listeners := []; state := initial_state;
     askWindow := win |}.

Definition with_state (st : AskState) (w : World) : World :=
  {| screenshotQueue := screenshotQueue w; abortController := abortController w;
     controllers := controllers w; aborted := aborted w;
     listeners := listeners w; state := st; askWindow := askWindow w |}.

Definition with_queue (q : list Screenshot) (w : World) : World :=
  {| screenshotQueue := q; abortController := abortController w;
     controllers := controllers w; aborted := aborted w;
     listeners := listeners w; state := state w; askWindow := askWindow w |}.

(** A [_processStream] call suspended in [await reader.read()]. *)
Record PendingRead := mkPending {
  p_fullResponse : string;
  p_sessionId : nat;
  p_signal : nat
}.

(** Outcome of running code up to its return, to an uncaught throw, or
    to a read that has not resolved yet. *)
Inductive Step (A : Type) :=
| Ok (a : A) (w : World) (tr : list Event)
| Throw (e : JsError) (w : World) (tr : list Event)
| Pending (p : PendingRead) (w : World) (tr : list Event).
Arguments Ok {A} a w tr.
Arguments Throw {A} e w tr.
Arguments Pending {A} p w tr.

Definition M (A : Type) : Type := World -> Step A.

Definition ret {A} (a : A) : M A := fun w => Ok a w [].

(** The events [tr1] happened before the outcome [s]. *)
Definition prefix_trace {A} (tr1 : list Event) (s : Step A) : Step A :=
  match s with
  | Ok a w tr => Ok a w (tr1 ++ tr)
  | Throw e w tr => Throw e w (tr1 ++ tr)
  | Pending p w tr => Pending p w (tr1 ++ tr)
  end.

Definition bind {A B} (m : M A) (k : A -> M B) : M B := fun w =>
  match m w with
  | Ok a w1 tr1 => prefix_trace tr1 (k a w1)
  | Throw e w1 tr1 => Throw e w1 tr1
  | Pending p w1 tr1 => Pending p w1 tr1
  end.

Notation "x <- m ;; k" := (bind m (fun x => k))
  (at level 61, m at next level, right associativity).
Notation "m ;;; k" := (bind m (fun _ => k))
  (at level 61, right associativity).

Definition emit (e : Event) : M unit := fun w => Ok tt w [e].
Definition throw {A} (e : JsError) : M A := fun w => Throw e w [].
Definition get_state : M AskState := fun w => Ok (state w) w [].
Definition set_state (st : AskState) : M unit := fun w => Ok tt (with_state st w) [].
Definition get_world : M World := fun w => Ok w w [].

(** [try { m } catch (e) { h e }]. *)
Definition try_catch {A} (m : M A) (h : JsError -> M A) : M A := fun w =>
  match m w with
  | Ok a w1 tr1 => Ok a w1 tr1
  | Throw e w1 tr1 => prefix_trace tr1 (h e w1)
  | Pending p w1 tr1 => Pending p w1 tr1
  end.

(** The result of an awaited collaborator call. *)
Inductive Res (A : Type) :=
| Resolved (a : A)
| Rejected (e : JsError).
Arguments Resolved {A} a.
Arguments Rejected {A} e.

Definition await {A} (r : Res A) : M A :=
  match r with
  | Resolved a => ret a
  | Rejected e => throw e
  end.

Definition trace_of {A} (s : Step A) : list Event :=
  match s with Ok _ _ tr | Throw _ _ tr | Pending _ _ tr => tr end.

Definition world_of {A} (s : Step A) : World :=
  match s with Ok _ w _ | Throw _ w _ | Pending _ w _ => w end.

Definition window_alive (win : WindowStatus) : bool :=
  match win with WinHidden | WinVisible => true | _ => false end.

(** [askWindow.isVisible()] on an existing window object; Electron
    throws on a destroyed one. *)
Definition isVisibleCall (win : WindowStatus) : M bool :=
  match win with
  | WinVisible => ret true
  | WinHidden => ret false
  | WinDestroyed => throw (mkError (Some "Object has been destroyed"))
  | WinMissing => ret false
  end.

(** [_broadcastState()]. *)
Definition _broadcastState : M unit := fun w =>
  if window_alive (askWindow w) then Ok tt w [StateUpdate (state w)]
  else Ok tt w [].

(** [controller.abort(reason)]: the first abort of a signal runs its
    abort listener, which cancels the reader of that request. *)
Definition abort_controller (c : nat) (reason : string) : M unit := fun w =>
  if existsb (Nat.eqb c) (aborted w) then Ok tt w [AbortCall c reason]
  else
    let w' := {| screenshotQueue := screenshotQueue w;
                 abortController := abortController w;
                 controllers := controllers w; aborted := c :: aborted w;
                 listeners := listeners w; state := state w;
                 askWindow := askWindow w |} in
    Ok tt w' (AbortCall c reason ::
              if existsb (Nat.eqb c) (listeners w) then [ReaderCancel c] else []).

(** [this.abortController = new AbortController()]. *)
Definition new_controller : M nat := fun w =>
  let c := controllers w in
  Ok c {| screenshotQueue := screenshotQueue w; abortController := Some c;
          controllers := S c; aborted := aborted w; listeners := listeners w;
          state := state w; askWindow := askWindow w |} [].

(** [signal.addEventListener('abort', ...)] of [sendMessage]. *)
Definition add_abort_listener (signal : nat) : M unit := fun w =>
  Ok tt {| screenshotQueue := screenshotQueue w;
           abortController := abortController w;
           controllers := controllers w; aborted := aborted w;
           listeners := signal :: listeners w; state := state w;
           askWindow := askWindow w |} [].

Definition signal_aborted (signal : nat) (w : World) : bool :=
  existsb (Nat.eqb signal) (aborted w).

Record ModelInfo := mkModelInfo {
  provider : string;
  model : string;
  apiKey : string
}.

(** What [captureScreenshot()] returned; it catches its own errors. *)
Inductive CaptureOutcome :=
| CaptureOk (b64 : string) (w h : option nat)
| CaptureFailed (error : string).

(** Answers of the collaborators during one submission.  [streamChat]
    is indexed by the number of the call (0 is the first call, 1 the
    fallback) besides its payload; [JSON_parse] returns [None] where
    [JSON.parse] throws. *)
Record Env := mkEnv {
  JSON_parse : string -> option Json;
  getOrCreateActive : Res nat;
  addUserMessage : Res unit;
  getCurrentModelInfo : Res (option ModelInfo);
  captureScreenshot : CaptureOutcome;
  createStreamingLLM : ModelInfo -> Res unit;
  streamChat : nat -> list Message -> Res (list ReadResult)
}.

Inductive SendResult :=
| Success
| Failure (error : option string).

(** ** Stream processing *)

Definition set_response (fullResponse : string) (st : AskState) : AskState :=
  {| isVisible := isVisible st; isLoading := isLoading st;
     isStreaming := isStreaming st; currentQuestion := currentQuestion st;
     currentResponse := fullResponse; showTextInput := showTextInput st |}.

(** The [for (const line of lines)] loop of [_processStream].  The flag
    of the result is [true] when the terminator made the function
    return; the string is [fullResponse] afterwards. *)
Fixpoint process_lines (env : Env) (lines : list string) (fullResponse : string)
  : M (bool * string) :=
  match lines with
  | [] => ret (false, fullResponse)
  | line :: rest =>
      if Js.startsWith "data: " line then
        let data := Js.substring_from 6 line in
        if String.eqb data "[DONE]" then ret (true, fullResponse)
        else
          match JSON_parse env data with
          | None => process_lines env rest fullResponse
          | Some json =>
              match JsonAccess.delta_content json with
              | None => process_lines env rest fullResponse
              | Some content =>
                  match JsonAccess.token_text content with
                  | Some token =>
                      let fullResponse' := (fullResponse ++ token)%string in
                      st <- get_state ;;
                      set_state (set_response fullResponse' st) ;;;
                      _broadcastState ;;;
                      process_lines env rest fullResponse'
                  | None => process_lines env rest fullResponse
                  end
              end
          end
      else process_lines env rest fullResponse
  end.

(** [chunk.split('\n').filter(line => line.trim() !== '')]. *)
Definition chunk_lines (chunk : string) : list string :=
  filter (fun line => negb (String.eqb (Js.trim line) ""))
         (Js.split (ascii_of_nat 10) chunk).

(** How the [while (true)] loop was left. *)
Inductive LoopExit :=
| BySentinel
| ByDone
| ByError (e : JsError).

(** The read loop against the successive results of [reader.read()];
    once they are used up the next read has not resolved and the call
    stays suspended. *)
Fixpoint read_loop (env : Env) (reads : list ReadResult) (sessionId signal : nat)
    (fullResponse : string) : M (LoopExit * string) :=
  match reads with
  | [] => fun w =>
      Pending {| p_fullResponse := fullResponse; p_sessionId := sessionId;
                 p_signal := signal |} w []
  | Done :: _ => ret (ByDone, fullResponse)
  | ReadError e :: _ => ret (ByError e, fullResponse)
  | Chunk chunk :: rest =>
      r <- process_lines env (chunk_lines chunk) fullResponse ;;
      if fst r then ret (BySentinel, snd r)
      else read_loop env rest sessionId signal (snd r)
  end.

(** The [catch] and [finally] blocks of [_processStream].  The result
    of the awaited [addAiMessage] is not used: a rejection is logged. *)
Definition finish_stream (exit : LoopExit) (fullResponse : string)
    (sessionId signal : nat) : M unit :=
  match exit with
  | ByError e =>
      w <- get_world ;;
      if signal_aborted signal w then ret tt
      else if window_alive (askWindow w) then emit (StreamErrorSent (message e))
      else ret tt
  | _ => ret tt
  end ;;;
  st <- get_state ;;
  set_state {| isVisible := isVisible st; isLoading := isLoading st;
               isStreaming := false; currentQuestion := currentQuestion st;
               currentResponse := fullResponse;
               showTextInput := showTextInput st |} ;;;
  _broadcastState ;;;
  if Js.truthy fullResponse
  then emit (AddAiMessage sessionId "assistant" fullResponse)
  else ret tt.

(** [_processStream] from a point where [fullResponse] has been
    accumulated and the next [reader.read()] results are [reads]. *)
Definition stream_from (env : Env) (reads : list ReadResult)
    (sessionId signal : nat) (fullResponse : string) : M unit :=
  r <- read_loop env reads sessionId signal fullResponse ;;
  finish_stream (fst r) (snd r) sessionId signal.

(** [_processStream(reader, askWin, sessionId, signal)]. *)
Definition _processStream (env : Env) (reader : list ReadResult)
    (sessionId signal : nat) : M unit :=
  st <- get_state ;;
  set_state {| isVisible := isVisible st; isLoading := false;
               isStreaming := true; currentQuestion := currentQuestion st;
               currentResponse := currentResponse st;
               showTextInput := showTextInput st |} ;;;
  _broadcastState ;;;
  stream_from env reader sessionId signal "".

(** A suspended [_processStream] continues when its read resolves. *)
Definition resume_stream (env : Env) (p : PendingRead) (reads : list ReadResult)
  : M unit :=
  stream_from env reads (p_sessionId p) (p_signal p) (p_fullResponse p).

(** ** Submission *)

(** Lines 425 to 440: everything [sendMessage] does before its first
    [await]; the value is the signal of the new controller. *)
Definition sendMessage_prologue (userPrompt : string) : M nat :=
  emit (RequestVisibility true) ;;;
  st <- get_state ;;
  set_state {| isVisible := isVisible st; isLoading := true;
               isStreaming := false; currentQuestion := userPrompt;
               currentResponse := ""; showTextInput := false |} ;;;
  _broadcastState ;;;
  w <- get_world ;;
  match abortController w with
  | Some c => abort_controller c "New request received."
  | None => ret tt
  end ;;;
  new_controller.

(** The text sent when queued screenshots come without a question. *)
Definition default_request (n : nat) : string :=
  ("Analyze the following " ++ Js.of_nat n
   ++ " screenshot(s). Identify the type of content:" ++ Js.nl
   ++ "- If it's an MCQ (Multiple Choice Question), provide the correct answer with a clear explanation." ++ Js.nl
   ++ "- If it's a Coding question/problem, provide the complete solution code with explanation." ++ Js.nl
   ++ "- If it's neither, describe what you see and provide relevant insights.")%string.

(** The image parts pushed by the loop over [screenshotsToAnalyze]. *)
Fixpoint image_parts (screenshots : list Screenshot) : list ContentPart :=
  match screenshots with
  | [] => []
  | s :: rest =>
      match base64 s with
      | Some b =>
          if Js.truthy b
          then ImageUrlPart ("data:image/jpeg;base64," ++ b)%string
               :: image_parts rest
          else image_parts rest
      | None => image_parts rest
      end
  end.

(** What the first part of the outer [try] block has computed when the
    provider is about to be called. *)
Record Prepared := mkPrepared {
  sessionId : nat;
  screenshotsToAnalyze : list Screenshot;
  systemPrompt : SystemPrompt;
  userText : string;
  messages : list Message
}.

(** [hasQueuedScreenshots()] and [getAndClearScreenshotQueue()] on
    the module variable. *)
Definition has_queued : M bool := fun w =>
  Ok (hasQueuedScreenshots (screenshotQueue w)) w [].

Definition drain_queue : M (list Screenshot) := fun w =>
  let (queue, emptied) := getAndClearScreenshotQueue (screenshotQueue w) in
  Ok queue (with_queue emptied w) [].

(** Lines 446 to 521. *)
Definition prepare (env : Env) (userPrompt : string)
    (conversationHistoryRaw : option (list string)) : M Prepared :=
  emit GetOrCreateActive ;;;
  sessionId <- await (getOrCreateActive env) ;;
  emit (AddAiMessage sessionId "user" (Js.trim userPrompt)) ;;;
  await (addUserMessage env) ;;;
  emit GetCurrentModelInfo ;;;
  modelInfo <- await (getCurrentModelInfo env) ;;
  match modelInfo with
  | None => throw (mkError (Some "AI model or API key not configured."))
  | Some info =>
      if negb (Js.truthy (apiKey info))
      then throw (mkError (Some "AI model or API key not configured."))
      else
        queued <- has_queued ;;
        shots <-
          (if queued
           then queue <- drain_queue ;; ret (queue, true)
           else
             emit CaptureScreenshot ;;;
             match captureScreenshot env with
             | CaptureOk b wd ht =>
                 ret ([{| base64 := Some b; width := wd; height := ht;
                          timestamp := None |}], false)
             | CaptureFailed _ => ret ([], false)
             end) ;;
        let screenshotsToAnalyze := fst shots in
        let usingQueuedScreenshots := snd shots in
        let conversationHistory :=
          _formatConversationForPrompt conversationHistoryRaw in
        let analysing :=
          usingQueuedScreenshots && (0 <? List.length screenshotsToAnalyze) in
        let systemPrompt :=
          if analysing
          then GetSystemPrompt "pickle_glass_screenshot_analysis" conversationHistory false
          else GetSystemPrompt "pickle_glass_analysis" conversationHistory false in
        let userText :=
          if analysing && negb (Js.truthy (Js.trim userPrompt))
          then default_request (List.length screenshotsToAnalyze)
          else Js.trim userPrompt in
        let messages :=
          [SystemMessage systemPrompt;
           UserParts (TextPart ("User Request: " ++ userText)%string
                      :: image_parts screenshotsToAnalyze)] in
        await (createStreamingLLM env info) ;;;
        ret {| sessionId := sessionId;
               screenshotsToAnalyze := screenshotsToAnalyze;
               systemPrompt := systemPrompt; userText := userText;
               messages := messages |}
  end.

(** One provider call followed by the stream: lines 524 to 540, and
    again lines 556 to 572 for the fallback. *)
Definition open_and_stream (env : Env) (call : nat) (payload : list Message)
    (sessionId signal : nat) : M SendResult :=
  emit (StreamChat payload) ;;;
  reader <- await (streamChat env call payload) ;;
  w <- get_world ;;
  if negb (window_alive (askWindow w))
  then emit ResponseCancelled ;;; ret (Failure (Some "Ask window is not available."))
  else
    add_abort_listener signal ;;;
    _processStream env reader sessionId signal ;;;
    ret Success.

(** The inner [try ... catch (multimodalError)] of lines 523 to 577. *)
Definition stream_with_fallback (env : Env) (p : Prepared) (signal : nat)
  : M SendResult :=
  try_catch
    (open_and_stream env 0 (messages p) (sessionId p) signal)
    (fun multimodalError =>
       if (0 <? List.length (screenshotsToAnalyze p))
          && _isMultimodalError multimodalError
       then
         let textOnlyMessages :=
           [SystemMessage (systemPrompt p);
            UserText ("User Request: " ++ userText p)%string] in
         open_and_stream env 1 textOnlyMessages (sessionId p) signal
       else throw multimodalError).

(** The outer [catch (error)] of lines 579 to 596. *)
Definition on_error (error : JsError) : M SendResult :=
  st <- get_state ;;
  set_state {| isVisible := isVisible st; isLoading := false;
               isStreaming := false; currentQuestion := currentQuestion st;
               currentResponse := currentResponse st;
               showTextInput := true |} ;;;
  _broadcastState ;;;
  w <- get_world ;;
  (if window_alive (askWindow w)
   then
     let streamError :=
       match message error with
       | Some m => if Js.truthy m then m else "Unknown error occurred"
       | None => "Unknown error occurred"
       end in
     emit (StreamErrorSent (Some streamError))
   else ret tt) ;;;
  ret (Failure (message error)).

(** [sendMessage] after its prologue. *)
Definition sendMessage_body (env : Env) (userPrompt : string)
    (conversationHistoryRaw : option (list string)) (signal : nat)
  : M SendResult :=
  try_catch
    (p <- prepare env userPrompt conversationHistoryRaw ;;
     stream_with_fallback env p signal)
    on_error.

(** [sendMessage(userPrompt, conversationHistoryRaw)]. *)
Definition sendMessage (env : Env) (userPrompt : string)
    (conversationHistoryRaw : option (list string)) : M SendResult :=
  signal <- sendMessage_prologue userPrompt ;;
  sendMessage_body env userPrompt conversationHistoryRaw signal.

(** A suspended [sendMessage] returns success once its stream ends. *)
Definition resume_sendMessage (env : Env) (p : PendingRead)
    (reads : list ReadResult) : M SendResult :=
  resume_stream env p reads ;;; ret Success.

(** ** Toggle and close *)

(** [askWindow && askWindow.isVisible()]. *)
Definition window_and_visible : M bool :=
  w <- get_world ;;
  match askWindow w with
  | WinMissing => ret false
  | win => isVisibleCall win
  end.

(** [toggleAskButton(inputScreenOnly)]. *)
Definition toggleAskButton (env : Env) (inputScreenOnly : bool) : M unit :=
  st <- get_state ;;
  if isLoading st || isStreaming st then ret tt
  else
    sendOnly <-
      (if inputScreenOnly && showTextInput st then window_and_visible
       else ret false) ;;
    if sendOnly then sendMessage env "" (Some []) ;;; ret tt
    else
      let hasContent :=
        isLoading st || isStreaming st || Js.truthy (currentResponse st) in
      visible <- window_and_visible ;;
      if visible && hasContent then
        set_state {| isVisible := isVisible st; isLoading := isLoading st;
                     isStreaming := isStreaming st;
                     currentQuestion := currentQuestion st;
                     currentResponse := currentResponse st;
                     showTextInput := negb (showTextInput st) |} ;;;
        _broadcastState
      else
        visible' <- window_and_visible ;;
        emit (RequestVisibility (negb visible')) ;;;
        set_state {| isVisible := negb visible'; isLoading := isLoading st;
                     isStreaming := isStreaming st;
                     currentQuestion := currentQuestion st;
                     currentResponse := currentResponse st;
                     showTextInput := showTextInput st |} ;;;
        if negb visible' then
          st' <- get_state ;;
          set_state {| isVisible := isVisible st'; isLoading := isLoading st';
                       isStreaming := isStreaming st';
                       currentQuestion := currentQuestion st';
                       currentResponse := currentResponse st';
                       showTextInput := true |} ;;;
          _broadcastState
        else ret tt.

(** [closeAskWindow()]. *)
Definition closeAskWindow : M SendResult :=
  w <- get_world ;;
  match abortController w with
  | Some c =>
      abort_controller c "Window closed by user" ;;;
      (fun w' =>
         Ok tt {| screenshotQueue := screenshotQueue w'; abortController := None;
                  controllers := controllers w'; aborted := aborted w';
                  listeners := listeners w'; state := state w';
                  askWindow := askWindow w' |} [])
  | None => ret tt
  end ;;;
  set_state initial_state ;;;
  _broadcastState ;;;
  emit (RequestVisibility false) ;;;
  ret Success.

(** The 'nextStep' shortcut of ShortcutsService.registerShortcuts. *)
Definition nextStep_callback (env : Env) : M unit := toggleAskButton env true.

(** ** Vocabulary of the properties *)

(** A completed enqueue, by either path. *)
Inductive EnqueueOp :=
| ViaRenderer (now : nat) (screenshot : Screenshot)
| ViaManualCapture (now : nat) (jpegBase64 : string) (w h : nat).

(** The entry an enqueue stores. *)
Definition entry_of (op : EnqueueOp) : Screenshot :=
  match op with
  | ViaRenderer now s =>
      {| base64 := base64 s; width := width s; height := height s;
         timestamp := Some now |}
  | ViaManualCapture now b w h =>
      {| base64 := Some b; width := Some w; height := Some h;
         timestamp := Some now |}
  end.

Definition enqueue (op : EnqueueOp) (screenshotQueue : list Screenshot)
  : list Screenshot :=
  match op with
  | ViaRenderer now s => fst (addScreenshotToQueue now s screenshotQueue)
  | ViaManualCapture now b w h =>
      fst (captureManualScreenshotToQueue now (SourcesFirst b w h) screenshotQueue)
  end.

Definition run_enqueues (ops : list EnqueueOp) (screenshotQueue : list Screenshot)
  : list Screenshot :=
  fold_left (fun q op => enqueue op q) ops screenshotQueue.

(** [s] occurs in [t]. *)
Definition occurs_in (s t : string) : Prop :=
  exists before after, t = (before ++ s ++ after)%string.

(** The message text [_isMultimodalError] inspects, lower-cased. *)
Definition lowered_message (error : JsError) : string :=
  match message error with
  | Some m => Js.toLowerCase m
  | None => EmptyString
  end.

(** [b] is [a] followed by more text. *)
Definition extends (a b : string) : Prop :=
  exists more, b = (a ++ more)%string.

(** Every element extends the one before, starting after [a]. *)
Fixpoint chain_from (a : string) (l : list string) : Prop :=
  match l with
  | [] => True
  | b :: rest => extends a b /\ chain_from b rest
  end.

Definition prefix_chain (l : list string) : Prop :=
  match l with
  | [] => True
  | a :: rest => chain_from a rest
  end.

(** The answer texts published by a trace, in order. *)
Fixpoint answers (tr : list Event) : list string :=
  match tr with
  | [] => []
  | StateUpdate st :: rest => currentResponse st :: answers rest
  | _ :: rest => answers rest
  end.

(** The payloads of the provider calls of a trace, in order. *)
Fixpoint stream_calls (tr : list Event) : list (list Message) :=
  match tr with
  | [] => []
  | StreamChat payload :: rest => payload :: stream_calls rest
  | _ :: rest => stream_calls rest
  end.

(** The messages persisted as the assistant's, in order. *)
Fixpoint persisted (tr : list Event) : list (nat * string) :=
  match tr with
  | [] => []
  | AddAiMessage sid role content :: rest =>
      if String.eqb role "assistant" then (sid, content) :: persisted rest
      else persisted rest
  | _ :: rest => persisted rest
  end.

(** The controllers a trace aborts, in order. *)
Fixpoint aborts (tr : list Event) : list nat :=
  match tr with
  | [] => []
  | AbortCall c _ :: rest => c :: aborts rest
  | _ :: rest => aborts rest
  end.

Definition is_image (p : ContentPart) : bool :=
  match p with ImageUrlPart _ => true | TextPart _ => false end.

(** Number of images a payload carries. *)
Fixpoint image_count (payload : list Message) : nat :=
  match payload with
  | [] => 0
  | UserParts parts :: rest => List.length (filter is_image parts) + image_count rest
  | _ :: rest => image_count rest
  end.

(** The question text and the system prompt a payload carries. *)
Fixpoint payload_texts (payload : list Message) : list string :=
  match payload with
  | [] => []
  | UserText t :: rest => t :: payload_texts rest
  | UserParts parts :: rest =>
      flat_map (fun p => match p with TextPart t => [t] | _ => [] end) parts
      ++ payload_texts rest
  | SystemMessage _ :: rest => payload_texts rest
  end.

Fixpoint payload_system (payload : list Message) : list SystemPrompt :=
  match payload with
  | [] => []
  | SystemMessage s :: rest => s :: payload_system rest
  | _ :: rest => payload_system rest
  end.

Definition is_abort (e : Event) : bool :=
  match e with AbortCall _ _ => true | _ => false end.

Definition is_loading_update (e : Event) : bool :=
  match e with StateUpdate st => isLoading st | _ => false end.

(** Position of the first event satisfying [f]. *)
Fixpoint index_of (f : Event -> bool) (tr : list Event) : option nat :=
  match tr with
  | [] => None
  | e :: rest =>
      if f e then Some 0
      else match index_of f rest with
           | Some i => Some (S i)
           | None => None
           end
  end.

(** The abort of the previous controller comes before the publication
    of the loading state. *)
Definition aborts_before_publishing (tr : list Event) : bool :=
  match index_of is_abort tr, index_of is_loading_update tr with
  | Some i, Some j => i <? j
  | _, _ => false
  end.

(** What one line of a chunk does to the answer. *)
Inductive LineAction :=
| Append (token : string)
| Terminate
| Ignore.

Definition line_action (env : Env) (line : string) : LineAction :=
  if Js.startsWith "data: " line then
    let data := Js.substring_from 6 line in
    if String.eqb data "[DONE]" then Terminate
    else
      match JSON_parse env data with
      | None => Ignore
      | Some json =>
          match JsonAccess.delta_content json with
          | None => Ignore
          | Some content =>
              match JsonAccess.token_text content with
              | Some token => Append token
              | None => Ignore
              end
          end
      end
  else Ignore.

(** The text accumulated by the lines of one chunk, and whether the
    terminator was met. *)
Fixpoint lines_text (env : Env) (lines : list string) (fullResponse : string)
  : bool * string :=
  match lines with
  | [] => (false, fullResponse)
  | line :: rest =>
      match line_action env line with
      | Append token => lines_text env rest (fullResponse ++ token)%string
      | Terminate => (true, fullResponse)
      | Ignore => lines_text env rest fullResponse
      end
  end.

(** How a sequence of read results leaves the loop, if it does, and
    the text accumulated until then. *)
Fixpoint reads_text (env : Env) (reads : list ReadResult) (fullResponse : string)
  : option LoopExit * string :=
  match reads with
  | [] => (None, fullResponse)
  | Done :: _ => (Some ByDone, fullResponse)
  | ReadError e :: _ => (Some (ByError e), fullResponse)
  | Chunk chunk :: rest =>
      let r := lines_text env (chunk_lines chunk) fullResponse in
      if fst r then (Some BySentinel, snd r)
      else reads_text env rest (snd r)
  end.

(** A frame whose payload [JSON.parse] rejects; the terminator is a
    frame of its own kind. *)
Definition malformed (env : Env) (line : string) : Prop :=
  exists data,
    line = ("data: " ++ data)%string /\
    data <> "[DONE]" /\
    JSON_parse env data = None.

Definition is_update (e : Event) : Prop :=
  match e with StateUpdate _ => True | _ => False end.

(** [w'] is [w] up to the fields of the request state. *)
Definition same_service (w w' : World) : Prop :=
  screenshotQueue w' = screenshotQueue w /\
  abortController w' = abortController w /\
  controllers w' = controllers w /\
  aborted w' = aborted w /\
  listeners w' = listeners w /\
  askWindow w' = askWindow w.

(** [st'] is [st] up to the answer text. *)
Definition same_but_answer (st st' : AskState) : Prop :=
  st' = set_response (currentResponse st') st.

(** The request state after the cleanup of [_processStream]. *)
Definition finalized (text : string) (st : AskState) : AskState :=
  {| isVisible := isVisible st; isLoading := isLoading st;
     isStreaming := false; currentQuestion := currentQuestion st;
     currentResponse := text; showTextInput := showTextInput st |}.

(** The request state published by the prologue of [sendMessage]. *)
Definition loading_state (userPrompt : string) (st : AskState) : AskState :=
  {| isVisible := isVisible st; isLoading := true; isStreaming := false;
     currentQuestion := userPrompt; currentResponse := "";
     showTextInput := false |}.

(** The request state left by the outer [catch] of [sendMessage]. *)
Definition failed_state (st : AskState) : AskState :=
  {| isVisible := isVisible st; isLoading := false; isStreaming := false;
     currentQuestion := currentQuestion st;
     currentResponse := currentResponse st; showTextInput := true |}.

(** The events of the prologue of [sendMessage], in order. *)
Definition prologue_trace (userPrompt : string) (w : World) : list Event :=
  RequestVisibility true
  :: (if window_alive (askWindow w)
      then [StateUpdate (loading_state userPrompt (state w))] else [])
  ++ match abortController w with
     | Some c =>
         AbortCall c "New request received."
         :: (if existsb (Nat.eqb c) (aborted w) then []
             else if existsb (Nat.eqb c) (listeners w) then [ReaderCancel c]
                  else [])
     | None => []
     end.

(** The payload of the fallback call. *)
Definition text_only (p : Prepared) : list Message :=
  [SystemMessage (systemPrompt p);
   UserText ("User Request: " ++ userText p)%string].

(** The answer text currently held by the service. *)
Definition cur (w : World) : string := currentResponse (state w).

(** A computation that publishes nothing, persists no answer, calls no
    provider and leaves everything but the queue as it was. *)
Definition quiet {A} (m : M A) : Prop :=
  forall w,
    state (world_of (m w)) = state w /\
    abortController (world_of (m w)) = abortController w /\
    controllers (world_of (m w)) = controllers w /\
    aborted (world_of (m w)) = aborted w /\
    listeners (world_of (m w)) = listeners w /\
    askWindow (world_of (m w)) = askWindow w /\
    answers (trace_of (m w)) = [] /\
    stream_calls (trace_of (m w)) = [] /\
    persisted (trace_of (m w)) = [] /\
    aborts (trace_of (m w)) = [].

(** An outcome that is not an uncaught throw. *)
Definition no_throw {A} (s : Step A) : Prop :=
  match s with Throw _ _ _ => False | _ => True end.

(** The request state published when [_processStream] starts. *)
Definition streaming_state (st : AskState) : AskState :=
  {| isVisible := isVisible st; isLoading := false; isStreaming := true;
     currentQuestion := currentQuestion st;
     currentResponse := currentResponse st;
     showTextInput := showTextInput st |}.

(** The world once the abort listener of [sig] is registered. *)
Definition listening (sig : nat) (w : World) : World :=
  {| screenshotQueue := screenshotQueue w;
     abortController := abortController w;
     controllers := controllers w; aborted := aborted w;
     listeners := sig :: listeners w; state := state w;
     askWindow := askWindow w |}.

(** A computation that aborts no controller. *)
Definition calm {A} (m : M A) : Prop :=
  forall w, aborts (trace_of (m w)) = [].

(** ** A concrete environment for examples *)

Definition dq : string := String (ascii_of_nat 34) EmptyString.

(** The frame payload carrying [content] as its delta; [content] is
    taken free of quotes, backslashes and control characters. *)
Definition delta_payload (content : string) : string :=
  ("{" ++ dq ++ "choices" ++ dq ++ ":[{" ++ dq ++ "delta" ++ dq ++ ":{"
   ++ dq ++ "content" ++ dq ++ ":" ++ dq ++ content ++ dq ++ "}}]}")%string.

Definition delta_json (content : string) : Json :=
  JObject [("choices",
            JArray [JObject [("delta", JObject [("content", JString content)])]])].

Definition delta_frame (content : string) : string :=
  ("data: " ++ delta_payload content ++ Js.nl)%string.

(** [JSON.parse] restricted to the payloads the examples use: the delta
    payloads of Hel, lo, Hello and Hi; every other example payload is
    not JSON. *)
Definition sample_parse (data : string) : option Json :=
  if String.eqb data (delta_payload "Hel") then Some (delta_json "Hel")
  else if String.eqb data (delta_payload "lo") then Some (delta_json "lo")
  else if String.eqb data (delta_payload "Hello") then Some (delta_json "Hello")
  else if String.eqb data (delta_payload "Hi") then Some (delta_json "Hi")
  else None.

Definition sample_model : ModelInfo :=
  {| provider := "copilot"; model := "gpt-4o"; apiKey := "key" |}.

(** An environment in which every collaborator succeeds and the
    provider answers each call by [provider]. *)
Definition sample_env (provider : nat -> list Message -> Res (list ReadResult))
  : Env :=
  {| JSON_parse := sample_parse;
     getOrCreateActive := Resolved 7;
     addUserMessage := Resolved tt;
     getCurrentModelInfo := Resolved (Some sample_model);
     captureScreenshot := CaptureOk "AAAA" (Some 1920) (Some 1080);
     createStreamingLLM := fun _ => Resolved tt;
     streamChat := provider |}.

(** ** A submission that supersedes a streaming one

    A [sendMessage] call [A] is suspended in [await reader.read()]
    when a second call is made.  The prologue of the second call runs
    to its end without yielding; its [abort] runs the listener of [A],
    which cancels [A]'s reader, so the pending read of [A] resolves
    with [done].  The second call then yields at its first [await],
    [A] runs through its [finally] block, and the second call goes on.
    (The second call issues its session lookup just before it yields;
    the lookup does not touch the request state, and its event is
    kept with the rest of the body.) *)
Definition supersede (envA envB : Env) (pendingA : PendingRead)
    (userPrompt : string) (conversationHistoryRaw : option (list string))
  : M SendResult :=
  signal <- sendMessage_prologue userPrompt ;;
  resume_sendMessage envA pendingA [Done] ;;;
  sendMessage_body envB userPrompt conversationHistoryRaw signal.

(** ** Example runs *)

(** The provider streams Hello and the next read is still pending. *)
Definition envA : Env :=
  sample_env (fun _ _ => Resolved [Chunk (delta_frame "Hello")]).

(** The provider streams Hi and then the terminator. *)
Definition envB : Env :=
  sample_env (fun _ _ =>
    Resolved [Chunk (delta_frame "Hi"); Chunk ("data: [DONE]" ++ Js.nl)%string]).

(** A first question, asked in the initial state with the window shown. *)
Definition first_run : Step SendResult :=
  sendMessage envA "q1" (Some []) (initial_world WinVisible).

(** The read in which [first_run] is suspended. *)
Definition pendingA : PendingRead :=
  {| p_fullResponse := "Hello"; p_sessionId := 7; p_signal := 0 |}.

Definition busy_world : World :=
  with_state {| isVisible := true; isLoading := false; isStreaming := true;
                currentQuestion := "q"; currentResponse := "Hel";
                showTextInput := false |}
    {| screenshotQueue := []; abortController := Some 0; controllers := 1;
       aborted := []; listeners := [0]; state := initial_state;
       askWindow := WinVisible |}.

Definition hello_reads : list ReadResult :=
  [Chunk (delta_frame "Hel"); Chunk (delta_frame "lo");
   Chunk ("data: [DONE]" ++ Js.nl)%string].

Definition broken_frame : string := "data: {broken".

Definition one_queued : World :=
  with_queue [{| base64 := Some "QUJD"; width := Some 1920;
                 height := Some 1080; timestamp := Some 1 |}]
    (initial_world WinVisible).

(** The provider rejects the first call as a bad request about image
    input, and the second call for another reason. *)
Definition rejecting_env : Env :=
  sample_env (fun call _ =>
    match call with
    | 0 => Rejected (mkError (Some "Copilot streaming error (400): image input is not supported"))
    | _ => Rejected (mkError (Some "Copilot streaming error (429): rate limited"))
    end).

Definition witness_prepared : Prepared :=
  match prepare rejecting_env "What is on screen?" (Some [])
          (world_of (sendMessage_prologue "What is on screen?" one_queued)) with
  | Ok p _ _ => p
  | _ => mkPrepared 0 [] (GetSystemPrompt "" "" false) "" []
  end.

(** The events of [closeAskWindow] before its visibility request. *)
Definition close_trace (w : World) : list Event :=
  match abortController w with
  | Some c =>
      AbortCall c "Window closed by user"
      :: (if existsb (Nat.eqb c) (aborted w) then []
          else if existsb (Nat.eqb c) (listeners w) then [ReaderCancel c]
               else [])
  | None => []
  end
  ++ (if window_alive (askWindow w) then [StateUpdate initial_state] else []).

(** The request state with the composer flag set to [b]. *)
Definition with_composer (b : bool) (st : AskState) : AskState :=
  {| isVisible := isVisible st; isLoading := isLoading st;
     isStreaming := isStreaming st; currentQuestion := currentQuestion st;
     currentResponse := currentResponse st; showTextInput := b |}.

(** The request state once the toggle has shown the window. *)
Definition shown (st : AskState) : AskState :=
  {| isVisible := true; isLoading := isLoading st;
     isStreaming := isStreaming st; currentQuestion := currentQuestion st;
     currentResponse := currentResponse st; showTextInput := true |}.

Definition idle (st : AskState) : bool :=
  negb (isLoading st) && negb (isStreaming st).

(** The stream errors sent to the ask window, in order. *)
Fixpoint stream_errors (tr : list Event) : list (option string) :=
  match tr with
  | [] => []
  | StreamErrorSent e :: rest => e :: stream_errors rest
  | _ :: rest => stream_errors rest
  end.
(** The outcome [s] followed by [k]. *)
Definition and_then {A B} (s : Step A) (k : A -> M B) : Step B :=
  match s with
  | Ok a w1 tr1 => prefix_trace tr1 (k a w1)
  | Throw e w1 tr1 => Throw e w1 tr1
  | Pending p w1 tr1 => Pending p w1 tr1
  end.

(** An idle service showing a previous answer, composer hidden. *)
Definition answered_world : World :=
  with_state {| isVisible := true; isLoading := false; isStreaming := false;
                currentQuestion := "q"; currentResponse := "Hello";
                showTextInput := false |}
    (initial_world WinVisible).

(** No model is configured. *)
Definition unconfigured_env : Env :=
  {| JSON_parse := sample_parse;
     getOrCreateActive := Resolved 7;
     addUserMessage := Resolved tt;
     getCurrentModelInfo := Resolved None;
     captureScreenshot := CaptureOk "AAAA" (Some 1920) (Some 1080);
     createStreamingLLM := fun _ => Resolved tt;
     streamChat := fun _ _ => Resolved [] |}.

Definition queued_prepared : Prepared :=
  match prepare envA "" (Some []) one_queued with
  | Ok p _ _ => p
  | _ => mkPrepared 0 [] (GetSystemPrompt "" "" false) "" []
  end.

Definition windowless_prepared : Prepared :=
  match prepare envA "q" (Some [])
          (world_of (sendMessage_prologue "q" (initial_world WinMissing))) with
  | Ok p _ _ => p
  | _ => mkPrepared 0 [] (GetSystemPrompt "" "" false) "" []
  end.

(** The delta payload of Hel cut after its first 27 characters. *)
Definition cut_head : string :=
  ("{" ++ dq ++ "choices" ++ dq ++ ":[{" ++ dq ++ "delta" ++ dq ++ ":{"
   ++ dq ++ "con")%string.

Definition cut_tail : string :=
  ("tent" ++ dq ++ ":" ++ dq ++ "Hel" ++ dq ++ "}}]}")%string.

(** ** The transcript view (ListenView.js) *)

Module ListenView.

(** A transcript entry; [text] is [None] for a [null] text. *)
Record TranscriptMessage := mkMessage {
  id : nat;
  text : option string;
  isPartial : bool;
  isFinal : bool
}.

(** The fields of the view that [handleSttUpdate] reads or writes. *)
Record View := mkView {
  transcriptMessages : list TranscriptMessage;
  messageIdCounter : nat;
  isProcessing : bool;
  _processingTimeout : bool;
  _shouldScrollAfterUpdate : bool;
  isThrottled : bool
}.

(** The view built by the constructor. *)
Definition initial_view : View :=
  {| transcriptMessages := []; messageIdCounter := 0; isProcessing := false;
     _processingTimeout := false; _shouldScrollAfterUpdate := false;
     isThrottled := false |}.

(** [findLastPartialIdx()]; [None] is the index -1. *)
Fixpoint findLastPartialIdx (messages : list TranscriptMessage) : option nat :=
  match messages with
  | [] => None
  | m :: rest =>
      match findLastPartialIdx rest with
      | Some i => Some (S i)
      | None => if isPartial m then Some 0 else None
      end
  end.

(** [newMessages[i] = { ...newMessages[i], text, isPartial, isFinal }]
    for an index inside the array. *)
Fixpoint update_at (i : nat) (t : option string) (partial final : bool)
    (messages : list TranscriptMessage) : list TranscriptMessage :=
  match messages, i with
  | [], _ => []
  | m :: rest, O =>
      {| id := id m; text := t; isPartial := partial; isFinal := final |} :: rest
  | m :: rest, S j => m :: update_at j t partial final rest
  end.

(** The update of [newMessages] for one flag setting. *)
Definition place (t : option string) (partial final : bool) (v : View)
  : list TranscriptMessage * nat :=
  match findLastPartialIdx (transcriptMessages v) with
  | Some targetIdx =>
      (update_at targetIdx t partial final (transcriptMessages v),
       messageIdCounter v)
  | None =>
      (transcriptMessages v
         ++ [{| id := messageIdCounter v; text := t; isPartial := partial;
                isFinal := final |}],
       S (messageIdCounter v))
  end.

(** [handleSttUpdate(event, { speaker, text, isFinal, isPartial })];
    the outer [None] of [t] is an [undefined] text.  The flag of the
    result tells whether [adjustWindowHeight] was called. *)
Definition handleSttUpdate (t : option (option string)) (final partial : bool)
    (v : View) : View * bool :=
  match t with
  | None => (v, false)
  | Some t =>
      let placed :=
        if partial then place t true false v
        else if final then place t false true v
        else (transcriptMessages v, messageIdCounter v) in
      ({| transcriptMessages := fst placed;
          messageIdCounter := snd placed;
          isProcessing := false;
          _processingTimeout :=
            if isProcessing v then false else _processingTimeout v;
          _shouldScrollAfterUpdate := true;
          isThrottled := true |},
       negb (isThrottled v))
  end.

(** [getTranscriptText()]; a [null] text is joined as the empty text. *)
Definition getTranscriptText (v : View) : string :=
  Js.join Js.nl
    (map (fun m => match text m with Some s => s | None => EmptyString end)
       (filter isFinal (transcriptMessages v))).

(** [String(n)] for an integer. *)
Definition of_Z (n : Z) : string :=
  match n with
  | Z0 => "0"
  | Zpos p => Js.of_nat (Pos.to_nat p)
  | Zneg p => ("-" ++ Js.of_nat (Pos.to_nat p))%string
  end.

(** [s.padStart(2, '0')]. *)
Definition padStart2 (s : string) : string :=
  match String.length s with
  | 0 => "00"
  | 1 => ("0" ++ s)%string
  | _ => s
  end.

(** The text the timer of [startTimer] shows at time [now], for a
    capture started at [captureStartTime] (both in milliseconds). *)
Definition elapsedTime (captureStartTime now : Z) : string :=
  let elapsed := ((now - captureStartTime) / 1000)%Z in
  let minutes := padStart2 (of_Z (elapsed / 60)%Z) in
  let seconds := padStart2 (of_Z (Z.rem elapsed 60)) in
  (minutes ++ ":" ++ seconds)%string.

(** One update as the renderer delivers it. *)
Record SttUpdate := mkUpdate {
  u_text : option (option string);
  u_isFinal : bool;
  u_isPartial : bool
}.

Definition apply_update (v : View) (u : SttUpdate) : View :=
  fst (handleSttUpdate (u_text u) (u_isFinal u) (u_isPartial u) v).

Definition ids (messages : list TranscriptMessage) : list nat :=
  map id messages.

(** What the view keeps true of its transcript: identifiers increase
    along it and stay below the counter, at most one entry is partial,
    and a partial entry is not final. *)
Definition well_formed (v : View) : Prop :=
  StronglySorted lt (ids (transcriptMessages v)) /\
  Forall (fun i => i < messageIdCounter v) (ids (transcriptMessages v)) /\
  List.length (filter isPartial (transcriptMessages v)) <= 1 /\
  Forall (fun m => isPartial m = true -> isFinal m = false)
    (transcriptMessages v).

(** The single decimal digit [n]. *)
Definition digit (n : nat) : string :=
  String (ascii_of_nat (48 + n)) EmptyString.

(** A view with one final entry and one partial entry pending. *)
Definition pending_view : View :=
  fold_left apply_update
    [mkUpdate (Some (Some "hello")) true false;
     mkUpdate (Some (Some "how are")) false true]
    initial_view.

End ListenView.

(** ** The Copilot provider (copilot.js) *)

Module Copilot.

Definition COPILOT_CHAT_FALLBACK : string := "https://api.githubcopilot.com".

(** [resolveModel(modelId)] for a string. *)
Definition resolveModel (modelId : string) : string :=
  if Js.startsWith "copilot:" modelId then Js.substring_from 8 modelId
  else modelId.

(** An entry of the models endpoint; a field is [None] when it is
    missing or [null].  [policy_state] is [m.policy?.state]. *)
Record RawModel := mkRaw {
  raw_id : option string;
  raw_name : option string;
  supported_endpoints : option (list string);
  model_picker_enabled : option bool;
  policy_state : option string;
  model_picker_category : option string
}.

(** An entry of the catalogue [fetchModels] returns. *)
Record Model := mkModel {
  id : string;
  name : string;
  _category : string
}.

(** [a || b] on strings that may be missing. *)
Definition or_else (a : option string) (b : string) : string :=
  match a with
  | Some s => if Js.truthy s then s else b
  | None => b
  end.

(** The callback of [rawModels.filter]. *)
Definition chat_enabled (m : RawModel) : bool :=
  if negb (Js.truthy (or_else (raw_id m) "")) then false
  else
    let endpoints :=
      match supported_endpoints m with Some l => l | None => [] end in
    if negb (existsb (String.eqb "/chat/completions") endpoints) then false
    else if match model_picker_enabled m with
            | Some false => true
            | _ => false
            end then false
    else if match policy_state m with
            | Some s => String.eqb s "unconfigured"
            | None => false
            end then false
    else true.

(** The callback of [.map]; it runs on entries whose id is truthy. *)
Definition to_entry (m : RawModel) : Model :=
  let i := or_else (raw_id m) "" in
  {| id := ("copilot:" ++ i)%string;
     name := or_else (raw_name m) i;
     _category := or_else (model_picker_category m) "" |}.

(** The names every object literal inherits from [Object.prototype]. *)
Definition prototype_members : list string :=
  ["constructor"; "__defineGetter__"; "__defineSetter__"; "hasOwnProperty";
   "__lookupGetter__"; "__lookupSetter__"; "isPrototypeOf";
   "propertyIsEnumerable"; "toString"; "valueOf"; "__proto__";
   "toLocaleString"].

(** [categoryOrder[c] ?? 9] as a number: the three own keys, 9 for a
    key that is not found, and [None] (not a number) for a name found
    on the prototype, whose value is a function or an object. *)
Definition categoryOrder (c : string) : option Z :=
  if String.eqb c "lightweight" then Some 0%Z
  else if String.eqb c "versatile" then Some 1%Z
  else if String.eqb c "powerful" then Some 2%Z
  else if existsb (String.eqb c) prototype_members then None
  else Some 9%Z.

(** The comparator of [modelList.sort]; [None] is a difference that
    is not a number. *)
Definition compare_models (a b : Model) : option Z :=
  match categoryOrder (_category a), categoryOrder (_category b) with
  | Some x, Some y => Some (x - y)%Z
  | _, _ => None
  end.

Definition ltC {A : Type} (cmp : A -> A -> option Z) (a b : A) : bool :=
  match cmp a b with Some v => (v <? 0)%Z | None => false end.

Definition eqC {A : Type} (cmp : A -> A -> option Z) (a b : A) : bool :=
  match cmp a b with Some v => (v =? 0)%Z | None => false end.

Definition gtC {A : Type} (cmp : A -> A -> option Z) (a b : A) : bool :=
  match cmp a b with Some v => (0 <? v)%Z | None => false end.

(** Whether a comparator is a consistent comparator for the entries of
    [l], as ECMAScript defines it: every result is a number, and the
    three relations it induces are reflexive, symmetric and transitive
    as required. *)
Definition consistent {A : Type} (cmp : A -> A -> option Z) (l : list A)
  : bool :=
  forallb (fun a =>
    eqC cmp a a &&
    forallb (fun b =>
      match cmp a b with Some _ => true | None => false end &&
      (if eqC cmp a b then eqC cmp b a else true) &&
      forallb (fun c =>
        (if eqC cmp a b && eqC cmp b c then eqC cmp a c else true) &&
        (if ltC cmp a b && ltC cmp b c then ltC cmp a c else true) &&
        (if gtC cmp a b && gtC cmp b c then gtC cmp a c else true)) l) l) l.

Fixpoint insert_sorted {A : Type} (cmp : A -> A -> option Z) (x : A)
    (l : list A) : list A :=
  match l with
  | [] => [x]
  | y :: rest =>
      if gtC cmp x y then y :: insert_sorted cmp x rest
      else x :: y :: rest
  end.

(** [Array.prototype.sort(cmp)]: the stable sort for a consistent
    comparator; for any other the order is left to the engine, which
    is [None]. *)
Definition Array_sort {A : Type} (cmp : A -> A -> option Z) (l : list A)
  : option (list A) :=
  if List.length l <=? 1 then Some l
  else if consistent cmp l then Some (fold_right (insert_sorted cmp) [] l)
  else None.

(** The catalogue built from the entries of the endpoint:
    [rawModels.filter(...).map(...)] followed by the sort. *)
Definition modelList (rawModels : list RawModel) : option (list Model) :=
  Array_sort compare_models (map to_entry (filter chat_enabled rawModels)).

(** The module-level caches. *)
Record Cache := mkCache {
  _cachedToken : option string;
  _cachedExpiry : Z;
  _cachedEndpoint : string;
  _cachedModels : option (list Model);
  _modelsCacheExpiry : Z
}.

Definition initial_cache : Cache :=
  {| _cachedToken := None; _cachedExpiry := 0;
     _cachedEndpoint := COPILOT_CHAT_FALLBACK;
     _cachedModels := None; _modelsCacheExpiry := 0 |}.

(** The parts of a user message and the messages of a chat request. *)
Inductive Content :=
| TextContent (text : string)
| ImageUrl (url : string).

Inductive ChatMessage :=
| SystemMessage (content : string)
| UserMessage (content : list Content).

(** The requests the provider sends, in program order. *)
Inductive Request :=
| TokenExchange (githubToken : string)
| ModelsRequest (endpoint : string) (token : option string)
| ChatRequest (endpoint : string) (token : option string) (model : string)
    (messages : list ChatMessage) (stream : bool)
| UserCheck (token : string)
| EntitlementCheck (token : string).

(** What the token endpoint answers: the fetch is rejected, the status
    is not ok (with the body text, [None] when reading it fails), the
    body is not JSON, or the fields of the JSON body that are read. *)
Inductive Exchange :=
| ExRejected (e : string)
| ExStatus (status : nat) (body : option string)
| ExInvalid (e : string)
| ExData (token : option string) (expires_at : option Z)
    (api : option string).

Inductive Outcome (A : Type) :=
| Returned (a : A)
| Thrown (e : string).
Arguments Returned {A} a.
Arguments Thrown {A} e.

(** The guard of the token cache at time [now]. *)
Definition token_fresh (now : Z) (c : Cache) : bool :=
  Js.truthy (or_else (_cachedToken c) "")
  && (now <? _cachedExpiry c - 60000)%Z.

(** [getCopilotApiToken(githubToken)] called at time [now]. *)
Definition getCopilotApiToken (now : Z) (githubToken : string)
    (answer : Exchange) (c : Cache)
  : Outcome (option string * string) * Cache * list Request :=
  if token_fresh now c
  then (Returned (_cachedToken c, _cachedEndpoint c), c, [])
  else
    match answer with
    | ExRejected e => (Thrown e, c, [TokenExchange githubToken])
    | ExStatus status body =>
        (Thrown ("Copilot token exchange failed (" ++ Js.of_nat status
                 ++ "): " ++ match body with Some t => t | None => "" end),
         c, [TokenExchange githubToken])
    | ExInvalid e => (Thrown e, c, [TokenExchange githubToken])
    | ExData token expires_at api =>
        let c' :=
          {| _cachedToken := token;
             _cachedExpiry :=
               (match expires_at with Some e => e | None => 0 end * 1000)%Z;
             _cachedEndpoint := or_else api COPILOT_CHAT_FALLBACK;
             _cachedModels := _cachedModels c;
             _modelsCacheExpiry := _modelsCacheExpiry c |} in
        (Returned (_cachedToken c', _cachedEndpoint c'), c',
         [TokenExchange githubToken])
    end.





(** What a validation request answers: the fetch is rejected, or a
    response arrives with its [ok] flag and status. *)
Inductive Reply :=
| RpRejected (e : string)
| RpStatus (ok : bool) (status : nat).

Record Validation := mkValidation {
  success : bool;
  error : option string
}.

(** [CopilotProvider.validateApiKey(token)]; [token] is [None] for a
    value that is not a string. *)
Definition validateApiKey (token : option string) (userResp copilotResp : Reply)
  : Validation * list Request :=
  match token with
  | None => (mkValidation false (Some "Invalid GitHub token."), [])
  | Some t =>
      if negb (Js.truthy t)
      then (mkValidation false (Some "Invalid GitHub token."), [])
      else
        match userResp with
        | RpRejected _ =>
            (mkValidation false (Some "Network error during validation."),
             [UserCheck t])
        | RpStatus false status =>
            (mkValidation false
               (Some ("GitHub token invalid (HTTP " ++ Js.of_nat status
                      ++ ").")%string),
             [UserCheck t])
        | RpStatus true _ =>
            match copilotResp with
            | RpRejected _ =>
                (mkValidation false (Some "Network error during validation."),
                 [UserCheck t; EntitlementCheck t])
            | RpStatus false _ =>
                (mkValidation false
                   (Some ("GitHub Copilot is not available for this account. "
                          ++ "Please ensure you have an active Copilot subscription.")%string),
                 [UserCheck t; EntitlementCheck t])
            | RpStatus true _ =>
                (mkValidation true None, [UserCheck t; EntitlementCheck t])
            end
        end
  end.

(** The first lines of [createLLM] and [createStreamingLLM]: the model
    id the requests will carry; [model] is [None] when the option is
    left out. *)
Definition sdkModel (apiKey : string) (model : option string)
  : Outcome string :=
  if negb (Js.truthy apiKey)
  then Thrown "GitHub token is required for Copilot"
  else Returned (resolveModel (match model with
                               | Some m => m
                               | None => "gpt-4o"
                               end)).

(** What the chat endpoint answers to [streamChat]. *)
Inductive StreamAnswer :=
| StRejected (e : string)
| StStatus (status : nat) (body : option string)
| StOk.

(** [createStreamingLLM({ apiKey, model }).streamChat(messages)] at
    time [now]; the messages are passed through unchanged. *)
Definition streamChat (now : Z) (apiKey : string) (model : option string)
    (messages : list ChatMessage) (token_answer : Exchange)
    (answer : StreamAnswer) (c : Cache)
  : Outcome unit * Cache * list Request :=
  match sdkModel apiKey model with
  | Thrown e => (Thrown e, c, [])
  | Returned m =>
      match getCopilotApiToken now apiKey token_answer c with
      | (Thrown e, c1, tr) => (Thrown e, c1, tr)
      | (Returned (token, endpoint), c1, tr) =>
          let tr' := tr ++ [ChatRequest endpoint token m messages true] in
          match answer with
          | StRejected e => (Thrown e, c1, tr')
          | StStatus status body =>
              (Thrown ("Copilot streaming error (" ++ Js.of_nat status
                       ++ "): "
                       ++ match body with Some t => t | None => "" end),
               c1, tr')
          | StOk => (Returned tt, c1, tr')
          end
      end
  end.

(** A part handed to [generateContent]: a string, an object with
    [inlineData], or an object without it. *)
Inductive Part :=
| PText (s : string)
| PImage (mimeType data : string)
| POther.

(** One turn of the loop over [parts]. *)
Definition take_part (acc : option string * list Content) (part : Part)
  : option string * list Content :=
  let '(systemPrompt, userContent) := acc in
  match part with
  | PText s =>
      if negb (Js.truthy (or_else systemPrompt ""))
         && Js.includes "You are" s
      then (Some s, userContent)
      else (systemPrompt, userContent ++ [TextContent s])
  | PImage mimeType data =>
      (systemPrompt,
       userContent
         ++ [ImageUrl ("data:" ++ mimeType ++ ";base64," ++ data)%string])
  | POther => (systemPrompt, userContent)
  end.

(** The user message pushed when [userContent] is not empty. *)
Definition user_message (userContent : list Content) : list ChatMessage :=
  if 0 <? List.length userContent then [UserMessage userContent] else [].

(** The [messages] array [generateContent(parts)] hands to [callApi]. *)
Definition generateContent_messages (parts : list Part) : list ChatMessage :=
  let '(systemPrompt, userContent) := fold_left take_part parts (None, []) in
  (if Js.truthy (or_else systemPrompt "")
   then [SystemMessage (or_else systemPrompt "")] else [])
  ++ user_message userContent.

(** What a part contributes to the user message when it is not taken
    as the system prompt. *)
Definition content_of (part : Part) : list Content :=
  match part with
  | PText s => [TextContent s]
  | PImage mimeType data =>
      [ImageUrl ("data:" ++ mimeType ++ ";base64," ++ data)%string]
  | POther => []
  end.

(** Whether a part is a text that holds the words [You are]. *)
Definition is_prompt (part : Part) : bool :=
  match part with
  | PText s => Js.includes "You are" s
  | _ => false
  end.

(** The place of an entry in the order of categories. *)
Definition category_rank (m : Model) : Z :=
  match categoryOrder (_category m) with Some v => v | None => 9%Z end.

Definition by_rank (a b : Model) : Prop :=
  (category_rank a <= category_rank b)%Z.

(** Whether the category of an endpoint entry has a place in that
    order. *)
Definition ranked (m : RawModel) : Prop :=
  categoryOrder (or_else (model_picker_category m) "") <> None.

Definition chat_model (i : string) (category : option string) : RawModel :=
  {| raw_id := Some i; raw_name := None;
     supported_endpoints := Some ["/chat/completions"];
     model_picker_enabled := None; policy_state := Some "enabled";
     model_picker_category := category |}.

Definition sample_models : list RawModel :=
  [chat_model "o1" (Some "powerful");
   chat_model "gpt-4o" (Some "versatile");
   {| raw_id := Some "embed"; raw_name := None;
      supported_endpoints := Some ["/embeddings"];
      model_picker_enabled := None; policy_state := None;
      model_picker_category := None |};
   chat_model "preview" None;
   chat_model "gpt-4o-mini" (Some "lightweight");
   chat_model "claude" (Some "versatile")].

End Copilot.

(** ** Device-flow sign-in (copilotAuthService.js) *)

Module CopilotAuth.

(** The persistent store: the value kept under [github_token], if any. *)
Definition Store := option string.

(** What the service does to the outside, in program order. *)
Inductive AuthEvent :=
| DeviceCodeRequest
| ClipboardWrite (text : string)
| OpenExternal (uri : string)
| Sleep (ms : Z)
| TokenPoll (deviceCode : string)
| StoreSet (token : string)
| StoreDelete
| UserRequest (token : string).

(** [getToken()]. *)
Definition getToken (store : Store) : option string := store.


(** What one poll of the token endpoint yields: the fetch or the
    reading of the body throws, or the two fields of the body that are
    read. *)
Inductive PollAnswer :=
| PollFailed (e : string)
| PollData (access_token : option string) (error : option string).

(** [Math.floor(expiresIn / interval)]: a number of attempts, or no
    bound at all for a division of a positive number by zero.  Zero
    divided by zero and a negative number divided by zero give
    values no counter is below. *)
Inductive Bound :=
| Attempts (n : Z)
| Unbounded.

Definition maxAttempts (expiresIn interval : Z) : Bound :=
  if (interval =? 0)%Z
  then if (0 <? expiresIn)%Z then Unbounded else Attempts 0
  else Attempts (expiresIn / interval).

(** [i < maxAttempts]. *)
Definition below (i : Z) (b : Bound) : bool :=
  match b with
  | Attempts n => (i <? n)%Z
  | Unbounded => true
  end.

(** How a poll leaves the loop body. *)
Inductive Verdict :=
| Granted (token : string)
| Ended
| Retry
| SlowDown.

Definition error_is (error : option string) (s : string) : bool :=
  match error with Some e => String.eqb e s | None => false end.

(** The body of the [try] for one answer. *)
Definition verdict (a : PollAnswer) : Verdict :=
  match a with
  | PollFailed _ => Retry
  | PollData access_token error =>
      if Js.truthy (Copilot.or_else access_token "")
      then Granted (Copilot.or_else access_token "")
      else if error_is error "authorization_pending" then Retry
      else if error_is error "slow_down" then SlowDown
      else if error_is error "expired_token"
              || error_is error "access_denied" then Ended
      else Retry
  end.

(** What [_pollForToken] resolves to; [Waiting] when the replies given
    run out while the loop goes on. *)
Inductive PollResult :=
| Token (t : string)
| Null
| Waiting.

(** The state of one run of the loop: the result, the flag [_polling]
    and what was done. *)
Definition Polled : Type := PollResult * bool * list AuthEvent.

Definition after (pre : list AuthEvent) (r : Polled) : Polled :=
  let '(res, polling, tr) := r in (res, polling, pre ++ tr).

(** The [for] loop of [_pollForToken] from counter [i] on, for one
    flow at a time ([_polling] is not cleared from outside). *)
Fixpoint poll_loop (deviceCode : string) (bound : Bound) (i interval : Z)
    (replies : list PollAnswer) : Polled :=
  if below i bound then
    let pre := [Sleep (interval * 1000); TokenPoll deviceCode] in
    match replies with
    | [] => (Waiting, true, pre)
    | a :: rest =>
        match verdict a with
        | Granted t => (Token t, true, pre)
        | Ended => (Null, true, pre)
        | Retry =>
            after pre (poll_loop deviceCode bound (i + 1) interval rest)
        | SlowDown =>
            after pre (poll_loop deviceCode bound (i + 1) (interval + 5) rest)
        end
    end
  else (Null, false, []).

(** [_pollForToken(deviceCode, interval, expiresIn)]. *)
Definition _pollForToken (deviceCode : string) (interval expiresIn : Z)
    (replies : list PollAnswer) : Polled :=
  poll_loop deviceCode (maxAttempts expiresIn interval) 0 interval replies.

(** What the device-code request yields: the fetch throws, the status
    is not ok (with the body text, or the error of reading it), the
    body is not JSON, or the fields of the body. *)
Inductive DeviceAnswer :=
| DevRejected (e : string)
| DevStatus (status : nat) (body : string + string)
| DevInvalid (e : string)
| DevData (device_code user_code verification_uri : string)
    (expires_in interval : option Z).

Record LoginResult := mkLogin {
  success : bool;
  userCode : option string;
  error : option string
}.

(** [a || b] on numbers that may be missing. *)
Definition num_or (a : option Z) (b : Z) : Z :=
  match a with
  | Some v => if (v =? 0)%Z then b else v
  | None => b
  end.

(** [login()]; the result is [None] while the poll is waiting. *)
Definition login (device : DeviceAnswer) (replies : list PollAnswer)
    (store : Store) : option LoginResult * Store * list AuthEvent :=
  match device with
  | DevRejected e =>
      (Some (mkLogin false None (Some e)), store, [DeviceCodeRequest])
  | DevStatus status (inl text) =>
      (Some (mkLogin false None
               (Some ("Device code request failed (" ++ Js.of_nat status
                      ++ "): " ++ text)%string)),
       store, [DeviceCodeRequest])
  | DevStatus status (inr e) =>
      (Some (mkLogin false None (Some e)), store, [DeviceCodeRequest])
  | DevInvalid e =>
      (Some (mkLogin false None (Some e)), store, [DeviceCodeRequest])
  | DevData device_code user_code verification_uri expires_in interval =>
      let pre := [DeviceCodeRequest; ClipboardWrite user_code;
                  OpenExternal verification_uri] in
      match _pollForToken device_code (num_or interval 5)
              (num_or expires_in 900) replies with
      | (Token t, _, tr) =>
          (Some (mkLogin true (Some user_code) None), Some t,
           pre ++ tr ++ [StoreSet t])
      | (Null, _, tr) =>
          (Some (mkLogin false None
                   (Some "Authentication timed out or was denied.")),
           store, pre ++ tr)
      | (Waiting, _, tr) => (None, store, pre ++ tr)
      end
  end.

(** [logout()]. *)
Definition logout (store : Store) : LoginResult * Store * list AuthEvent :=
  (mkLogin true None None, None, [StoreDelete]).

(** What the user endpoint yields. *)
Inductive UserAnswer :=
| UserFailed
| UserStatus (status : nat)
| UserData (login name avatar_url : option string).

Record User := mkUser {
  u_login : option string;
  u_name : option string;
  u_avatar : option string
}.

(** [getUser()]. *)
Definition getUser (answer : UserAnswer) (store : Store)
  : option User * list AuthEvent :=
  match getToken store with
  | None => (None, [])
  | Some token =>
      if negb (Js.truthy token) then (None, [])
      else
        match answer with
        | UserFailed => (None, [UserRequest token])
        | UserStatus _ => (None, [UserRequest token])
        | UserData login name avatar_url =>
            (Some (mkUser login name avatar_url), [UserRequest token])
        end
  end.

(** [getStatus()]: the flag [loggedIn] and the user. *)
Definition getStatus (answer : UserAnswer) (store : Store)
  : (bool * option User) * list AuthEvent :=
  match getToken store with
  | None => ((false, None), [])
  | Some token =>
      if negb (Js.truthy token) then ((false, None), [])
      else
        match getUser answer store with
        | (None, tr) => ((false, None), tr)
        | (Some user, tr) => ((true, Some user), tr)
        end
  end.

(** The number of replies before the [k]-th that ask to slow down. *)
Definition slow_downs (k : nat) (replies : list PollAnswer) : Z :=
  Z.of_nat
    (List.length
       (filter (fun a => match verdict a with SlowDown => true | _ => false end)
          (firstn k replies))).

(** Whether an answer ends the loop. *)
Definition decisive (a : PollAnswer) : bool :=
  match verdict a with
  | Granted _ | Ended => true
  | _ => false
  end.

(** The sleep and the request of each of the first [k] turns of a loop
    that started with [interval]. *)
Definition turns (deviceCode : string) (interval : Z)
    (replies : list PollAnswer) (k : nat) : list AuthEvent :=
  flat_map
    (fun j => [Sleep ((interval + 5 * slow_downs j replies) * 1000);
               TokenPoll deviceCode])
    (seq 0 k).

End CopilotAuth.

(** ** Keyboard shortcuts (shortcutsService.js) *)

Module Shortcuts.

(** A plain object with string values: its own properties in the
    order they were created.  A value is [None] for [null] or
    [undefined]. *)
Definition Obj := list (string * option string).

Fixpoint set (k : string) (v : option string) (o : Obj) : Obj :=
  match o with
  | [] => [(k, v)]
  | (k', v') :: rest =>
      if String.eqb k' k then (k', v) :: rest else (k', v') :: set k v rest
  end.

(** [o[k] = v] for a value that is a string, [null] or [undefined]:
    the key [__proto__] reaches the setter of the prototype and
    creates no property. *)
Definition assign (k : string) (v : option string) (o : Obj) : Obj :=
  if String.eqb k "__proto__" then o else set k v o.

(** [o[k]] for a key that is an own property or names no member of
    [Object.prototype]. *)
Fixpoint get (k : string) (o : Obj) : option string :=
  match o with
  | [] => None
  | (k', v) :: rest => if String.eqb k' k then v else get k rest
  end.

(** Truthiness of such a value. *)
Definition truthy (v : option string) : bool :=
  match v with Some s => Js.truthy s | None => false end.

Definition digit_of (c : ascii) : option N :=
  let n := nat_of_ascii c in
  if (48 <=? n) && (n <=? 57) then Some (N.of_nat (n - 48)) else None.

Fixpoint digits (s : string) (acc : N) : option N :=
  match s with
  | EmptyString => Some acc
  | String c rest =>
      match digit_of c with
      | Some d => digits rest (acc * 10 + d)
      | None => None
      end
  end.

(** The array index a key stands for: a canonical decimal numeral
    below 2^32 - 1. *)
Definition array_index (k : string) : option N :=
  match k with
  | EmptyString => None
  | String c rest =>
      if Ascii.eqb c "0"
      then match rest with EmptyString => Some 0%N | _ => None end
      else match digits k 0 with
           | Some n => if (n <=? 4294967294)%N then Some n else None
           | None => None
           end
  end.

Fixpoint insert_index (e : N * (string * option string))
    (l : list (N * (string * option string)))
  : list (N * (string * option string)) :=
  match l with
  | [] => [e]
  | x :: rest =>
      if (fst e <? fst x)%N then e :: x :: rest
      else x :: insert_index e rest
  end.

(** The properties of an object in the order [for ... in] visits them:
    array indices in ascending order, then the other keys in order of
    creation. *)
Definition entries (o : Obj) : Obj :=
  let indexed :=
    flat_map (fun p => match array_index (fst p) with
                       | Some n => [(n, p)]
                       | None => []
                       end) o in
  map snd (fold_right insert_index [] indexed)
  ++ filter (fun p => match array_index (fst p) with
                      | Some _ => false
                      | None => true
                      end) o.

(** A row of the keybinds table. *)
Record Row := mkRow {
  action : string;
  accelerator : option string
}.

(** [getDefaultKeybinds()]. *)
Definition getDefaultKeybinds (isMac : bool) : Obj :=
  let m (mac other : string) := Some (if isMac then mac else other) in
  [("moveUp", m "Cmd+Up" "Ctrl+Up");
   ("moveDown", m "Cmd+Down" "Ctrl+Down");
   ("moveLeft", m "Cmd+Left" "Ctrl+Left");
   ("moveRight", m "Cmd+Right" "Ctrl+Right");
   ("toggleVisibility", m "Cmd+\" "Ctrl+\");
   ("toggleClickThrough", m "Cmd+M" "Ctrl+M");
   ("nextStep", m "Cmd+Enter" "Ctrl+Enter");
   ("manualScreenshot", m "Cmd+Shift+S" "Ctrl+Shift+S");
   ("previousResponse", m "Cmd+[" "Ctrl+[");
   ("nextResponse", m "Cmd+]" "Ctrl+]");
   ("scrollUp", m "Cmd+Shift+Up" "Ctrl+Shift+Up");
   ("scrollDown", m "Cmd+Shift+Down" "Ctrl+Shift+Down");
   ("quitApp", m "Cmd+Q" "Ctrl+Q")].

(** What a registered shortcut does when pressed. *)
Inductive Callback :=
| ToggleAllWindows
| ToggleHeaderAndAsk
| NextStep
| ScrollResponseUp
| ScrollResponseDown
| MoveStep (direction : string)
| ToggleClickThrough
| ManualScreenshot
| PreviousResponse
| NextResponse
| QuitApp
| MoveToDisplay (displayId : nat)
| MoveToEdge (direction : string).

(** What the service does to the outside, in program order. *)
Inductive Effect :=
| GetAllKeybinds
| UpsertKeybinds (rows : list Row)
| UnregisterAll
| SendToRenderer (channel : string) (keybinds : Obj)
| Register (accelerator : string) (callback : Callback)
| RegisterFailed (accelerator : string)
| RequestToggleAllWindowsVisibility (targetVisibility : bool).

(** How a call ends: it returns, or it throws. *)
Inductive Run (A : Type) :=
| Done (a : A) (tr : list Effect)
| Raised (e : string) (tr : list Effect).
Arguments Done {A} a tr.
Arguments Raised {A} e tr.

Definition trace {A} (r : Run A) : list Effect :=
  match r with Done _ tr => tr | Raised _ tr => tr end.

Definition and_after {A B} (r : Run A) (k : A -> Run B) : Run B :=
  match r with
  | Done a tr =>
      match k a with
      | Done b tr' => Done b (tr ++ tr')
      | Raised e tr' => Raised e (tr ++ tr')
      end
  | Raised e tr => Raised e tr
  end.

(** The surroundings of the service: the platform, what the
    repository holds and whether a write to it fails, the displays,
    the state of the header window, and the accelerators that
    [globalShortcut.register] throws on. *)
Record Env := mkEnv {
  isMac : bool;
  getAllKeybinds : string + option (list Row);
  upsertKeybinds : list Row -> option string;
  displays : list nat;
  currentHeaderState : option string;
  register_throws : string -> option string
}.

(** [saveKeybinds(newKeybinds)]. *)
Definition saveKeybinds (env : Env) (newKeybinds : Obj) : Run unit :=
  let keybindsToSave :=
    map (fun p => mkRow (fst p) (snd p)) (entries newKeybinds) in
  match upsertKeybinds env keybindsToSave with
  | Some e => Raised e [UpsertKeybinds keybindsToSave]
  | None => Done tt [UpsertKeybinds keybindsToSave]
  end.

(** One turn of the loop of [loadKeybinds] over the defaults. *)
Definition fill (acc : Obj * bool) (d : string * option string) : Obj * bool :=
  let '(keybinds, needsUpdate) := acc in
  if negb (truthy (get (fst d) keybinds))
  then (assign (fst d) (snd d) keybinds, true)
  else (keybinds, needsUpdate).

(** The object [loadKeybinds] builds from the rows of the table. *)
Definition object_of (rows : list Row) : Obj :=
  fold_left (fun o k => assign (action k) (accelerator k) o) rows [].

(** [loadKeybinds()]. *)
Definition loadKeybinds (env : Env) : Run Obj :=
  match getAllKeybinds env with
  | inl e => Raised e [GetAllKeybinds]
  | inr keybindsArray =>
      match keybindsArray with
      | None | Some [] =>
          let defaults := getDefaultKeybinds (isMac env) in
          and_after (Done tt [GetAllKeybinds]) (fun _ =>
          and_after (saveKeybinds env defaults) (fun _ =>
          Done defaults []))
      | Some rows =>
          let keybinds := object_of rows in
          let defaults := getDefaultKeybinds (isMac env) in
          let '(keybinds, needsUpdate) :=
            fold_left fill (entries defaults) (keybinds, false) in
          and_after (Done tt [GetAllKeybinds]) (fun _ =>
          and_after (if needsUpdate then saveKeybinds env keybinds
                     else Done tt []) (fun _ =>
          Done keybinds []))
      end
  end.

(** [globalShortcut.register(accelerator, callback)]. *)
Definition register (env : Env) (accelerator : string) (callback : Callback)
  : Run unit :=
  match register_throws env accelerator with
  | Some e => Raised e [RegisterFailed accelerator]
  | None => Done tt [Register accelerator callback]
  end.

(** The [switch] over the action of a configurable shortcut. *)
Definition callback_of (action : string) : option Callback :=
  if String.eqb action "toggleVisibility" then Some ToggleHeaderAndAsk
  else if String.eqb action "nextStep" then Some NextStep
  else if String.eqb action "scrollUp" then Some ScrollResponseUp
  else if String.eqb action "scrollDown" then Some ScrollResponseDown
  else if String.eqb action "moveUp" then Some (MoveStep "up")
  else if String.eqb action "moveDown" then Some (MoveStep "down")
  else if String.eqb action "moveLeft" then Some (MoveStep "left")
  else if String.eqb action "moveRight" then Some (MoveStep "right")
  else if String.eqb action "toggleClickThrough" then Some ToggleClickThrough
  else if String.eqb action "manualScreenshot" then Some ManualScreenshot
  else if String.eqb action "previousResponse" then Some PreviousResponse
  else if String.eqb action "nextResponse" then Some NextResponse
  else if String.eqb action "quitApp" then Some QuitApp
  else None.

(** The registrations of a list of steps, stopping at the first that
    throws. *)
Fixpoint in_turn (steps : list (Run unit)) : Run unit :=
  match steps with
  | [] => Done tt []
  | s :: rest => and_after s (fun _ => in_turn rest)
  end.

(** The body of the loop over the keybinds: a registration that throws
    is caught. *)
Definition register_action (env : Env) (p : string * option string)
  : Run unit :=
  match snd p with
  | None => Done tt []
  | Some accelerator =>
      if negb (Js.truthy accelerator) then Done tt []
      else
        match callback_of (fst p) with
        | Some callback =>
            match register env accelerator callback with
            | Raised _ tr => Done tt tr
            | r => r
            end
        | None => Done tt []
        end
  end.

(** The state of the service that the calls below read or write. *)
Record Service := mkService {
  windowPool : bool;
  allWindowVisibility : bool
}.

(** The shortcuts that switch displays, when there is more than one. *)
Definition display_steps (env : Env) : list (Run unit) :=
  let modifier := if isMac env then "Cmd" else "Ctrl" in
  if 1 <? List.length (displays env)
  then map (fun p =>
              register env
                (modifier ++ "+Shift+" ++ Js.of_nat (fst p + 1))%string
                (MoveToDisplay (snd p)))
         (combine (seq 0 (List.length (displays env))) (displays env))
  else [].

Definition edge_steps (env : Env) : list (Run unit) :=
  let modifier := if isMac env then "Cmd" else "Ctrl" in
  [register env (modifier ++ "+Shift+Left")%string (MoveToEdge "left");
   register env (modifier ++ "+Shift+Right")%string (MoveToEdge "right")].

(** The registration of the one shortcut that brings the windows back. *)
Definition register_toggle (env : Env) (keybinds : Obj) : Run unit :=
  match get "toggleVisibility" keybinds with
  | Some accelerator =>
      if Js.truthy accelerator
      then register env accelerator ToggleAllWindows
      else Done tt []
  | None => Done tt []
  end.

(** [registerShortcuts(registerOnlyToggleVisibility)]. *)
Definition registerShortcuts (env : Env) (registerOnlyToggleVisibility : bool)
    (s : Service) : Run unit :=
  if negb (windowPool s) then Done tt []
  else
    and_after (loadKeybinds env) (fun keybinds =>
    and_after (Done tt [UnregisterAll;
                        SendToRenderer "shortcuts-updated" keybinds])
      (fun _ =>
    if registerOnlyToggleVisibility then register_toggle env keybinds
    else
      and_after (in_turn (display_steps env ++ edge_steps env)) (fun _ =>
      if match currentHeaderState env with
         | Some h => String.eqb h "apikey"
         | None => false
         end
      then register_toggle env keybinds
      else in_turn (map (register_action env) (entries keybinds))))).

(** [toggleAllWindowsVisibility()]: the new state of the service and
    the run. *)
Definition toggleAllWindowsVisibility (env : Env) (s : Service)
  : Service * Run unit :=
  let targetVisibility := negb (allWindowVisibility s) in
  let r :=
    and_after (Done tt [RequestToggleAllWindowsVisibility targetVisibility])
      (fun _ =>
         if allWindowVisibility s then registerShortcuts env true s
         else registerShortcuts env false s) in
  match r with
  | Done _ _ =>
      ({| windowPool := windowPool s;
          allWindowVisibility := negb (allWindowVisibility s) |}, r)
  | Raised _ _ => (s, r)
  end.

(** The rows [saveKeybinds] writes for an object. *)
Definition rows_of (o : Obj) : list Row :=
  map (fun p => mkRow (fst p) (snd p)) (entries o).

(** Whether a default is missing from what the table holds. *)
Definition missing (stored : Obj) (d : string * option string) : bool :=
  negb (truthy (get (fst d) stored)).

Definition sample_env : Env :=
  {| isMac := false;
     getAllKeybinds :=
       inr (Some [mkRow "nextStep" (Some "Ctrl+J"); mkRow "7" (Some "F7");
                  mkRow "quitApp" (Some ""); mkRow "__proto__" (Some "F1")]);
     upsertKeybinds := fun _ => None;
     displays := [11];
     currentHeaderState := Some "main";
     register_throws := fun _ => None |}.

Definition sample_loaded : Obj :=
  [("nextStep", Some "Ctrl+J"); ("7", Some "F7"); ("quitApp", Some "Ctrl+Q");
   ("moveUp", Some "Ctrl+Up"); ("moveDown", Some "Ctrl+Down");
   ("moveLeft", Some "Ctrl+Left"); ("moveRight", Some "Ctrl+Right");
   ("toggleVisibility", Some "Ctrl+\");
   ("toggleClickThrough", Some "Ctrl+M");
   ("manualScreenshot", Some "Ctrl+Shift+S");
   ("previousResponse", Some "Ctrl+["); ("nextResponse", Some "Ctrl+]");
   ("scrollUp", Some "Ctrl+Shift+Up");
   ("scrollDown", Some "Ctrl+Shift+Down")].

End Shortcuts.

(** * Properties *)

(** ** Built-ins *)

Lemma slice_last (A : Type) (n : nat) (l : list A) :
  0 < n -> Js.slice (- Z.of_nat n) l = skipn (List.length l - n) l.
Proof.
  intros Hn. unfold Js.slice.
  replace (- Z.of_nat n <? 0)%Z with true by (symmetry; apply Z.ltb_lt; lia).
  f_equal. lia.
Qed.

Lemma prefix_iff (p s : string) :
  String.prefix p s = true <-> exists rest, s = (p ++ rest)%string.
Proof.
  revert s. induction p as [|c p IH]; intros s.
  - split; [intros _; exists s; reflexivity | intros _; now destruct s].
  - destruct s as [|d s]; simpl.
    + split; [discriminate | intros [rest H]; discriminate].
    + destruct (Ascii.ascii_dec c d) as [->|Hne].
      * rewrite IH. split; intros [rest H]; exists rest.
        -- now rewrite H.
        -- now injection H.
      * split; [discriminate|].
        intros [rest H]. injection H as H1 _. congruence.
Qed.

Lemma includes_iff (sub s : string) :
  Js.includes sub s = true <-> occurs_in sub s.
Proof.
  unfold occurs_in. induction s as [|c s IH]; cbn [Js.includes].
  - rewrite prefix_iff. split.
    + intros [rest H]. exists EmptyString, rest. exact H.
    + intros [before [after H]]. destruct before; [|discriminate].
      exists after. exact H.
  - rewrite orb_true_iff, prefix_iff, IH. split.
    + intros [[rest H]|[before [after H]]].
      * exists EmptyString, rest. exact H.
      * exists (String c before), after. simpl. now rewrite H.
    + intros [before [after H]]. destruct before as [|d before].
      * left. exists after. exact H.
      * right. simpl in H. injection H as _ H. now exists before, after.
Qed.

(** ** Screenshot queue *)

Lemma push_limited_suffix (e : Screenshot) (q : list Screenshot) :
  exists evicted,
    q ++ [e] = evicted ++ push_limited e q /\
    List.length (push_limited e q) = Nat.min 10 (List.length q + 1).
Proof.
  unfold push_limited, MAX_SCREENSHOT_QUEUE_SIZE.
  destruct (10 <? List.length (q ++ [e])) eqn:Hlen.
  - apply Nat.ltb_lt in Hlen. rewrite slice_last by lia.
    exists (firstn (List.length (q ++ [e]) - 10) (q ++ [e])). split.
    + now rewrite firstn_skipn.
    + rewrite length_skipn. rewrite length_app in *.
      cbn [List.length] in *. lia.
  - apply Nat.ltb_ge in Hlen. exists []. split; [reflexivity|].
    rewrite length_app in *. cbn [List.length] in *. lia.
Qed.

Lemma enqueue_push (op : EnqueueOp) (q : list Screenshot) :
  enqueue op q = push_limited (entry_of op) q.
Proof. destruct op; reflexivity. Qed.

Lemma run_enqueues_suffix (ops : list EnqueueOp) : forall q,
  exists evicted,
    q ++ map entry_of ops = evicted ++ run_enqueues ops q /\
    List.length (run_enqueues ops q)
    = match ops with
      | [] => List.length q
      | _ => Nat.min 10 (List.length q + List.length ops)
      end.
Proof.
  induction ops as [|op ops IH]; intros q.
  - exists []. simpl. now rewrite app_nil_r.
  - destruct (push_limited_suffix (entry_of op) q) as [ev1 [H1 L1]].
    destruct (IH (enqueue op q)) as [ev2 [H2 L2]].
    exists (ev1 ++ ev2). cbn [run_enqueues fold_left map].
    fold (run_enqueues ops (enqueue op q)). split.
    + rewrite <- app_assoc, <- H2, enqueue_push.
      change (entry_of op :: map entry_of ops)
        with ([entry_of op] ++ map entry_of ops).
      now rewrite !app_assoc, H1.
    + rewrite L2, enqueue_push, L1. cbn [List.length].
      destruct ops; cbn [List.length]; lia.
Qed.

(** C3. Starting from the empty queue, after any sequence of completed
    enqueues (through addScreenshotToQueue or
    captureManualScreenshotToQueue) the queue holds at most 10 entries
    and is exactly the last min(10, n) stored entries in insertion
    order; a full queue [s1..s10] receiving s11 becomes [s2..s11]. *)
Theorem queue_keeps_ten_most_recent :
  (forall ops : list EnqueueOp,
     let q := run_enqueues ops [] in
     List.length q <= 10 /\
     List.length q = Nat.min 10 (List.length ops) /\
     exists evicted, map entry_of ops = evicted ++ q) /\
  (forall (s1 s2 s3 s4 s5 s6 s7 s8 s9 s10 : Screenshot) (op : EnqueueOp),
     enqueue op [s1; s2; s3; s4; s5; s6; s7; s8; s9; s10]
     = [s2; s3; s4; s5; s6; s7; s8; s9; s10; entry_of op]).
Proof.
  split.
  - intros ops q. subst q.
    destruct (run_enqueues_suffix ops []) as [ev [H L]].
    cbn [app List.length] in H, L.
    assert (L' : List.length (run_enqueues ops [])
                 = Nat.min 10 (List.length ops))
      by (rewrite L; destruct ops; cbn [List.length]; lia).
    repeat split; try lia. now exists ev.
  - intros. rewrite enqueue_push. reflexivity.
Qed.

(** C4. Draining returns every queued entry in order and leaves the
    queue empty: its size is 0, it has no queued screenshots and
    isEmpty holds. *)
Theorem drain_returns_all_and_empties (screenshotQueue : list Screenshot) :
  let (drained, after) := getAndClearScreenshotQueue screenshotQueue in
  drained = screenshotQueue /\
  after = [] /\
  getScreenshotQueueSize after = 0 /\
  hasQueuedScreenshots after = false /\
  isEmpty after = true.
Proof. simpl. repeat split. Qed.

(** ** Prompt context *)

Lemma skipn_app_exact (A : Type) (old recent : list A) :
  skipn (List.length (old ++ recent) - List.length recent) (old ++ recent)
  = recent.
Proof.
  rewrite length_app.
  replace (List.length old + List.length recent - List.length recent)
    with (List.length old) by lia.
  rewrite skipn_app, skipn_all, Nat.sub_diag. reflexivity.
Qed.

(** C10. A non-empty history yields its last 30 entries joined by
    newlines: entries before the last 30 do not reach the prompt, and a
    history of at most 30 entries is joined whole; an empty or missing
    history yields the fixed string. *)
Theorem history_keeps_last_thirty :
  (forall older recent : list string,
     List.length recent = 30 ->
     _formatConversationForPrompt (Some (older ++ recent))
     = Js.join Js.nl recent) /\
  (forall texts : list string,
     texts <> [] -> List.length texts <= 30 ->
     _formatConversationForPrompt (Some texts) = Js.join Js.nl texts) /\
  _formatConversationForPrompt (Some [])
  = "No conversation history available." /\
  _formatConversationForPrompt None
  = "No conversation history available.".
Proof.
  repeat split.
  - intros older recent Hlen. unfold _formatConversationForPrompt.
    assert (Hnz : (List.length (older ++ recent) =? 0) = false)
      by (apply Nat.eqb_neq; rewrite length_app; lia).
    rewrite Hnz. change (-30)%Z with (- Z.of_nat 30)%Z.
    rewrite slice_last by lia. rewrite <- Hlen at 1.
    now rewrite skipn_app_exact.
  - intros texts Hne Hlen. unfold _formatConversationForPrompt.
    destruct texts as [|t texts]; [congruence|].
    cbn [List.length Nat.eqb]. change (-30)%Z with (- Z.of_nat 30)%Z.
    rewrite slice_last by lia.
    replace (List.length (t :: texts) - 30) with 0 by lia. reflexivity.
Qed.

Lemma history_keeps_last_thirty_witness :
  _formatConversationForPrompt
    (Some (["a"; "b"] ++ repeat "x" 29 ++ ["z"]))
  = Js.join Js.nl (repeat "x" 29 ++ ["z"])
  /\ _formatConversationForPrompt (Some ["q"; "r"])
     = Js.join Js.nl ["q"; "r"].
Proof.
  split.
  - apply (proj1 history_keeps_last_thirty). reflexivity.
  - apply (proj1 (proj2 history_keeps_last_thirty)).
    + discriminate.
    + simpl. lia.
Defined.

(** ** Classification of provider errors *)

(** C6. An error is classified as a multimodal rejection exactly when
    its lower-cased message contains one of the eight markers; a
    message containing none of them is not classified so. *)
Theorem multimodal_iff_marker (error : JsError) :
  (_isMultimodalError error = true <->
   exists marker, In marker multimodal_markers
                  /\ occurs_in marker (lowered_message error)) /\
  ((forall marker, In marker multimodal_markers ->
                   ~ occurs_in marker (lowered_message error))
   <-> _isMultimodalError error = false).
Proof.
  assert (H : _isMultimodalError error = true <->
   exists marker, In marker multimodal_markers
                  /\ occurs_in marker (lowered_message error)).
  { unfold _isMultimodalError. fold (lowered_message error).
    rewrite !orb_true_iff, !includes_iff. unfold multimodal_markers. split.
    - intros Hor.
      repeat (destruct Hor as [Hor|Hor]);
        (eexists; split; [|exact Hor]); simpl; tauto.
    - intros [marker [Hin Hocc]]. simpl in Hin.
      repeat (destruct Hin as [<-|Hin]; [tauto|]). contradiction. }
  split; [exact H|]. split.
  - intros Hnone. destruct (_isMultimodalError error) eqn:E; [|reflexivity].
    destruct (proj1 H eq_refl) as [marker [Hin Hocc]].
    exfalso. exact (Hnone marker Hin Hocc).
  - intros Hfalse marker Hin Hocc.
    assert (_isMultimodalError error = true) by (apply H; eauto).
    congruence.
Qed.

(** ** Running monadic code *)

Lemma bind_run {A B} (m : M A) (k : A -> M B) w a w1 tr1 :
  m w = Ok a w1 tr1 -> bind m k w = prefix_trace tr1 (k a w1).
Proof. unfold bind. now intros ->. Qed.

Lemma bind_throws {A B} (m : M A) (k : A -> M B) w e w1 tr1 :
  m w = Throw e w1 tr1 -> bind m k w = Throw e w1 tr1.
Proof. unfold bind. now intros ->. Qed.

Lemma bind_ok {A B} (m : M A) (k : A -> M B) w b w2 tr :
  bind m k w = Ok b w2 tr ->
  exists a w1 tr1 tr2,
    m w = Ok a w1 tr1 /\ k a w1 = Ok b w2 tr2 /\ tr = tr1 ++ tr2.
Proof.
  unfold bind. destruct (m w) as [a w1 tr1| |]; try discriminate.
  destruct (k a w1) as [b' w2' tr2| |] eqn:Hk; try discriminate.
  cbn. intros H. injection H as <- <- <-. now exists a, w1, tr1, tr2.
Qed.

Lemma trace_prefix {A} (tr1 : list Event) (s : Step A) :
  trace_of (prefix_trace tr1 s) = tr1 ++ trace_of s.
Proof. now destruct s. Qed.

Lemma world_prefix {A} (tr1 : list Event) (s : Step A) :
  world_of (prefix_trace tr1 s) = world_of s.
Proof. now destruct s. Qed.

Lemma prefix_nil {A} (s : Step A) : prefix_trace [] s = s.
Proof. now destruct s. Qed.

Lemma prefix_prefix {A} (t1 t2 : list Event) (s : Step A) :
  prefix_trace t1 (prefix_trace t2 s) = prefix_trace (t1 ++ t2) s.
Proof. destruct s; cbn; now rewrite app_assoc. Qed.

Lemma answers_app (t1 t2 : list Event) :
  answers (t1 ++ t2) = answers t1 ++ answers t2.
Proof.
  induction t1 as [|e t1 IH]; [reflexivity|].
  destruct e; cbn; now rewrite ?IH.
Qed.

Lemma stream_calls_app (t1 t2 : list Event) :
  stream_calls (t1 ++ t2) = stream_calls t1 ++ stream_calls t2.
Proof.
  induction t1 as [|e t1 IH]; [reflexivity|].
  destruct e; cbn; now rewrite ?IH.
Qed.

Lemma persisted_app (t1 t2 : list Event) :
  persisted (t1 ++ t2) = persisted t1 ++ persisted t2.
Proof.
  induction t1 as [|e t1 IH]; [reflexivity|].
  destruct e; cbn; rewrite ?IH; try reflexivity.
  now destruct (role =? "assistant")%string.
Qed.

Lemma aborts_app (t1 t2 : list Event) :
  aborts (t1 ++ t2) = aborts t1 ++ aborts t2.
Proof.
  induction t1 as [|e t1 IH]; [reflexivity|].
  destruct e; cbn; now rewrite ?IH.
Qed.

Lemma updates_only (tr : list Event) :
  Forall is_update tr ->
  stream_calls tr = [] /\ persisted tr = [] /\ aborts tr = [].
Proof.
  induction 1 as [|e tr He _ IH]; [now repeat split|].
  destruct e; try contradiction. cbn. destruct IH as (-> & -> & ->).
  now repeat split.
Qed.

Lemma same_service_refl w : same_service w w.
Proof. now repeat split. Qed.

Lemma same_service_trans w1 w2 w3 :
  same_service w1 w2 -> same_service w2 w3 -> same_service w1 w3.
Proof.
  unfold same_service. intros (?&?&?&?&?&?) (?&?&?&?&?&?).
  repeat split; congruence.
Qed.

Lemma same_service_with_state st w : same_service w (with_state st w).
Proof. now repeat split. Qed.

Lemma broadcast_run w :
  exists tr, _broadcastState w = Ok tt w tr /\ Forall is_update tr /\
             answers tr = (if window_alive (askWindow w)
                           then [currentResponse (state w)] else []).
Proof.
  unfold _broadcastState. destruct (window_alive (askWindow w)).
  - eexists. split; [reflexivity|]. split; [|reflexivity].
    repeat constructor.
  - exists []. now repeat split.
Qed.

(** ** The line loop *)

Lemma process_line_step env line rest full w :
  process_lines env (line :: rest) full w =
  match line_action env line with
  | Append token =>
      let w1 := with_state (set_response (full ++ token)%string (state w)) w in
      prefix_trace (trace_of (_broadcastState w1))
        (process_lines env rest (full ++ token)%string w1)
  | Terminate => Ok (true, full) w []
  | Ignore => process_lines env rest full w
  end.
Proof.
  cbn [process_lines]. unfold line_action.
  destruct (Js.startsWith "data: " line); [|reflexivity].
  destruct (Js.substring_from 6 line =? "[DONE]")%string; [reflexivity|].
  destruct (JSON_parse env _) as [json|]; [|reflexivity].
  destruct (JsonAccess.delta_content json) as [content|]; [|reflexivity].
  destruct (JsonAccess.token_text content) as [token|]; [|reflexivity].
  cbn zeta. unfold bind at 1. cbn [get_state].
  unfold bind at 1. cbn [set_state prefix_trace app].
  unfold bind at 1.
  destruct (broadcast_run (with_state (set_response (full ++ token)%string (state w)) w))
    as (tr & -> & _). cbn [trace_of]. now rewrite !prefix_nil.
Qed.

Lemma same_but_answer_refl st : same_but_answer st st.
Proof. now destruct st. Qed.

Lemma same_but_answer_set full st st' :
  same_but_answer (set_response full st) st' -> same_but_answer st st'.
Proof. unfold same_but_answer. intros ->. now destruct st. Qed.

Lemma process_lines_run env lines : forall full w,
  exists w' tr,
    process_lines env lines full w = Ok (lines_text env lines full) w' tr /\
    same_service w w' /\ same_but_answer (state w) (state w') /\
    Forall is_update tr.
Proof.
  induction lines as [|line rest IH]; intros full w.
  - exists w, []. split; [reflexivity|].
    split; [apply same_service_refl|].
    split; [apply same_but_answer_refl|constructor].
  - rewrite process_line_step. cbn [lines_text].
    destruct (line_action env line) as [token| |].
    + cbn zeta. set (w1 := with_state _ w).
      destruct (IH (full ++ token)%string w1) as (w' & tr & -> & Hs & Ha & Hu).
      destruct (broadcast_run w1) as (tr1 & -> & Hu1 & _).
      exists w', (tr1 ++ tr). split; [reflexivity|].
      split; [exact Hs|].
      split; [exact (same_but_answer_set _ _ _ Ha)|now apply Forall_app].
    + exists w, []. split; [reflexivity|].
      split; [apply same_service_refl|].
      split; [apply same_but_answer_refl|constructor].
    + apply IH.
Qed.

(** ** The read loop and the cleanup *)

Lemma read_loop_run env sid sig reads : forall full w,
  exists w' tr,
    same_service w w' /\ same_but_answer (state w) (state w') /\
    Forall is_update tr /\
    read_loop env reads sid sig full w =
    match reads_text env reads full with
    | (Some how, text) => Ok (how, text) w' tr
    | (None, text) => Pending (mkPending text sid sig) w' tr
    end.
Proof.
  induction reads as [|r reads IH]; intros full w.
  - exists w, []. split; [apply same_service_refl|].
    split; [apply same_but_answer_refl|]. split; [constructor|reflexivity].
  - destruct r as [chunk| |e].
    + cbn [read_loop reads_text].
      destruct (process_lines_run env (chunk_lines chunk) full w)
        as (w1 & tr1 & Hrun & Hs1 & Ha1 & Hu1).
      rewrite (bind_run _ _ _ _ _ _ Hrun).
      destruct (lines_text env (chunk_lines chunk) full) as [[|] text];
        cbn [fst snd].
      * exists w1, tr1. split; [exact Hs1|]. split; [exact Ha1|].
        split; [exact Hu1|]. cbn. now rewrite app_nil_r.
      * destruct (IH text w1) as (w' & tr & Hs & Ha & Hu & ->).
        exists w', (tr1 ++ tr).
        split; [exact (same_service_trans _ _ _ Hs1 Hs)|].
        split.
        { unfold same_but_answer in *. rewrite Ha at 1. rewrite Ha1.
          now destruct (state w). }
        split; [now apply Forall_app|].
        now destruct (reads_text env reads text) as [[how|] text'].
    + exists w, []. split; [apply same_service_refl|].
      split; [apply same_but_answer_refl|]. split; [constructor|reflexivity].
    + exists w, []. split; [apply same_service_refl|].
      split; [apply same_but_answer_refl|]. split; [constructor|reflexivity].
Qed.

Lemma finish_stream_run how text sid sig w :
  exists tr,
    finish_stream how text sid sig w
    = Ok tt (with_state (finalized text (state w)) w) tr /\
    persisted tr = (if Js.truthy text then [(sid, text)] else []) /\
    stream_calls tr = [] /\
    aborts tr = [] /\
    answers tr = (if window_alive (askWindow w) then [text] else []).
Proof.
  unfold finish_stream.
  assert (Hcatch : exists tr0,
    (match how with
     | ByError e =>
         w0 <- get_world ;;
         if signal_aborted sig w0 then ret tt
         else if window_alive (askWindow w0)
              then emit (StreamErrorSent (message e)) else ret tt
     | _ => ret tt
     end) w = Ok tt w tr0 /\ persisted tr0 = [] /\ stream_calls tr0 = [] /\
    aborts tr0 = [] /\ answers tr0 = []).
  { destruct how as [| |e]; try (exists []; now repeat split).
    unfold bind, get_world.
    destruct (signal_aborted sig w); [exists []; now repeat split|].
    destruct (window_alive (askWindow w)); [|exists []; now repeat split].
    eexists. cbn. now repeat split. }
  destruct Hcatch as (tr0 & Hc & Hp0 & Hs0 & Hi0 & Ha0).
  rewrite (bind_run _ _ _ _ _ _ Hc).
  unfold bind at 1. cbn [get_state prefix_trace app].
  unfold bind at 1. cbn [set_state prefix_trace app].
  fold (finalized text (state w)).
  set (w1 := with_state (finalized text (state w)) w).
  unfold bind. unfold _broadcastState. change (askWindow w1) with (askWindow w).
  change (state w1) with (finalized text (state w)).
  destruct (window_alive (askWindow w)); destruct (Js.truthy text);
    cbn; eexists; (split; [reflexivity|]);
    rewrite ?persisted_app, ?stream_calls_app, ?answers_app, ?aborts_app,
      ?Hp0, ?Hs0, ?Ha0, ?Hi0;
    cbn; repeat split.
Qed.

Lemma stream_from_run env reads sid sig full w :
  exists w1 tr1,
    same_service w w1 /\ same_but_answer (state w) (state w1) /\
    Forall is_update tr1 /\
    match reads_text env reads full with
    | (Some how, text) =>
        exists tr2,
          stream_from env reads sid sig full w
          = Ok tt (with_state (finalized text (state w1)) w1) (tr1 ++ tr2) /\
          persisted tr2 = (if Js.truthy text then [(sid, text)] else []) /\
          stream_calls tr2 = [] /\ aborts tr2 = [] /\
          answers tr2 = (if window_alive (askWindow w) then [text] else [])
    | (None, text) =>
        stream_from env reads sid sig full w
        = Pending (mkPending text sid sig) w1 tr1
    end.
Proof.
  destruct (read_loop_run env sid sig reads full w)
    as (w1 & tr1 & Hs & Ha & Hu & Hrun).
  exists w1, tr1. split; [exact Hs|]. split; [exact Ha|]. split; [exact Hu|].
  unfold stream_from.
  destruct (reads_text env reads full) as [[how|] text].
  - destruct (finish_stream_run how text sid sig w1)
      as (tr2 & Hfin & Hp & Hc & Hab & Han).
    exists tr2. rewrite (bind_run _ _ _ _ _ _ Hrun). cbn [fst snd].
    rewrite Hfin. cbn [prefix_trace].
    destruct Hs as (_ & _ & _ & _ & _ & Hwin). rewrite <- Hwin.
    now repeat split.
  - unfold bind. now rewrite Hrun.
Qed.

Lemma stream_from_exit env sid sig reads full w how text :
  reads_text env reads full = (Some how, text) ->
  exists w' tr,
    stream_from env reads sid sig full w = Ok tt w' tr /\
    isStreaming (state w') = false /\
    currentResponse (state w') = text /\
    persisted tr = (if Js.truthy text then [(sid, text)] else []).
Proof.
  intros Hexit.
  destruct (stream_from_run env reads sid sig full w)
    as (w1 & tr1 & _ & _ & Hu & Hrun).
  rewrite Hexit in Hrun. destruct Hrun as (tr2 & Hrun & Hp & _).
  eexists. eexists. split; [exact Hrun|]. split; [reflexivity|].
  split; [reflexivity|].
  rewrite persisted_app, Hp.
  now destruct (updates_only tr1 Hu) as (_ & -> & _).
Qed.

Lemma processStream_unfold env reads sid sig w :
  _processStream env reads sid sig w =
  let w1 := with_state (streaming_state (state w)) w in
  prefix_trace (trace_of (_broadcastState w1))
    (stream_from env reads sid sig "" w1).
Proof.
  unfold _processStream.
  unfold bind at 1. cbn [get_state prefix_trace app].
  unfold bind at 1. cbn [set_state prefix_trace app].
  fold (streaming_state (state w)). cbn zeta.
  set (w1 := with_state (streaming_state (state w)) w).
  unfold bind at 1. destruct (broadcast_run w1) as (tr & -> & _).
  cbn [trace_of]. now rewrite !prefix_nil.
Qed.

(** C7. However the read loop of [_processStream] is left (by the
    terminator, by a read reporting done, as after a cancellation, or
    by a read that throws), the call returns normally with the
    streaming flag reset and the accumulated text as the answer, and
    that text is persisted as the assistant's message exactly when it
    is not empty. *)
Theorem stream_exit_persists_answer env sid sig reads w how text :
  reads_text env reads "" = (Some how, text) ->
  exists w' tr,
    _processStream env reads sid sig w = Ok tt w' tr /\
    isStreaming (state w') = false /\
    currentResponse (state w') = text /\
    persisted tr = (if Js.truthy text then [(sid, text)] else []).
Proof.
  intros Hexit.
  rewrite processStream_unfold. cbn zeta.
  set (w1 := with_state (streaming_state (state w)) w).
  destruct (stream_from_exit env sid sig reads "" w1 how text Hexit)
    as (w' & tr & -> & Hs & Ht & Hp).
  destruct (broadcast_run w1) as (tr0 & -> & Hu & _).
  destruct (updates_only tr0 Hu) as (_ & Hp0 & _).
  exists w', (tr0 ++ tr). cbn [trace_of prefix_trace].
  split; [reflexivity|]. split; [exact Hs|]. split; [exact Ht|].
  now rewrite persisted_app, Hp0.
Qed.

(** A suspended [_processStream] that is resumed and then left persists
    what it has accumulated, under the session it was started with. *)
Lemma resumed_stream_exit_persists env p reads w how text :
  reads_text env reads (p_fullResponse p) = (Some how, text) ->
  exists w' tr,
    resume_stream env p reads w = Ok tt w' tr /\
    isStreaming (state w') = false /\
    currentResponse (state w') = text /\
    persisted tr = (if Js.truthy text then [(p_sessionId p, text)] else []).
Proof. apply stream_from_exit. Qed.

(** ** Toggle *)

(** C8. While the request state is loading or streaming,
    [toggleAskButton] (and so the nextStep shortcut) returns at once:
    the service, its controller and every field of the request state
    are what they were, and nothing is emitted, so no request is
    created and none is aborted. *)
Theorem toggle_dropped_while_busy env inputScreenOnly w :
  isLoading (state w) || isStreaming (state w) = true ->
  toggleAskButton env inputScreenOnly w = Ok tt w [] /\
  nextStep_callback env w = Ok tt w [].
Proof.
  intros Hbusy. unfold nextStep_callback, toggleAskButton, bind.
  cbn [get_state]. rewrite Hbusy. now split.
Qed.

(** ** Malformed frames *)

Lemma malformed_ignored env line :
  malformed env line -> line_action env line = Ignore.
Proof.
  intros (data & -> & Hnot & Hparse). unfold line_action.
  change (Js.startsWith "data: " ("data: " ++ data)%string)
    with (String.prefix "" data).
  change (Js.substring_from 6 ("data: " ++ data)%string) with data.
  replace (String.prefix "" data) with true by now destruct data.
  apply String.eqb_neq in Hnot. now rewrite Hnot, Hparse.
Qed.

Lemma process_lines_skip env line before : forall after full w,
  line_action env line = Ignore ->
  process_lines env (before ++ line :: after) full w
  = process_lines env (before ++ after) full w.
Proof.
  induction before as [|l before IH]; intros after full w Hign.
  - cbn [app]. now rewrite process_line_step, Hign.
  - cbn [app]. rewrite !process_line_step.
    destruct (line_action env l); try reflexivity.
    + cbn zeta. now rewrite IH.
    + now apply IH.
Qed.

Lemma split_nonempty sep s : Js.split sep s <> [].
Proof.
  destruct s as [|c s]; cbn; [discriminate|].
  destruct (Ascii.eqb c sep); [discriminate|].
  destruct (Js.split sep s); discriminate.
Qed.

Lemma split_app sep a b :
  Js.split sep (a ++ String sep b)%string = Js.split sep a ++ Js.split sep b.
Proof.
  induction a as [|c a IH]; cbn.
  - now rewrite Ascii.eqb_refl.
  - destruct (Ascii.eqb c sep); [now rewrite IH|].
    rewrite IH. destruct (Js.split sep a) eqn:E; [|reflexivity].
    now destruct (split_nonempty sep a).
Qed.

Lemma split_single sep s :
  Js.includes (String sep EmptyString) s = false -> Js.split sep s = [s].
Proof.
  induction s as [|c s IH]; [reflexivity|].
  cbn [Js.includes String.prefix]. intros H.
  apply orb_false_iff in H as [Hc Hs]. cbn [Js.split].
  destruct (Ascii.eqb_spec c sep) as [->|Hne].
  - destruct (ascii_dec sep sep); [|congruence]. now destruct s.
  - now rewrite (IH Hs).
Qed.

Lemma chunk_lines_app a b :
  chunk_lines (a ++ Js.nl ++ b)%string = chunk_lines a ++ chunk_lines b.
Proof.
  unfold chunk_lines, Js.nl. cbn [String.append].
  now rewrite split_app, filter_app.
Qed.

Lemma trimEnd_nonblank c s : Js.is_white c = false -> Js.trimEnd (String c s) <> "".
Proof.
  intros H. cbn [Js.trimEnd]. destruct (Js.trimEnd s); [now rewrite H|discriminate].
Qed.

Lemma chunk_lines_frame data :
  Js.includes Js.nl data = false ->
  chunk_lines ("data: " ++ data)%string = [("data: " ++ data)%string].
Proof.
  intros H. unfold chunk_lines. rewrite split_single.
  - cbn [filter]. 
    assert (Hne : Js.trim ("data: " ++ data)%string <> "")
      by (apply trimEnd_nonblank; reflexivity).
    apply String.eqb_neq in Hne. now rewrite Hne.
  - exact H.
Qed.

Lemma bind_ext {A B} (m : M A) (k1 k2 : A -> M B) w :
  (forall a w1, k1 a w1 = k2 a w1) -> bind m k1 w = bind m k2 w.
Proof. intros H. unfold bind. destruct (m w); now rewrite ?H. Qed.

Lemma read_loop_chunk env sid sig chunk reads full w :
  read_loop env (Chunk chunk :: reads) sid sig full w =
  (r <- process_lines env (chunk_lines chunk) full ;;
   if fst r then ret (BySentinel, snd r)
   else read_loop env reads sid sig (snd r)) w.
Proof. reflexivity. Qed.

Lemma read_loop_frame_removed env sid sig line c1 c2 before : forall after full w,
  malformed env line -> Js.includes Js.nl line = false ->
  read_loop env
    (before ++ Chunk (c1 ++ Js.nl ++ line ++ Js.nl ++ c2)%string :: after)
    sid sig full w
  = read_loop env (before ++ Chunk (c1 ++ Js.nl ++ c2)%string :: after)
      sid sig full w.
Proof.
  intros after full w Hbad Hnl. revert full w.
  induction before as [|r before IH]; intros full w.
  - cbn [app]. rewrite !read_loop_chunk.
    rewrite !chunk_lines_app.
    destruct Hbad as (data & -> & Hbad).
    rewrite chunk_lines_frame by exact Hnl.
    assert (Hign : line_action env ("data: " ++ data)%string = Ignore)
      by (apply malformed_ignored; now exists data).
    unfold bind. cbn [app]. now rewrite process_lines_skip.
  - cbn [app]. destruct r as [chunk| |e]; try reflexivity.
    rewrite !read_loop_chunk. apply bind_ext. intros [t text] w1.
    cbn [fst snd]. destruct t; [reflexivity|apply IH].
Qed.

(** C9. A frame whose payload does not parse is skipped: among the
    lines of a chunk it changes neither the accumulated text, the
    service nor the trace, and the lines after it are processed as if
    it were absent; a stream that carries the frame on a line of its
    own runs exactly as the stream without that line. *)
Theorem malformed_frame_skipped env line :
  malformed env line ->
  (forall before after full w,
     process_lines env (before ++ line :: after) full w
     = process_lines env (before ++ after) full w) /\
  (Js.includes Js.nl line = false ->
   forall c1 c2 before after sid sig w,
     _processStream env
       (before ++ Chunk (c1 ++ Js.nl ++ line ++ Js.nl ++ c2)%string :: after)
       sid sig w
     = _processStream env
         (before ++ Chunk (c1 ++ Js.nl ++ c2)%string :: after) sid sig w).
Proof.
  intros Hbad. split.
  - intros before after full w. apply process_lines_skip.
    now apply malformed_ignored.
  - intros Hnl c1 c2 before after sid sig w.
    unfold _processStream. apply bind_ext. intros st w1.
    apply bind_ext. intros [] w2. apply bind_ext. intros [] w3.
    unfold stream_from, bind.
    now rewrite read_loop_frame_removed.
Qed.

(** ** Quiet computations *)

Lemma quiet_ret {A} (a : A) : quiet (ret a).
Proof. intros w. now repeat split. Qed.

Lemma quiet_throw {A} e : quiet (@throw A e).
Proof. intros w. now repeat split. Qed.

Lemma quiet_await {A} (r : Res A) : quiet (await r).
Proof. destruct r; [apply quiet_ret|apply quiet_throw]. Qed.

Lemma quiet_get_world : quiet get_world.
Proof. intros w. now repeat split. Qed.

Lemma quiet_bind {A B} (m : M A) (k : A -> M B) :
  quiet m -> (forall a, quiet (k a)) -> quiet (bind m k).
Proof.
  intros Hm Hk w. specialize (Hm w). unfold bind.
  destruct (m w) as [a w1 tr1|e w1 tr1|p w1 tr1]; cbn in Hm; try exact Hm.
  specialize (Hk a w1). rewrite trace_prefix, world_prefix.
  rewrite answers_app, stream_calls_app, persisted_app, aborts_app.
  destruct Hm as (E1 & E2 & E3 & E4 & E5 & E6 & -> & -> & -> & ->).
  destruct Hk as (F1 & F2 & F3 & F4 & F5 & F6 & -> & -> & -> & ->).
  repeat split; congruence.
Qed.

Lemma quiet_emit e :
  answers [e] = [] -> stream_calls [e] = [] -> persisted [e] = [] ->
  aborts [e] = [] -> quiet (emit e).
Proof. intros H1 H2 H3 H4 w. now repeat split. Qed.

Lemma prepare_quiet env prompt hist : quiet (prepare env prompt hist).
Proof.
  unfold prepare.
  apply quiet_bind; [now apply quiet_emit|intros _].
  apply quiet_bind; [apply quiet_await|intros sid].
  apply quiet_bind; [now apply quiet_emit|intros _].
  apply quiet_bind; [apply quiet_await|intros _].
  apply quiet_bind; [now apply quiet_emit|intros _].
  apply quiet_bind; [apply quiet_await|intros [info|]]; [|apply quiet_throw].
  destruct (negb _); [apply quiet_throw|].
  apply quiet_bind; [intros w; now repeat split|intros queued].
  apply quiet_bind.
  - destruct queued.
    + apply quiet_bind; [intros w; now repeat split|intros q; apply quiet_ret].
    + apply quiet_bind; [now apply quiet_emit|intros _].
      destruct (captureScreenshot env); apply quiet_ret.
  - intros shots. apply quiet_bind; [apply quiet_await|intros _; apply quiet_ret].
Qed.

Ltac peel H :=
  let a := fresh "a" in let w1 := fresh "w" in
  let t1 := fresh "t" in let t2 := fresh "t" in
  let Hm := fresh "Hm" in
  apply bind_ok in H; destruct H as (a & w1 & t1 & t2 & Hm & H & ->).

Lemma prepare_shape env prompt hist w p w' tr :
  prepare env prompt hist w = Ok p w' tr ->
  (exists profile,
     systemPrompt p
     = GetSystemPrompt profile (_formatConversationForPrompt hist) false) /\
  messages p = [SystemMessage (systemPrompt p);
                UserParts (TextPart ("User Request: " ++ userText p)%string
                           :: image_parts (screenshotsToAnalyze p))].
Proof.
  unfold prepare. intros H. do 6 peel H.
  match type of H with
  | match ?x with _ => _ end _ = _ => destruct x as [info|]; [|discriminate]
  end.
  destruct (negb (Js.truthy (apiKey info))); [discriminate|].
  do 3 peel H. injection H as <- _ _.
  cbn [systemPrompt messages userText screenshotsToAnalyze].
  split; [|reflexivity].
  match goal with |- context [if ?b then _ else _] => destruct b end; eauto.
Qed.

Lemma image_parts_count shots :
  List.length (filter is_image (image_parts shots)) <= List.length shots.
Proof.
  induction shots as [|s shots IH]; cbn; [lia|].
  destruct (base64 s) as [b|]; [|lia].
  destruct (Js.truthy b); cbn; lia.
Qed.

Lemma prologue_run prompt w :
  exists w1,
    sendMessage_prologue prompt w = Ok (controllers w) w1 (prologue_trace prompt w) /\
    state w1 = loading_state prompt (state w) /\
    askWindow w1 = askWindow w /\
    abortController w1 = Some (controllers w).
Proof.
  unfold sendMessage_prologue, prologue_trace.
  unfold bind at 1. cbn [emit prefix_trace].
  unfold bind at 1. cbn [get_state prefix_trace app].
  unfold bind at 1. cbn [set_state prefix_trace app].
  fold (loading_state prompt (state w)).
  set (w0 := with_state (loading_state prompt (state w)) w).
  unfold bind at 1. unfold _broadcastState at 1.
  change (askWindow w0) with (askWindow w).
  change (state w0) with (loading_state prompt (state w)).
  destruct (window_alive (askWindow w)); cbn [prefix_trace app];
    unfold bind at 1; cbn [get_world prefix_trace app];
    change (abortController w0) with (abortController w);
    (destruct (abortController w) as [c|];
     [ unfold bind, abort_controller;
       change (aborted w0) with (aborted w);
       change (listeners w0) with (listeners w);
       destruct (existsb (Nat.eqb c) (aborted w));
       [|destruct (existsb (Nat.eqb c) (listeners w))]
     | unfold bind ]);
    cbn; eexists; repeat split.
Qed.

Lemma on_error_run e w :
  exists w' tr,
    on_error e w = Ok (Failure (message e)) w' tr /\
    state w' = failed_state (state w) /\
    stream_calls tr = [] /\ aborts tr = [] /\ persisted tr = [] /\
    answers tr = (if window_alive (askWindow w) then [cur w] else []).
Proof.
  unfold on_error, bind, get_state, set_state, _broadcastState, get_world.
  destruct (window_alive (askWindow w)) eqn:Hwin;
    do 3 (cbn; rewrite ?Hwin); eexists; eexists; repeat split.
Qed.

(** ** Opening the stream *)

Lemma stream_from_calls env reads sid sig full w :
  stream_calls (trace_of (stream_from env reads sid sig full w)) = [] /\
  aborts (trace_of (stream_from env reads sid sig full w)) = [] /\
  no_throw (stream_from env reads sid sig full w).
Proof.
  destruct (stream_from_run env reads sid sig full w)
    as (w1 & tr1 & _ & _ & Hu & Hrun).
  destruct (updates_only tr1 Hu) as (Hc & _ & Ha).
  destruct (reads_text env reads full) as [[how|] text].
  - destruct Hrun as (tr2 & -> & _ & Hc2 & Ha2 & _). cbn.
    rewrite stream_calls_app, aborts_app, Hc, Ha, Hc2, Ha2. now repeat split.
  - rewrite Hrun. cbn. now repeat split.
Qed.

Lemma processStream_calls env reads sid sig w :
  stream_calls (trace_of (_processStream env reads sid sig w)) = [] /\
  aborts (trace_of (_processStream env reads sid sig w)) = [] /\
  no_throw (_processStream env reads sid sig w).
Proof.
  rewrite processStream_unfold. cbn zeta.
  set (w1 := with_state _ w).
  destruct (stream_from_calls env reads sid sig "" w1) as (Hc & Ha & Hn).
  destruct (broadcast_run w1) as (tr & -> & Hu & _).
  destruct (updates_only tr Hu) as (Hc0 & _ & Ha0).
  rewrite trace_prefix, stream_calls_app, aborts_app. cbn [trace_of].
  rewrite Hc, Ha, Hc0, Ha0. repeat split.
  now destruct (stream_from env reads sid sig "" w1).
Qed.

Lemma open_rejected env call payload sid sig e w :
  streamChat env call payload = Rejected e ->
  open_and_stream env call payload sid sig w = Throw e w [StreamChat payload].
Proof. intros H. unfold open_and_stream, bind. now rewrite H. Qed.

Lemma open_resolved_eq env call payload sid sig reader w :
  streamChat env call payload = Resolved reader ->
  open_and_stream env call payload sid sig w =
  if window_alive (askWindow w)
  then prefix_trace [StreamChat payload]
         ((_processStream env reader sid sig ;;; ret Success) (listening sig w))
  else Ok (Failure (Some "Ask window is not available.")) w
          [StreamChat payload; ResponseCancelled].
Proof.
  intros H. unfold open_and_stream.
  unfold bind at 1. cbn [emit].
  unfold bind at 1. rewrite H. cbn [await ret prefix_trace app].
  rewrite prefix_nil. unfold bind at 1. cbn [get_world].
  rewrite prefix_nil.
  destruct (window_alive (askWindow w)); cbn [negb].
  - unfold bind at 1. cbn [add_abort_listener]. now rewrite prefix_nil.
  - reflexivity.
Qed.

Lemma open_resolved env call payload sid sig reader w :
  streamChat env call payload = Resolved reader ->
  exists s,
    open_and_stream env call payload sid sig w
    = prefix_trace [StreamChat payload] s /\
    stream_calls (trace_of s) = [] /\ aborts (trace_of s) = [] /\
    no_throw s.
Proof.
  intros H. rewrite (open_resolved_eq _ _ _ _ _ _ _ H).
  destruct (window_alive (askWindow w)).
  - destruct (processStream_calls env reader sid sig (listening sig w))
      as (Hc & Ha & Hn).
    unfold bind. eexists. split; [reflexivity|].
    destruct (_processStream env reader sid sig (listening sig w)); cbn in *;
      rewrite ?app_nil_r; now repeat split.
  - exists (Ok (Failure (Some "Ask window is not available.")) w
              [ResponseCancelled]).
    now repeat split.
Qed.

Lemma try_catch_throws {A} (m : M A) h w e w1 tr1 :
  m w = Throw e w1 tr1 -> try_catch m h w = prefix_trace tr1 (h e w1).
Proof. unfold try_catch. now intros ->. Qed.

Lemma try_catch_pass {A} (m : M A) h w :
  no_throw (m w) -> try_catch m h w = m w.
Proof. unfold try_catch. now destruct (m w). Qed.

Lemma no_throw_prefix {A} tr (s : Step A) : no_throw s -> no_throw (prefix_trace tr s).
Proof. now destruct s. Qed.

Lemma prologue_calls prompt w :
  stream_calls (prologue_trace prompt w) = [] /\
  persisted (prologue_trace prompt w) = [].
Proof.
  unfold prologue_trace.
  destruct (window_alive (askWindow w)); destruct (abortController w) as [c|];
    try destruct (existsb (Nat.eqb c) (aborted w));
    try destruct (existsb (Nat.eqb c) (listeners w)); now cbn.
Qed.

Lemma images_need_screenshots env prompt hist w p w' tr :
  prepare env prompt hist w = Ok p w' tr ->
  1 <= image_count (messages p) ->
  (0 <? List.length (screenshotsToAnalyze p)) = true.
Proof.
  intros Hprep Himg.
  destruct (prepare_shape _ _ _ _ _ _ _ Hprep) as (_ & Hmsg).
  rewrite Hmsg in Himg. cbn in Himg.
  pose proof (image_parts_count (screenshotsToAnalyze p)).
  apply Nat.ltb_lt. lia.
Qed.

Lemma text_only_same_request env prompt hist w p w' tr :
  prepare env prompt hist w = Ok p w' tr ->
  image_count (text_only p) = 0 /\
  payload_texts (text_only p) = payload_texts (messages p) /\
  payload_system (text_only p) = payload_system (messages p).
Proof.
  intros Hprep.
  destruct (prepare_shape _ _ _ _ _ _ _ Hprep) as (_ & ->).
  unfold text_only. cbn [image_count payload_texts payload_system flat_map app].
  repeat split. f_equal.
  induction (screenshotsToAnalyze p) as [|s shots IH]; [reflexivity|].
  cbn [image_parts]. destruct (base64 s) as [b|]; [|exact IH].
  destruct (Js.truthy b); [|exact IH]. exact IH.
Qed.

(** The run of [sendMessage] once the provider is about to be called. *)
Lemma sendMessage_from_prepared env prompt hist w signal w1 tr1 p w2 tr2 :
  sendMessage_prologue prompt w = Ok signal w1 tr1 ->
  prepare env prompt hist w1 = Ok p w2 tr2 ->
  sendMessage env prompt hist w
  = prefix_trace (tr1 ++ tr2)
      (try_catch (stream_with_fallback env p signal) on_error w2)
  /\ stream_calls (tr1 ++ tr2) = [].
Proof.
  intros Hpro Hprep. split.
  - unfold sendMessage. rewrite (bind_run _ _ _ _ _ _ Hpro).
    rewrite <- prefix_prefix. f_equal.
    unfold sendMessage_body, try_catch.
    rewrite (bind_run _ _ _ _ _ _ Hprep).
    destruct (stream_with_fallback env p signal w2) as [r w3 tr3|e w3 tr3|q w3 tr3];
      cbn [prefix_trace]; try reflexivity.
    now rewrite prefix_prefix.
  - destruct (prologue_run prompt w) as (w1' & Hrun & _).
    rewrite Hrun in Hpro. injection Hpro as _ _ <-.
    rewrite stream_calls_app.
    destruct (prologue_calls prompt w) as (-> & _).
    pose proof (prepare_quiet env prompt hist w1) as Hq.
    rewrite Hprep in Hq. cbn in Hq. now destruct Hq as (_&_&_&_&_&_&_&->&_).
Qed.

(** C1. When the first provider call of a submission is rejected:
    if the payload carries at least one image and the error is
    classified as a multimodal rejection, the provider is called
    exactly once more, with a payload that has no image and the same
    request text and system prompt, and a rejection of that second call
    ends the submission with that error and the failed state; if the
    error is not classified so, there is no second call and the
    submission ends with the error and the failed state. *)
Theorem fallback_retries_once env prompt hist w signal w1 tr1 p w2 tr2 e :
  sendMessage_prologue prompt w = Ok signal w1 tr1 ->
  prepare env prompt hist w1 = Ok p w2 tr2 ->
  streamChat env 0 (messages p) = Rejected e ->
  let run := sendMessage env prompt hist w in
  (1 <= image_count (messages p) -> _isMultimodalError e = true ->
   stream_calls (trace_of run) = [messages p; text_only p] /\
   image_count (text_only p) = 0 /\
   payload_texts (text_only p) = payload_texts (messages p) /\
   payload_system (text_only p) = payload_system (messages p) /\
   (forall e', streamChat env 1 (text_only p) = Rejected e' ->
      exists w' tr,
        run = Ok (Failure (message e')) w' tr /\
        state w' = failed_state (state w2))) /\
  (_isMultimodalError e = false ->
   stream_calls (trace_of run) = [messages p] /\
   exists w' tr,
     run = Ok (Failure (message e)) w' tr /\
     state w' = failed_state (state w2)).
Proof.
  intros Hpro Hprep Hfail run.
  destruct (sendMessage_from_prepared _ _ _ _ _ _ _ _ _ _ Hpro Hprep)
    as (Hrun & Hquiet).
  assert (Hfirst : open_and_stream env 0 (messages p) (sessionId p) signal w2
                   = Throw e w2 [StreamChat (messages p)])
    by now apply open_rejected.
  split.
  - intros Himg Hmm.
    pose proof (images_need_screenshots _ _ _ _ _ _ _ Hprep Himg) as Hshots.
    assert (Hswf : stream_with_fallback env p signal w2
                   = prefix_trace [StreamChat (messages p)]
                       (open_and_stream env 1 (text_only p) (sessionId p) signal w2)).
    { unfold stream_with_fallback.
      rewrite (try_catch_throws _ _ _ _ _ _ Hfirst). now rewrite Hshots, Hmm. }
    destruct (text_only_same_request _ _ _ _ _ _ _ Hprep) as (Hi & Ht & Hs).
    split; [|split; [exact Hi|split; [exact Ht|split; [exact Hs|]]]].
    + subst run. rewrite Hrun, trace_prefix, stream_calls_app, Hquiet.
      cbn [app]. unfold try_catch. rewrite Hswf.
      destruct (streamChat env 1 (text_only p)) as [reader|e'] eqn:Hsecond.
      * destruct (open_resolved env 1 (text_only p) (sessionId p) signal reader w2 Hsecond)
          as (s & -> & Hc & _ & Hn).
        rewrite prefix_prefix.
        destruct s as [r w3 tr3|e3 w3 tr3|q w3 tr3]; [| destruct Hn |];
          cbn in *; now rewrite Hc.
      * rewrite (open_rejected _ _ _ _ _ _ _ Hsecond). cbn [prefix_trace app].
        destruct (on_error_run e' w2) as (w' & tr & -> & _ & Hc & _).
        cbn. now rewrite Hc.
    + intros e' Hsecond. subst run. rewrite Hrun. unfold try_catch.
      rewrite Hswf, (open_rejected _ _ _ _ _ _ _ Hsecond).
      cbn [prefix_trace app].
      destruct (on_error_run e' w2) as (w' & tr & -> & Hst & _).
      cbn. eauto.
  - intros Hmm.
    assert (Hswf : stream_with_fallback env p signal w2
                   = Throw e w2 [StreamChat (messages p)]).
    { unfold stream_with_fallback.
      rewrite (try_catch_throws _ _ _ _ _ _ Hfirst).
      rewrite Hmm, andb_false_r. cbn. now rewrite ?app_nil_r. }
    subst run. rewrite Hrun. unfold try_catch. rewrite Hswf.
    destruct (on_error_run e w2) as (w' & tr & -> & Hst & Hc & _).
    cbn [prefix_trace trace_of]. split; [|eauto].
    rewrite stream_calls_app, Hquiet. cbn [app stream_calls]. now rewrite Hc.
Qed.

Lemma calm_bind {A B} (m : M A) (k : A -> M B) :
  calm m -> (forall a, calm (k a)) -> calm (bind m k).
Proof.
  intros Hm Hk w. specialize (Hm w). unfold bind.
  destruct (m w) as [a w1 tr1| |]; try exact Hm.
  rewrite trace_prefix, aborts_app. cbn in Hm. now rewrite Hm, (Hk a w1).
Qed.

Lemma calm_try_catch {A} (m : M A) h :
  calm m -> (forall e, calm (h e)) -> calm (try_catch m h).
Proof.
  intros Hm Hh w. specialize (Hm w). unfold try_catch.
  destruct (m w) as [|e w1 tr1|]; try exact Hm.
  rewrite trace_prefix, aborts_app. cbn in Hm. now rewrite Hm, (Hh e w1).
Qed.

Lemma calm_quiet {A} (m : M A) : quiet m -> calm m.
Proof. intros H w. apply H. Qed.

Lemma calm_open env call payload sid sig :
  calm (open_and_stream env call payload sid sig).
Proof.
  unfold open_and_stream.
  apply calm_bind; [now intros w|intros _].
  apply calm_bind; [apply calm_quiet, quiet_await|intros reader].
  apply calm_bind; [now intros w|intros w0].
  destruct (negb _).
  - apply calm_bind; now intros w.
  - apply calm_bind; [now intros w|intros _].
    apply calm_bind; [|now intros w].
    intros w. apply processStream_calls.
Qed.

Lemma calm_body env prompt hist signal :
  calm (sendMessage_body env prompt hist signal).
Proof.
  unfold sendMessage_body. apply calm_try_catch.
  - apply calm_bind; [apply calm_quiet, prepare_quiet|intros p].
    unfold stream_with_fallback. apply calm_try_catch; [apply calm_open|].
    intros e. destruct (_ && _); [apply calm_open|now intros w].
  - intros e w. destruct (on_error_run e w) as (w' & tr & -> & _ & _ & Ha & _).
    exact Ha.
Qed.

(** C2, as the code orders it. When a controller of a previous request
    exists and the ask window is alive, [sendMessage] first publishes
    the new loading state and aborts the previous controller directly
    after it, nothing being published in between; no other abort
    follows, and the abort does not come before the publication. *)
Theorem loading_published_then_previous_aborted env prompt hist w c :
  abortController w = Some c ->
  window_alive (askWindow w) = true ->
  exists rest,
    trace_of (sendMessage env prompt hist w)
    = RequestVisibility true
      :: StateUpdate (loading_state prompt (state w))
      :: AbortCall c "New request received." :: rest /\
    isLoading (loading_state prompt (state w)) = true /\
    aborts rest = [] /\
    aborts_before_publishing (trace_of (sendMessage env prompt hist w)) = false.
Proof.
  intros Hc Hwin.
  destruct (prologue_run prompt w) as (w1 & Hrun & _).
  unfold sendMessage. rewrite (bind_run _ _ _ _ _ _ Hrun), trace_prefix.
  unfold prologue_trace. rewrite Hc, Hwin. cbn [app].
  eexists. split; [reflexivity|]. split; [reflexivity|]. split; [|reflexivity].
  rewrite aborts_app, calm_body, app_nil_r.
  destruct (existsb (Nat.eqb c) (aborted w)); [reflexivity|].
  now destruct (existsb (Nat.eqb c) (listeners w)).
Qed.

Lemma loading_published_then_previous_aborted_witness :
  exists rest,
    trace_of (sendMessage envB "q2" (Some []) (world_of first_run))
    = RequestVisibility true
      :: StateUpdate (loading_state "q2" (state (world_of first_run)))
      :: AbortCall 0 "New request received." :: rest /\
    isLoading (loading_state "q2" (state (world_of first_run))) = true /\
    aborts rest = [] /\
    aborts_before_publishing
      (trace_of (sendMessage envB "q2" (Some []) (world_of first_run))) = false.
Proof.
  apply (loading_published_then_previous_aborted envB "q2" (Some [])
           (world_of first_run) 0); reflexivity.
Defined.

Lemma previous_stream_not_aborted_first :
  isStreaming (state (world_of first_run)) = true /\
  abortController (world_of first_run) = Some 0 /\
  aborts_before_publishing
    (trace_of (sendMessage envB "q2" (Some []) (world_of first_run))) = false.
Proof. vm_compute. repeat split. Qed.

(** ** Growth of the answer during a submission that runs alone *)

Lemma extends_refl a : extends a a.
Proof. exists "". induction a; cbn; congruence. Qed.

Lemma append_assoc (a b c : string) : ((a ++ b) ++ c = a ++ (b ++ c))%string.
Proof. induction a; cbn; congruence. Qed.

Lemma extends_trans a b c : extends a b -> extends b c -> extends a c.
Proof.
  intros [m1 ->] [m2 ->]. exists (m1 ++ m2)%string. apply append_assoc.
Qed.

Lemma extends_append a t : extends a (a ++ t)%string.
Proof. now exists t. Qed.

Lemma chain_weaken a b l : extends a b -> chain_from b l -> chain_from a l.
Proof.
  destruct l as [|x l]; [easy|]. cbn. intros Hab [Hbx Hl].
  split; [exact (extends_trans _ _ _ Hab Hbx)|exact Hl].
Qed.

Lemma chain_app a l1 b l2 :
  chain_from a (l1 ++ [b]) -> chain_from b l2 -> chain_from a (l1 ++ l2).
Proof.
  revert a. induction l1 as [|x l1 IH]; intros a; cbn.
  - intros [Hab _] H2. exact (chain_weaken _ _ _ Hab H2).
  - intros [Hax H1] H2. split; [exact Hax|now apply IH].
Qed.

Lemma chain_last a l b : chain_from a (l ++ [b]) -> extends a b.
Proof.
  revert a. induction l as [|x l IH]; intros a; cbn.
  - now intros [H _].
  - intros [Hax H]. exact (extends_trans _ _ _ Hax (IH _ H)).
Qed.

Lemma chain_prefix a l : chain_from a l -> prefix_chain l.
Proof. destruct l as [|x l]; [easy|]. now intros [_ H]. Qed.

Lemma chain_drop_last a l b : chain_from a (l ++ [b]) -> chain_from a l.
Proof.
  revert a. induction l as [|x l IH]; intros a; cbn; [easy|].
  intros [Hax H]. split; [exact Hax|now apply IH].
Qed.

Lemma process_lines_grows env lines : forall full w,
  extends (cur w) full ->
  let s := process_lines env lines full w in
  chain_from (cur w) (answers (trace_of s) ++ [cur (world_of s)]) /\
  extends (cur (world_of s)) (snd (lines_text env lines full)).
Proof.
  induction lines as [|line rest IH]; intros full w Hext; cbn zeta.
  - cbn. split; [split; [apply extends_refl|exact I]|exact Hext].
  - rewrite process_line_step. cbn [lines_text].
    destruct (line_action env line) as [token| |].
    + cbn zeta. set (w1 := with_state _ w).
      assert (Hcur : cur w1 = (full ++ token)%string) by reflexivity.
      destruct (IH (full ++ token)%string w1) as (Hch & Hex);
        [rewrite Hcur; apply extends_refl|].
      rewrite trace_prefix, world_prefix, answers_app.
      split; [|exact Hex].
      assert (Hstep : extends (cur w) (cur w1))
        by (rewrite Hcur; exact (extends_trans _ _ _ Hext (extends_append _ _))).
      destruct (broadcast_run w1) as (tr1 & Hb & _ & Hans).
      rewrite Hb. cbn [trace_of]. rewrite Hans.
      destruct (window_alive (askWindow w1)); cbn [app].
      * fold (cur w1). cbn [chain_from]. split; [exact Hstep|exact Hch].
      * exact (chain_weaken _ _ _ Hstep Hch).
    + cbn. split; [split; [apply extends_refl|exact I]|exact Hext].
    + now apply IH.
Qed.

Lemma read_loop_grows env sid sig reads : forall full w,
  extends (cur w) full ->
  let s := read_loop env reads sid sig full w in
  chain_from (cur w) (answers (trace_of s) ++ [cur (world_of s)]) /\
  extends (cur (world_of s)) (snd (reads_text env reads full)).
Proof.
  induction reads as [|r reads IH]; intros full w Hext; cbn zeta.
  - cbn. split; [split; [apply extends_refl|exact I]|exact Hext].
  - destruct r as [chunk| |e].
    + rewrite read_loop_chunk. cbn [reads_text].
      destruct (process_lines_grows env (chunk_lines chunk) full w Hext)
        as (Hch & Hex).
      destruct (process_lines_run env (chunk_lines chunk) full w)
        as (w1 & tr1 & Hrun & _).
      rewrite Hrun in Hch, Hex. cbn [trace_of world_of] in Hch, Hex.
      rewrite (bind_run _ _ _ _ _ _ Hrun).
      destruct (lines_text env (chunk_lines chunk) full) as [[|] text];
        cbn [fst snd] in *.
      * cbn. rewrite app_nil_r. now split.
      * destruct (IH text w1 Hex) as (Hch2 & Hex2).
        rewrite trace_prefix, world_prefix, answers_app, <- app_assoc.
        split; [exact (chain_app _ _ _ _ Hch Hch2)|exact Hex2].
    + cbn. split; [split; [apply extends_refl|exact I]|exact Hext].
    + cbn. split; [split; [apply extends_refl|exact I]|exact Hext].
Qed.

Lemma stream_from_grows env reads sid sig full w :
  extends (cur w) full ->
  let s := stream_from env reads sid sig full w in
  chain_from (cur w) (answers (trace_of s) ++ [cur (world_of s)]).
Proof.
  intros Hext. cbn zeta.
  destruct (read_loop_grows env sid sig reads full w Hext) as (Hch & Hex).
  destruct (read_loop_run env sid sig reads full w)
    as (w1 & tr1 & _ & _ & _ & Hrun).
  unfold stream_from.
  destruct (reads_text env reads full) as [[how|] text]; cbn [snd] in Hex.
  - rewrite Hrun in Hch, Hex. cbn [trace_of world_of] in Hch, Hex.
    rewrite (bind_run _ _ _ _ _ _ Hrun). cbn [fst snd].
    destruct (finish_stream_run how text sid sig w1)
      as (tr2 & -> & _ & _ & _ & Hans).
    cbn [prefix_trace trace_of world_of].
    rewrite answers_app, <- app_assoc. apply (chain_app _ _ _ _ Hch).
    rewrite Hans. unfold cur at 2. cbn [state with_state finalized currentResponse].
    destruct (window_alive (askWindow w1)); cbn;
      repeat split; try exact Hex; apply extends_refl.
  - unfold bind. rewrite Hrun in *. exact Hch.
Qed.

Lemma processStream_grows env reads sid sig w :
  cur w = "" ->
  let s := _processStream env reads sid sig w in
  chain_from "" (answers (trace_of s) ++ [cur (world_of s)]).
Proof.
  intros Hcur. cbn zeta. rewrite processStream_unfold. cbn zeta.
  set (w1 := with_state (streaming_state (state w)) w).
  assert (Hcur1 : cur w1 = "") by exact Hcur.
  pose proof (stream_from_grows env reads sid sig "" w1) as Hch.
  rewrite Hcur1 in Hch. specialize (Hch (extends_refl "")). cbn zeta in Hch.
  rewrite trace_prefix, world_prefix, answers_app, <- app_assoc.
  destruct (broadcast_run w1) as (tr & Hb & _ & Hans).
  rewrite Hb. cbn [trace_of]. rewrite Hans.
  destruct (window_alive (askWindow w1)); cbn [app]; [|exact Hch].
  fold (cur w1). rewrite Hcur1. split; [apply extends_refl|exact Hch].
Qed.

Lemma open_grows env call payload sid sig w :
  cur w = "" ->
  let s := open_and_stream env call payload sid sig w in
  chain_from "" (answers (trace_of s) ++ [cur (world_of s)]) /\
  (forall e w' tr, s = Throw e w' tr -> cur w' = "" /\ answers tr = []).
Proof.
  intros Hcur. cbn zeta.
  destruct (streamChat env call payload) as [reader|e] eqn:Hcall.
  - rewrite (open_resolved_eq _ _ _ _ _ _ _ Hcall).
    destruct (window_alive (askWindow w)).
    + assert (Hcur1 : cur (listening sig w) = "") by exact Hcur.
      pose proof (processStream_grows env reader sid sig _ Hcur1) as Hch.
      destruct (processStream_calls env reader sid sig (listening sig w))
        as (_ & _ & Hn).
      cbn zeta in Hch. unfold bind.
      destruct (_processStream env reader sid sig (listening sig w))
        as [[] w2 tr2| |q w2 tr2];
        [| destruct Hn |]; cbn in *; rewrite ?app_nil_r;
        (split; [exact Hch|discriminate]).
    + cbn. rewrite Hcur. split; [|discriminate].
      split; [apply extends_refl|exact I].
  - rewrite (open_rejected _ _ _ _ _ _ _ Hcall). cbn. rewrite Hcur. split.
    + split; [apply extends_refl|exact I].
    + intros e0 w' tr H. injection H as _ <- <-. now split.
Qed.

Lemma on_error_grows e w :
  cur w = "" ->
  chain_from "" (answers (trace_of (on_error e w)) ++ [cur (world_of (on_error e w))]).
Proof.
  intros Hcur. destruct (on_error_run e w) as (w' & tr & -> & Hst & _ & _ & _ & Hans).
  cbn [trace_of world_of]. rewrite Hans. unfold cur at 2. rewrite Hst.
  cbn [failed_state currentResponse]. fold (cur w). rewrite Hcur.
  destruct (window_alive (askWindow w)); cbn;
    repeat split; apply extends_refl.
Qed.

Lemma fallback_grows env p signal w :
  cur w = "" ->
  let s := stream_with_fallback env p signal w in
  chain_from "" (answers (trace_of s) ++ [cur (world_of s)]) /\
  (forall e w' tr, s = Throw e w' tr -> cur w' = "" /\ answers tr = []).
Proof.
  intros Hcur. cbn zeta. unfold stream_with_fallback, try_catch.
  destruct (open_grows env 0 (messages p) (sessionId p) signal w Hcur)
    as (Hch & Hthrow). cbn zeta in Hch, Hthrow.
  destruct (open_and_stream env 0 (messages p) (sessionId p) signal w)
    as [r w1 tr1|e w1 tr1|q w1 tr1].
  - split; [exact Hch|discriminate].
  - destruct (Hthrow e w1 tr1 eq_refl) as (Hcur1 & Hans1).
    destruct (_ && _).
    + destruct (open_grows env 1
                  [SystemMessage (systemPrompt p);
                   UserText ("User Request: " ++ userText p)%string]
                  (sessionId p) signal w1 Hcur1) as (Hch2 & Hthrow2).
      cbn zeta in Hch2, Hthrow2.
      rewrite trace_prefix, world_prefix, answers_app, Hans1. cbn [app].
      split; [exact Hch2|].
      intros e0 w' tr Heq.
      destruct (open_and_stream env 1 _ (sessionId p) signal w1)
        as [r w2 tr2|e2 w2 tr2|q w2 tr2]; try discriminate.
      cbn in Heq. injection Heq as _ <- <-.
      destruct (Hthrow2 e2 w2 tr2 eq_refl) as (Hc & Ha).
      split; [exact Hc|]. now rewrite answers_app, Hans1, Ha.
    + cbn. rewrite app_nil_r, Hans1, Hcur1. split.
      * split; [apply extends_refl|exact I].
      * intros e0 w' tr H. injection H as _ <- <-. now split.
  - split; [exact Hch|discriminate].
Qed.

Lemma body_grows env prompt hist signal w :
  cur w = "" ->
  let s := sendMessage_body env prompt hist signal w in
  chain_from "" (answers (trace_of s) ++ [cur (world_of s)]).
Proof.
  intros Hcur. cbn zeta. unfold sendMessage_body, try_catch.
  pose proof (prepare_quiet env prompt hist w) as Hq.
  unfold bind.
  destruct (prepare env prompt hist w) as [p w1 tr1|e w1 tr1|q w1 tr1];
    cbn [world_of trace_of] in Hq;
    destruct Hq as (Hst & _ & _ & _ & _ & _ & Hans & _).
  - assert (Hcur1 : cur w1 = "") by (unfold cur; now rewrite Hst).
    destruct (fallback_grows env p signal w1 Hcur1) as (Hch & Hthrow).
    cbn zeta in Hch, Hthrow.
    destruct (stream_with_fallback env p signal w1) as [r w2 tr2|e w2 tr2|q w2 tr2];
      cbn [prefix_trace trace_of world_of] in *.
    + now rewrite answers_app, Hans.
    + destruct (Hthrow e w2 tr2 eq_refl) as (Hcur2 & Hans2).
      rewrite trace_prefix, world_prefix, !answers_app, Hans, Hans2. cbn [app].
      now apply on_error_grows.
    + now rewrite answers_app, Hans.
  - assert (Hcur1 : cur w1 = "") by (unfold cur; now rewrite Hst).
    rewrite trace_prefix, world_prefix, answers_app, Hans. cbn [app].
    now apply on_error_grows.
  - cbn. rewrite Hans. unfold cur. rewrite Hst. fold (cur w). rewrite Hcur.
    split; [apply extends_refl|exact I].
Qed.

Lemma prologue_answers prompt w :
  answers (prologue_trace prompt w)
  = if window_alive (askWindow w) then [""] else [].
Proof.
  unfold prologue_trace.
  destruct (window_alive (askWindow w)); destruct (abortController w) as [c|];
    try destruct (existsb (Nat.eqb c) (aborted w));
    try destruct (existsb (Nat.eqb c) (listeners w)); reflexivity.
Qed.

(** X12. A submission that runs alone publishes an answer that only grows,
    starting from the empty text. *)
Lemma lone_submission_answer_grows env prompt hist w :
  prefix_chain (answers (trace_of (sendMessage env prompt hist w))) /\
  chain_from "" (answers (trace_of (sendMessage env prompt hist w))).
Proof.
  destruct (prologue_run prompt w) as (w1 & Hrun & Hst & Hwin & _).
  assert (Hcur1 : cur w1 = "") by (unfold cur; now rewrite Hst).
  pose proof (body_grows env prompt hist (controllers w) w1 Hcur1) as Hch.
  cbn zeta in Hch. apply chain_drop_last in Hch.
  assert (H : chain_from ""
                (answers (trace_of (sendMessage env prompt hist w)))).
  { unfold sendMessage. rewrite (bind_run _ _ _ _ _ _ Hrun), trace_prefix.
    rewrite answers_app, prologue_answers.
    destruct (window_alive (askWindow w)); cbn [app]; [|exact Hch].
    split; [apply extends_refl|exact Hch]. }
  split; [exact (chain_prefix _ _ H)|exact H].
Qed.

(** C5, at a submission that supersedes a streaming one. The first
    question has streamed Hello and waits for its next read; the second
    question is submitted.  Its prologue aborts the first controller,
    the reader of the first call is cancelled and that call finishes
    (whether its read resolves as done or throws) by writing Hello into
    the request state of the second question.
    The stream of the second question then publishes Hello, Hi, Hi:
    the answer is not a chain of extensions. *)
Theorem superseding_stream_publishes_stale_answer :
  exists wA trA signal w1 tr1 w2 tr2 w3 tr3,
    sendMessage envA "q1" (Some []) (initial_world WinVisible)
    = Pending pendingA wA trA /\
    answers trA = [""; ""; "Hello"] /\
    sendMessage_prologue "q2" wA = Ok signal w1 tr1 /\
    In (ReaderCancel (p_signal pendingA)) tr1 /\
    resume_sendMessage envA pendingA [Done] w1 = Ok Success w2 tr2 /\
    resume_sendMessage envA pendingA
      [ReadError (mkError (Some "New request received."))] w1
    = Ok Success w2 tr2 /\
    cur w2 = "Hello" /\
    sendMessage_body envB "q2" (Some []) signal w2 = Ok Success w3 tr3 /\
    answers tr3 = ["Hello"; "Hi"; "Hi"] /\
    ~ prefix_chain (answers tr3) /\
    supersede envA envB pendingA "q2" (Some []) wA
    = Ok Success w3 (tr1 ++ tr2 ++ tr3).
Proof.
  do 9 eexists.
  split; [vm_compute; reflexivity|].
  split; [reflexivity|].
  split; [vm_compute; reflexivity|].
  split; [cbn; auto|].
  split; [vm_compute; reflexivity|].
  split; [vm_compute; reflexivity|].
  split; [reflexivity|].
  split; [vm_compute; reflexivity|].
  split; [reflexivity|].
  split; [|vm_compute; reflexivity].
  cbn. intros [[more H] _]. cbn in H. discriminate.
Qed.

Lemma toggle_dropped_while_busy_witness :
  toggleAskButton envA true busy_world = Ok tt busy_world [] /\
  nextStep_callback envA busy_world = Ok tt busy_world [].
Proof. apply (toggle_dropped_while_busy envA true busy_world). reflexivity. Defined.

Lemma stream_exit_persists_answer_witness :
  exists w' tr,
    _processStream envA hello_reads 7 0 (initial_world WinVisible) = Ok tt w' tr /\
    isStreaming (state w') = false /\
    currentResponse (state w') = "Hello" /\
    persisted tr = [(7, "Hello")].
Proof.
  apply (stream_exit_persists_answer envA 7 0 hello_reads
           (initial_world WinVisible) BySentinel "Hello").
  reflexivity.
Defined.

Lemma broken_frame_malformed : malformed envA broken_frame.
Proof.
  exists "{broken". split; [reflexivity|]. split; [discriminate|reflexivity].
Defined.

Lemma malformed_frame_skipped_witness :
  process_lines envA
    ([("data: " ++ delta_payload "Hel")%string] ++ broken_frame
     :: [("data: " ++ delta_payload "lo")%string]) "" (initial_world WinVisible)
  = process_lines envA
      ([("data: " ++ delta_payload "Hel")%string]
       ++ [("data: " ++ delta_payload "lo")%string]) "" (initial_world WinVisible).
Proof.
  apply (proj1 (malformed_frame_skipped envA broken_frame broken_frame_malformed)).
Defined.

Lemma fallback_retries_once_witness :
  stream_calls
    (trace_of (sendMessage rejecting_env "What is on screen?" (Some []) one_queued))
  = [messages witness_prepared; text_only witness_prepared] /\
  image_count (messages witness_prepared) = 1 /\
  image_count (text_only witness_prepared) = 0.
Proof.
  pose proof (fallback_retries_once rejecting_env "What is on screen?" (Some [])
                one_queued 0
                (world_of (sendMessage_prologue "What is on screen?" one_queued))
                (trace_of (sendMessage_prologue "What is on screen?" one_queued))
                witness_prepared
                (world_of (prepare rejecting_env "What is on screen?" (Some [])
                   (world_of (sendMessage_prologue "What is on screen?" one_queued))))
                (trace_of (prepare rejecting_env "What is on screen?" (Some [])
                   (world_of (sendMessage_prologue "What is on screen?" one_queued))))
                (mkError (Some "Copilot streaming error (400): image input is not supported"))
                eq_refl eq_refl eq_refl) as [Hretry _].
  cbn zeta in Hretry.
  assert (Himg : 1 <= image_count (messages witness_prepared))
    by (vm_compute; lia).
  destruct (Hretry Himg eq_refl) as (Hcalls & Hzero & _).
  split; [exact Hcalls|]. split; [reflexivity|exact Hzero].
Defined.

(** ** Worked examples *)

Example slice_negative : Js.slice (-2) [1; 2; 3] = [2; 3].
Proof. reflexivity. Qed.

Example slice_short : Js.slice (-10) [1; 2] = [1; 2].
Proof. reflexivity. Qed.

Example split_lines :
  Js.split (ascii_of_nat 10) ("a" ++ Js.nl ++ Js.nl ++ "b" ++ Js.nl)%string
  = ["a"; ""; "b"; ""].
Proof. reflexivity. Qed.

Example chunk_of_two_frames :
  chunk_lines (delta_frame "Hel" ++ Js.nl ++ "  " ++ Js.nl ++ delta_frame "lo")%string
  = [("data: " ++ delta_payload "Hel")%string;
     ("data: " ++ delta_payload "lo")%string].
Proof. reflexivity. Qed.

Example trim_both_sides : Js.trim "  What is on screen?  " = "What is on screen?".
Proof. reflexivity. Qed.

Example bad_request_is_multimodal :
  _isMultimodalError (mkError (Some "Copilot streaming error (400): Bad Request"))
  = true.
Proof. reflexivity. Qed.

Example upper_case_marker :
  _isMultimodalError (mkError (Some "VISION is disabled")) = true.
Proof. reflexivity. Qed.

Example rate_limit_is_not_multimodal :
  _isMultimodalError (mkError (Some "Copilot streaming error (429): rate limited"))
  = false.
Proof. reflexivity. Qed.

Example missing_message_is_not_multimodal :
  _isMultimodalError (mkError None) = false.
Proof. reflexivity. Qed.

Example token_of_delta :
  JsonAccess.token_text
    (match JsonAccess.delta_content (delta_json "Hel") with
     | Some c => c
     | None => None
     end) = Some "Hel".
Proof. reflexivity. Qed.

Example no_choices_throws : JsonAccess.delta_content (JObject []) = None.
Proof. reflexivity. Qed.

Example empty_choices_gives_no_token :
  JsonAccess.delta_content (JObject [("choices", JArray [])]) = Some None.
Proof. reflexivity. Qed.

Example two_entries_joined :
  _formatConversationForPrompt (Some ["me: hi"; "them: hello"])
  = ("me: hi" ++ Js.nl ++ "them: hello")%string.
Proof. reflexivity. Qed.

(** One queued screenshot and the deltas Hel and lo: the payload has
    one image, the answer is published as Hel and then Hello, and
    Hello is persisted when the terminator arrives. *)
Example queued_screenshot_hello :
  let env := sample_env (fun _ _ => Resolved hello_reads) in
  let run := sendMessage env "What is on screen?" (Some []) one_queued in
  map image_count (stream_calls (trace_of run)) = [1] /\
  answers (trace_of run) = [""; ""; "Hel"; "Hello"; "Hello"] /\
  persisted (trace_of run) = [(7, "Hello")] /\
  screenshotQueue (world_of run) = [] /\
  isStreaming (state (world_of run)) = false.
Proof. vm_compute. repeat split. Qed.

(** Toggling an idle, hidden service shows the window and submits
    nothing. *)
Example toggle_idle_hidden :
  let run := toggleAskButton envA true (initial_world WinHidden) in
  trace_of run
  = [RequestVisibility true;
     StateUpdate {| isVisible := true; isLoading := false;
                    isStreaming := false; currentQuestion := "";
                    currentResponse := ""; showTextInput := true |}] /\
  stream_calls (trace_of run) = [].
Proof. vm_compute. repeat split. Qed.

(** Closing while a request streams aborts its controller and returns
    the request state to its initial values. *)
Example close_while_streaming :
  let run := closeAskWindow (world_of first_run) in
  aborts (trace_of run) = [0] /\
  state (world_of run) = initial_state /\
  abortController (world_of run) = None.
Proof. vm_compute. repeat split. Qed.

(** ** Closing the ask window *)

Lemma close_run w :
  exists w',
    closeAskWindow w = Ok Success w' (close_trace w ++ [RequestVisibility false]) /\
    state w' = initial_state /\ abortController w' = None /\
    screenshotQueue w' = screenshotQueue w /\ askWindow w' = askWindow w.
Proof.
  unfold closeAskWindow, close_trace.
  unfold bind at 1. cbn [get_world]. rewrite prefix_nil.
  destruct (abortController w) as [c|] eqn:Hc.
  - unfold bind at 1. unfold bind at 1. unfold abort_controller.
    destruct (existsb (Nat.eqb c) (aborted w));
      [|destruct (existsb (Nat.eqb c) (listeners w))];
      cbn [prefix_trace app];
      unfold bind, set_state, _broadcastState, emit, ret; cbn;
      destruct (window_alive (askWindow w)); cbn;
      eexists; repeat split.
  - unfold bind, set_state, _broadcastState, emit, ret. cbn.
    destruct (window_alive (askWindow w)); cbn;
      eexists; repeat split; exact Hc.
Qed.

(** X1. [closeAskWindow] always succeeds: it aborts the controller the
    service holds, if any, and forgets it, puts the request state back
    to its initial values, publishes them and asks for the window to
    be hidden last; the screenshot queue is left as it was, and closing
    again aborts nothing. *)
Theorem close_resets_request w :
  exists w',
    closeAskWindow w
    = Ok Success w' (close_trace w ++ [RequestVisibility false]) /\
    state w' = initial_state /\
    abortController w' = None /\
    screenshotQueue w' = screenshotQueue w /\
    aborts (close_trace w)
    = match abortController w with Some c => [c] | None => [] end /\
    aborts (trace_of (closeAskWindow w')) = [].
Proof.
  destruct (close_run w) as (w' & Hrun & Hst & Hnone & Hq & Hwin).
  exists w'. repeat split; try assumption.
  - unfold close_trace. rewrite aborts_app.
    destruct (abortController w) as [c|].
    + destruct (existsb (Nat.eqb c) (aborted w));
        [|destruct (existsb (Nat.eqb c) (listeners w))];
        destruct (window_alive (askWindow w)); reflexivity.
    + destruct (window_alive (askWindow w)); reflexivity.
  - destruct (close_run w') as (w'' & -> & _). cbn [trace_of].
    unfold close_trace. rewrite Hnone, !aborts_app.
    destruct (window_alive (askWindow w')); reflexivity.
Qed.

(** ** The idle branches of the toggle *)

Lemma toggle_idle_unfold env b w :
  idle (state w) = true ->
  toggleAskButton env b w =
  (sendOnly <-
     (if b && showTextInput (state w) then window_and_visible else ret false) ;;
   if sendOnly then sendMessage env "" (Some []) ;;; ret tt
   else
     visible <- window_and_visible ;;
     if visible && Js.truthy (currentResponse (state w)) then
       set_state (with_composer (negb (showTextInput (state w))) (state w)) ;;;
       _broadcastState
     else
       visible' <- window_and_visible ;;
       emit (RequestVisibility (negb visible')) ;;;
       set_state {| isVisible := negb visible'; isLoading := isLoading (state w);
                    isStreaming := isStreaming (state w);
                    currentQuestion := currentQuestion (state w);
                    currentResponse := currentResponse (state w);
                    showTextInput := showTextInput (state w) |} ;;;
       if negb visible' then
         st' <- get_state ;;
         set_state (with_composer true st') ;;;
         _broadcastState
       else ret tt) w.
Proof.
  unfold idle. intros Hidle.
  assert (Hbusy : isLoading (state w) || isStreaming (state w) = false)
    by (destruct (isLoading (state w)), (isStreaming (state w));
        cbn in *; congruence).
  unfold toggleAskButton. unfold bind at 1. cbn [get_state].
  rewrite Hbusy. cbn [orb]. now rewrite prefix_nil.
Qed.

Lemma window_visible_run w :
  askWindow w <> WinDestroyed ->
  window_and_visible w
  = Ok (match askWindow w with WinVisible => true | _ => false end) w [].
Proof.
  unfold window_and_visible, bind, get_world. intros H.
  destruct (askWindow w); try reflexivity. congruence.
Qed.

(** X2. With the window visible and a previous answer on display, an
    idle toggle that is not a screen-only submission only flips the
    composer flag and publishes it: two such toggles give back the
    request state, and neither calls the provider nor aborts. *)
Theorem toggle_flips_composer env w :
  idle (state w) = true ->
  askWindow w = WinVisible ->
  Js.truthy (currentResponse (state w)) = true ->
  let flipped := with_composer (negb (showTextInput (state w))) (state w) in
  toggleAskButton env false w
  = Ok tt (with_state flipped w) [StateUpdate flipped] /\
  world_of (toggleAskButton env false (with_state flipped w))
  = with_state (state w) w /\
  (showTextInput (state w) = false ->
   toggleAskButton env true w = toggleAskButton env false w).
Proof.
  intros Hidle Hwin Hans flipped.
  assert (Hvis : forall st, window_and_visible (with_state st w)
                            = Ok true (with_state st w) []).
  { intros st. rewrite window_visible_run; cbn [askWindow with_state];
      rewrite Hwin; [reflexivity|discriminate]. }
  assert (Hvis0 : window_and_visible w = Ok true w [])
    by (rewrite window_visible_run; rewrite Hwin; [reflexivity|discriminate]).
  assert (Hone : forall b, b && showTextInput (state w) = false ->
            toggleAskButton env b w
            = Ok tt (with_state flipped w) [StateUpdate flipped]).
  { intros b Hb. rewrite toggle_idle_unfold by exact Hidle. rewrite Hb.
    unfold bind at 1. cbn [ret prefix_trace]. rewrite prefix_nil.
    unfold bind at 1. rewrite Hvis0, Hans. cbn [andb prefix_trace].
    rewrite prefix_nil. unfold bind, set_state, _broadcastState.
    cbn [askWindow with_state state]. rewrite Hwin. reflexivity. }
  split; [apply Hone; reflexivity|]. split.
  - rewrite toggle_idle_unfold by (destruct (state w); exact Hidle).
    cbn [andb]. unfold bind at 1. cbn [ret prefix_trace]. rewrite prefix_nil.
    unfold bind at 1. rewrite Hvis.
    cbn [state with_state]. unfold flipped at 1.
    cbn [currentResponse with_composer]. rewrite Hans.
    cbn [andb prefix_trace]. rewrite prefix_nil.
    unfold bind, set_state, _broadcastState.
    cbn [askWindow with_state state]. rewrite Hwin. cbn.
    unfold with_state. cbn. rewrite negb_involutive.
    now destruct w as [q c n a l [v lo s cq cr sh] win].
  - intros Hsh. rewrite (Hone true), (Hone false); try reflexivity.
    now rewrite Hsh.
Qed.

(** X3. An idle toggle with the window hidden or absent asks for the
    window to be shown and turns the composer on, publishing the state
    when the window exists; whatever [inputScreenOnly] is, nothing is
    submitted. *)
Theorem toggle_shows_hidden_window env b w :
  idle (state w) = true ->
  askWindow w = WinHidden \/ askWindow w = WinMissing ->
  toggleAskButton env b w
  = Ok tt (with_state (shown (state w)) w)
      (RequestVisibility true
       :: (if window_alive (askWindow w)
           then [StateUpdate (shown (state w))] else [])) /\
  stream_calls (trace_of (toggleAskButton env b w)) = [].
Proof.
  intros Hidle Hwin.
  assert (Hvis : window_and_visible w = Ok false w []).
  { rewrite window_visible_run; destruct Hwin as [-> | ->];
      try reflexivity; discriminate. }
  assert (Hrun : toggleAskButton env b w
                 = Ok tt (with_state (shown (state w)) w)
                     (RequestVisibility true
                      :: (if window_alive (askWindow w)
                          then [StateUpdate (shown (state w))] else []))).
  { rewrite toggle_idle_unfold by exact Hidle.
    assert (Hfirst : (if b && showTextInput (state w)
                      then window_and_visible else ret false) w
                     = Ok false w [])
      by (destruct (b && showTextInput (state w)); [exact Hvis|reflexivity]).
    unfold bind at 1. rewrite Hfirst. cbn [prefix_trace]. rewrite prefix_nil.
    unfold bind at 1. rewrite Hvis. cbn [andb prefix_trace]. rewrite prefix_nil.
    unfold bind at 1. rewrite Hvis. cbn [negb prefix_trace]. rewrite prefix_nil.
    unfold bind, emit, set_state, get_state, _broadcastState.
    cbn [askWindow with_state state].
    destruct (window_alive (askWindow w)); reflexivity. }
  split; [exact Hrun|]. rewrite Hrun. cbn [trace_of].
  destruct (window_alive (askWindow w)); reflexivity.
Qed.

(** ** Submissions that end before or at the provider call *)

Lemma on_error_world e w :
  world_of (on_error e w) = with_state (failed_state (state w)) w.
Proof.
  unfold on_error, bind, get_state, set_state, _broadcastState, get_world.
  destruct (window_alive (askWindow w)) eqn:Hwin;
    do 3 (cbn; rewrite ?Hwin); reflexivity.
Qed.

Lemma prologue_queue prompt w :
  screenshotQueue (world_of (sendMessage_prologue prompt w)) = screenshotQueue w.
Proof.
  unfold sendMessage_prologue, bind, emit, get_state, set_state,
    _broadcastState, get_world, new_controller.
  cbn. destruct (window_alive (askWindow w)); cbn;
    destruct (abortController w) as [c|]; cbn; try reflexivity;
    unfold abort_controller; cbn;
    destruct (existsb (Nat.eqb c) (aborted w)); cbn; try reflexivity;
    destruct (existsb (Nat.eqb c) (listeners w)); reflexivity.
Qed.

Lemma prepare_unconfigured env prompt hist w sid :
  getOrCreateActive env = Resolved sid ->
  addUserMessage env = Resolved tt ->
  (getCurrentModelInfo env = Resolved None \/
   exists info, getCurrentModelInfo env = Resolved (Some info) /\
                Js.truthy (apiKey info) = false) ->
  prepare env prompt hist w
  = Throw (mkError (Some "AI model or API key not configured.")) w
      [GetOrCreateActive; AddAiMessage sid "user" (Js.trim prompt);
       GetCurrentModelInfo].
Proof.
  intros Hs Hu Hm. unfold prepare.
  unfold bind at 1. cbn [emit]. unfold bind at 1. rewrite Hs. cbn [await ret].
  cbn [prefix_trace]. unfold bind at 1. cbn [emit].
  unfold bind at 1. rewrite Hu. cbn [await ret prefix_trace].
  unfold bind at 1. cbn [emit]. unfold bind at 1.
  destruct Hm as [Hm | (info & Hm & Hkey)]; rewrite Hm; cbn [await ret prefix_trace].
  - reflexivity.
  - rewrite Hkey. reflexivity.
Qed.

(** X4. When no model is configured, or its API key is empty, the
    submission fails with the configuration message after the question
    has been stored as the user's message: the provider is not called,
    the screenshot queue is not consumed, and the request state leaves
    the loading phase with the composer shown. *)
Theorem unconfigured_model_fails_before_provider env prompt hist w sid :
  getOrCreateActive env = Resolved sid ->
  addUserMessage env = Resolved tt ->
  (getCurrentModelInfo env = Resolved None \/
   exists info, getCurrentModelInfo env = Resolved (Some info) /\
                Js.truthy (apiKey info) = false) ->
  exists w' tr,
    sendMessage env prompt hist w
    = Ok (Failure (Some "AI model or API key not configured.")) w' tr /\
    stream_calls tr = [] /\
    screenshotQueue w' = screenshotQueue w /\
    state w' = failed_state (loading_state prompt (state w)) /\
    In (AddAiMessage sid "user" (Js.trim prompt)) tr.
Proof.
  intros Hs Hu Hm.
  destruct (prologue_run prompt w) as (w1 & Hrun & Hst & _).
  pose proof (prologue_queue prompt w) as Hq. rewrite Hrun in Hq. cbn in Hq.
  pose proof (prepare_unconfigured env prompt hist w1 sid Hs Hu Hm) as Hprep.
  pose proof (on_error_world
                (mkError (Some "AI model or API key not configured.")) w1) as Hw.
  destruct (on_error_run
              (mkError (Some "AI model or API key not configured.")) w1)
    as (w' & tr & Herr & _ & Hc & _).
  rewrite Herr in Hw. cbn in Hw. subst w'.
  unfold sendMessage. rewrite (bind_run _ _ _ _ _ _ Hrun).
  unfold sendMessage_body.
  rewrite (try_catch_throws _ _ _ _ _ _ (bind_throws _ _ _ _ _ _ Hprep)).
  rewrite Herr. cbn [prefix_trace message].
  eexists. eexists. split; [reflexivity|].
  destruct (prologue_calls prompt w) as (Hpc & _).
  rewrite !stream_calls_app, Hpc, Hc. cbn [with_state screenshotQueue state].
  rewrite Hst. repeat split; try assumption.
  apply in_or_app. right. cbn. auto.
Qed.

Lemma emit_ok e w a w' t :
  emit e w = Ok a w' t -> w' = w /\ t = [e].
Proof. unfold emit. intros H. injection H as _ <- <-. now split. Qed.

Lemma await_ok {A} (r : Res A) w a w' t :
  await r w = Ok a w' t -> r = Resolved a /\ w' = w /\ t = [].
Proof.
  destruct r; cbn; [|discriminate]. intros H. injection H as <- <- <-.
  now repeat split.
Qed.

(** X5. Queued screenshots come first: when the queue is not empty the
    whole queue is sent and emptied, the screen is not captured, the
    screenshot-analysis profile is used and a blank question is
    replaced by the default request naming their number; when it is
    empty the screen is captured once, the plain analysis profile is
    used and the question is sent trimmed. *)
Theorem queued_screenshots_take_precedence env prompt hist w p w' tr :
  prepare env prompt hist w = Ok p w' tr ->
  screenshotQueue w' = [] /\
  (screenshotQueue w <> [] ->
   screenshotsToAnalyze p = screenshotQueue w /\
   ~ In CaptureScreenshot tr /\
   systemPrompt p
   = GetSystemPrompt "pickle_glass_screenshot_analysis"
       (_formatConversationForPrompt hist) false /\
   userText p = (if Js.truthy (Js.trim prompt) then Js.trim prompt
                 else default_request (List.length (screenshotQueue w)))) /\
  (screenshotQueue w = [] ->
   In CaptureScreenshot tr /\
   screenshotsToAnalyze p
   = match captureScreenshot env with
     | CaptureOk b wd ht =>
         [{| base64 := Some b; width := wd; height := ht; timestamp := None |}]
     | CaptureFailed _ => []
     end /\
   systemPrompt p
   = GetSystemPrompt "pickle_glass_analysis"
       (_formatConversationForPrompt hist) false /\
   userText p = Js.trim prompt).
Proof.
  unfold prepare. intros H. do 6 peel H.
  match type of H with
  | match ?x with _ => _ end _ = _ => destruct x as [info|]; [|discriminate]
  end.
  destruct (negb (Js.truthy (apiKey info))); [discriminate|].
  do 3 peel H.
  apply emit_ok in Hm as (-> & ->). apply await_ok in Hm0 as (_ & -> & ->).
  apply emit_ok in Hm1 as (-> & ->). apply await_ok in Hm2 as (_ & -> & ->).
  apply emit_ok in Hm3 as (-> & ->). apply await_ok in Hm4 as (_ & -> & ->).
  unfold has_queued in Hm5. injection Hm5 as <- <- <-.
  apply await_ok in Hm7 as (_ & -> & ->).
  unfold ret in H. injection H as <- <- <-.
  cbn [screenshotsToAnalyze systemPrompt userText app].
  destruct (screenshotQueue w) as [|s q] eqn:Hq.
  - cbn [hasQueuedScreenshots List.length Nat.ltb Nat.leb] in Hm6.
    peel Hm6. apply emit_ok in Hm as (-> & ->).
    assert (Hshots : a5 = (match captureScreenshot env with
                           | CaptureOk b wd ht =>
                               [{| base64 := Some b; width := wd; height := ht;
                                   timestamp := None |}]
                           | CaptureFailed _ => []
                           end, false) /\ w7 = w /\ t0 = []).
    { destruct (captureScreenshot env); unfold ret in Hm6;
        injection Hm6 as <- <- <-; now repeat split. }
    destruct Hshots as (-> & -> & ->).
    split; [exact Hq|]. split; [congruence|]. intros _.
    cbn [fst snd andb]. repeat split. cbn. auto 10.
  - cbn [hasQueuedScreenshots List.length Nat.ltb Nat.leb] in Hm6.
    peel Hm6. unfold drain_queue in Hm. cbn in Hm. rewrite Hq in Hm.
    injection Hm as <- <- <-. unfold ret in Hm6. injection Hm6 as <- <- <-.
    split; [reflexivity|]. split; [|discriminate]. intros _.
    cbn [fst snd andb List.length Nat.ltb Nat.leb].
    repeat split.
    + cbn. intros [Hin|[Hin|[Hin|[]]]]; discriminate.
    + now destruct (Js.truthy (Js.trim prompt)).
Qed.

(** X6. When the provider has opened the stream but the ask window is
    missing or destroyed, the response is cancelled and the submission
    returns a failure without passing through the error handler: no
    state was published, nothing is persisted as an answer, and the
    request state stays in the loading phase, so that later toggles
    are dropped. *)
Theorem stream_without_window_stays_loading
    env prompt hist w signal w1 tr1 p w2 tr2 reader :
  sendMessage_prologue prompt w = Ok signal w1 tr1 ->
  prepare env prompt hist w1 = Ok p w2 tr2 ->
  streamChat env 0 (messages p) = Resolved reader ->
  window_alive (askWindow w) = false ->
  exists w' tr,
    sendMessage env prompt hist w
    = Ok (Failure (Some "Ask window is not available.")) w' tr /\
    state w' = loading_state prompt (state w) /\
    answers tr = [] /\ persisted tr = [] /\
    In ResponseCancelled tr /\
    (forall env' b, toggleAskButton env' b w' = Ok tt w' []).
Proof.
  intros Hpro Hprep Hopen Hwin.
  destruct (sendMessage_from_prepared _ _ _ _ _ _ _ _ _ _ Hpro Hprep)
    as (Hrun & _).
  destruct (prologue_run prompt w) as (w1' & Hrun1 & Hst1 & Hwin1 & _).
  rewrite Hrun1 in Hpro. injection Hpro as <- <- <-.
  pose proof (prepare_quiet env prompt hist w1') as Hq.
  rewrite Hprep in Hq. cbn [world_of trace_of] in Hq.
  destruct Hq as (Hst2 & _ & _ & _ & _ & Hwin2 & Hans2 & _ & Hper2 & _).
  assert (Hdead : window_alive (askWindow w2) = false)
    by now rewrite Hwin2, Hwin1.
  assert (Hswf : stream_with_fallback env p (controllers w) w2
                 = Ok (Failure (Some "Ask window is not available.")) w2
                     [StreamChat (messages p); ResponseCancelled]).
  { unfold stream_with_fallback, try_catch.
    now rewrite (open_resolved_eq _ _ _ _ _ _ _ Hopen), Hdead. }
  rewrite Hrun. unfold try_catch. rewrite Hswf. cbn [prefix_trace].
  eexists. eexists. split; [reflexivity|].
  destruct (prologue_calls prompt w) as (_ & Hper1).
  rewrite !answers_app, !persisted_app, prologue_answers, Hwin, Hans2,
    Hper1, Hper2.
  split; [now rewrite Hst2, Hst1|]. split; [reflexivity|].
  split; [reflexivity|]. split.
  - apply in_or_app. right. cbn. auto.
  - intros env' b. unfold toggleAskButton, bind. cbn [get_state].
    now rewrite Hst2, Hst1.
Qed.

(** ** Decoding: terminator, chunk boundaries and read errors *)

(** Two tails of read results that the loop cannot tell apart stay
    indistinguishable behind any common beginning. *)
Lemma read_loop_congr env sid sig xs ys :
  (forall full w, read_loop env xs sid sig full w = read_loop env ys sid sig full w) ->
  forall pre full w,
    read_loop env (pre ++ xs) sid sig full w
    = read_loop env (pre ++ ys) sid sig full w.
Proof.
  intros Heq pre. induction pre as [|r pre IH]; intros full w; [apply Heq|].
  cbn [app]. destruct r as [chunk| |e]; try reflexivity.
  rewrite !read_loop_chunk. apply bind_ext. intros [t text] w1.
  cbn [fst snd]. destruct t; [reflexivity|apply IH].
Qed.

Lemma processStream_congr env sid sig xs ys :
  (forall full w, read_loop env xs sid sig full w = read_loop env ys sid sig full w) ->
  forall pre w,
    _processStream env (pre ++ xs) sid sig w
    = _processStream env (pre ++ ys) sid sig w.
Proof.
  intros Heq pre w. unfold _processStream. apply bind_ext. intros st w1.
  apply bind_ext. intros [] w2. apply bind_ext. intros [] w3.
  unfold stream_from, bind. now rewrite (read_loop_congr env sid sig xs ys Heq).
Qed.

Lemma done_terminates env : line_action env "data: [DONE]" = Terminate.
Proof. reflexivity. Qed.

Lemma process_lines_cut env l1 l2 : forall full w,
  process_lines env (l1 ++ "data: [DONE]" :: l2) full w
  = process_lines env (l1 ++ ["data: [DONE]"]) full w.
Proof.
  induction l1 as [|l l1 IH]; intros full w; cbn [app].
  - now rewrite !process_line_step, done_terminates.
  - rewrite !process_line_step. destruct (line_action env l); try reflexivity.
    + cbn zeta. now rewrite IH.
    + apply IH.
Qed.

Lemma lines_text_done env l1 : forall full,
  fst (lines_text env (l1 ++ ["data: [DONE]"]) full) = true.
Proof.
  induction l1 as [|l l1 IH]; intros full; cbn [app lines_text].
  - now rewrite done_terminates.
  - destruct (line_action env l); [apply IH|reflexivity|apply IH].
Qed.

Lemma chunk_lines_done c1 c2 :
  chunk_lines (c1 ++ Js.nl ++ "data: [DONE]" ++ Js.nl ++ c2)%string
  = chunk_lines c1 ++ "data: [DONE]" :: chunk_lines c2 /\
  chunk_lines (c1 ++ Js.nl ++ "data: [DONE]")%string
  = chunk_lines c1 ++ ["data: [DONE]"].
Proof.
  split.
  - now rewrite chunk_lines_app, chunk_lines_app.
  - now rewrite chunk_lines_app.
Qed.

Lemma read_loop_done env sid sig c1 c2 rest full w :
  read_loop env
    (Chunk (c1 ++ Js.nl ++ "data: [DONE]" ++ Js.nl ++ c2)%string :: rest)
    sid sig full w
  = read_loop env [Chunk (c1 ++ Js.nl ++ "data: [DONE]")%string] sid sig full w.
Proof.
  rewrite !read_loop_chunk.
  destruct (chunk_lines_done c1 c2) as (-> & ->).
  unfold bind. rewrite process_lines_cut.
  destruct (process_lines_run env (chunk_lines c1 ++ ["data: [DONE]"]) full w)
    as (w1 & tr1 & -> & _).
  now rewrite lines_text_done.
Qed.

Lemma reads_text_done env c pre : forall full,
  (forall full', fst (lines_text env (chunk_lines c) full') = true) ->
  exists how text, reads_text env (pre ++ [Chunk c]) full = (Some how, text).
Proof.
  induction pre as [|r pre IH]; intros full Hdone; cbn [app reads_text].
  - rewrite Hdone. eauto.
  - destruct r as [chunk| |e]; eauto.
    destruct (fst (lines_text env (chunk_lines chunk) full)); eauto.
Qed.

(** X7. The terminator ends decoding: whatever follows the line
    [data: [DONE]], in the same chunk or in later reads, has no effect
    on the run, and the call returns instead of waiting for more. *)
Theorem terminator_ends_decoding env c1 c2 pre rest sid sig w :
  _processStream env
    (pre ++ Chunk (c1 ++ Js.nl ++ "data: [DONE]" ++ Js.nl ++ c2)%string :: rest)
    sid sig w
  = _processStream env
      (pre ++ [Chunk (c1 ++ Js.nl ++ "data: [DONE]")%string]) sid sig w /\
  exists w' tr,
    _processStream env
      (pre ++ Chunk (c1 ++ Js.nl ++ "data: [DONE]" ++ Js.nl ++ c2)%string :: rest)
      sid sig w = Ok tt w' tr.
Proof.
  assert (Heq : _processStream env
    (pre ++ Chunk (c1 ++ Js.nl ++ "data: [DONE]" ++ Js.nl ++ c2)%string :: rest)
    sid sig w
  = _processStream env
      (pre ++ [Chunk (c1 ++ Js.nl ++ "data: [DONE]")%string]) sid sig w).
  { apply processStream_congr. intros full w0. apply read_loop_done. }
  split; [exact Heq|]. rewrite Heq.
  destruct (reads_text_done env (c1 ++ Js.nl ++ "data: [DONE]")%string pre "")
    as (how & text & Hexit).
  { intros full'. destruct (chunk_lines_done c1 c2) as (_ & ->).
    apply lines_text_done. }
  rewrite processStream_unfold. cbn zeta.
  set (w1 := with_state (streaming_state (state w)) w).
  destruct (stream_from_exit env sid sig _ "" w1 how text Hexit)
    as (w' & tr & -> & _).
  destruct (broadcast_run w1) as (tr0 & -> & _).
  cbn. eauto.
Qed.

Lemma and_then_prefix {A B} (t : list Event) (s : Step A) (k : A -> M B) :
  and_then (prefix_trace t s) k = prefix_trace t (and_then s k).
Proof. destruct s; cbn; now rewrite ?prefix_prefix. Qed.

(** The lines of two chunks processed in a row, as one list. *)
Lemma process_lines_app env {B} l1 l2 (k : bool * string -> M B) : forall full w,
  and_then (process_lines env (l1 ++ l2) full w) k
  = and_then (process_lines env l1 full w)
      (fun r => if fst r then k r
                else fun w' => and_then (process_lines env l2 (snd r) w') k).
Proof.
  induction l1 as [|l l1 IH]; intros full w; cbn [app].
  - cbn [process_lines ret and_then fst snd]. now rewrite prefix_nil.
  - rewrite !process_line_step.
    destruct (line_action env l) as [token| |].
    + cbn zeta. rewrite !and_then_prefix. f_equal. apply IH.
    + reflexivity.
    + apply IH.
Qed.

Lemma read_loop_split env sid sig a b rest full w :
  read_loop env (Chunk (a ++ Js.nl ++ b)%string :: rest) sid sig full w
  = read_loop env (Chunk a :: Chunk b :: rest) sid sig full w.
Proof.
  rewrite (read_loop_chunk env sid sig (a ++ Js.nl ++ b)%string).
  rewrite chunk_lines_app.
  change (and_then (process_lines env (chunk_lines a ++ chunk_lines b) full w)
            (fun r => if fst r then ret (BySentinel, snd r)
                      else read_loop env rest sid sig (snd r))
          = read_loop env (Chunk a :: Chunk b :: rest) sid sig full w).
  rewrite process_lines_app.
  rewrite (read_loop_chunk env sid sig a).
  change (and_then (process_lines env (chunk_lines a) full w)
            (fun r => if fst r then ret (BySentinel, snd r)
                      else read_loop env (Chunk b :: rest) sid sig (snd r)))
    with ((r <- process_lines env (chunk_lines a) full ;;
           if fst r then ret (BySentinel, snd r)
           else read_loop env (Chunk b :: rest) sid sig (snd r)) w).
  apply bind_ext.
  intros [t text] w1. cbn [fst snd]. destruct t; reflexivity.
Qed.

(** X8. Cutting a chunk in two at a line end changes nothing: a
    stream read as one chunk or as the two chunks around a newline
    gives the same run. *)
Theorem chunk_boundary_at_newline env a b pre rest sid sig w :
  _processStream env (pre ++ Chunk (a ++ Js.nl ++ b)%string :: rest) sid sig w
  = _processStream env (pre ++ Chunk a :: Chunk b :: rest) sid sig w.
Proof.
  apply processStream_congr. intros full w0. apply read_loop_split.
Qed.

Lemma chunk_lines_ignored env line :
  Js.includes Js.nl line = false ->
  line_action env line = Ignore ->
  forall full w,
    process_lines env (chunk_lines line) full w = Ok (false, full) w [].
Proof.
  intros Hnl Hign full w. unfold chunk_lines. rewrite split_single by exact Hnl.
  cbn [filter]. destruct (negb _); [|reflexivity].
  now rewrite process_line_step, Hign.
Qed.

(** X9. A frame cut by a chunk boundary is lost: when a chunk ends
    inside a payload, so that the first piece does not parse, and the
    next chunk brings the remainder, both pieces are skipped and the
    stream goes on as if the frame had never been sent. *)
Theorem frame_cut_by_chunk_boundary_is_lost env d1 d2 pre rest sid sig w :
  JSON_parse env d1 = None ->
  d1 <> "[DONE]" ->
  Js.includes Js.nl d1 = false ->
  Js.includes Js.nl d2 = false ->
  Js.startsWith "data: " d2 = false ->
  _processStream env
    (pre ++ Chunk ("data: " ++ d1)%string :: Chunk d2 :: rest) sid sig w
  = _processStream env (pre ++ rest) sid sig w.
Proof.
  intros Hparse Hnot Hnl1 Hnl2 Hstart.
  apply processStream_congr. intros full w0.
  assert (H1 : line_action env ("data: " ++ d1)%string = Ignore)
    by (apply malformed_ignored; now exists d1).
  assert (H2 : line_action env d2 = Ignore)
    by (unfold line_action; now rewrite Hstart).
  rewrite !read_loop_chunk.
  unfold bind at 1.
  rewrite (chunk_lines_ignored env ("data: " ++ d1)%string Hnl1 H1).
  cbn [fst snd prefix_trace]. rewrite prefix_nil, read_loop_chunk.
  unfold bind at 1. rewrite (chunk_lines_ignored env _ Hnl2 H2).
  cbn [fst snd prefix_trace]. now rewrite prefix_nil.
Qed.

Lemma stream_errors_app (t1 t2 : list Event) :
  stream_errors (t1 ++ t2) = stream_errors t1 ++ stream_errors t2.
Proof.
  induction t1 as [|e t1 IH]; [reflexivity|].
  destruct e; cbn; now rewrite ?IH.
Qed.

Lemma updates_no_errors (tr : list Event) :
  Forall is_update tr -> stream_errors tr = [].
Proof.
  induction 1 as [|e tr He _ IH]; [reflexivity|].
  destruct e; try contradiction. exact IH.
Qed.

Lemma finish_stream_errors how text sid sig w :
  stream_errors (trace_of (finish_stream how text sid sig w))
  = match how with
    | ByError e =>
        if signal_aborted sig w || negb (window_alive (askWindow w)) then []
        else [message e]
    | _ => []
    end.
Proof.
  unfold finish_stream, bind, get_world, get_state, set_state, _broadcastState.
  destruct how as [| |e];
    try destruct (signal_aborted sig w) eqn:Hab;
    destruct (window_alive (askWindow w)) eqn:Hwin;
    destruct (Js.truthy text);
    do 3 (cbn; rewrite ?Hwin, ?Hab); reflexivity.
Qed.

(** X10. A read that throws is reported to the ask window once, with
    the error's message, unless the request's signal was aborted or the
    window is gone; streams left by the terminator or by a finished
    read report nothing. *)
Theorem read_error_reported_unless_aborted env reads sid sig w how text :
  reads_text env reads "" = (Some how, text) ->
  stream_errors (trace_of (_processStream env reads sid sig w))
  = match how with
    | ByError e =>
        if signal_aborted sig w || negb (window_alive (askWindow w)) then []
        else [message e]
    | _ => []
    end.
Proof.
  intros Hexit. rewrite processStream_unfold. cbn zeta.
  set (w0 := with_state (streaming_state (state w)) w).
  destruct (broadcast_run w0) as (tr0 & Hb & Hu0 & _).
  rewrite Hb, trace_prefix, stream_errors_app. cbn [trace_of].
  rewrite (updates_no_errors tr0 Hu0). cbn [app].
  destruct (read_loop_run env sid sig reads "" w0)
    as (w1 & tr1 & Hs & _ & Hu1 & Hrun).
  rewrite Hexit in Hrun. unfold stream_from.
  rewrite (bind_run _ _ _ _ _ _ Hrun), trace_prefix, stream_errors_app.
  rewrite (updates_no_errors tr1 Hu1). cbn [app fst snd].
  rewrite finish_stream_errors.
  destruct Hs as (_ & _ & _ & Hab & _ & Hwin).
  unfold signal_aborted. now rewrite Hab, Hwin.
Qed.

(** ** Enqueueing *)

(** X11. An enqueue from the renderer stores the screenshot last in
    the queue with the time of the call as its timestamp, whatever
    timestamp the caller supplied; the entries before it are the most
    recent ones already queued, and the reported size is the length of
    the queue. *)
Theorem enqueue_stamps_and_keeps_newest now s q :
  let stored := {| base64 := base64 s; width := width s; height := height s;
                   timestamp := Some now |} in
  let (q', n) := addScreenshotToQueue now s q in
  n = List.length q' /\
  (exists kept evicted, q = evicted ++ kept /\ q' = kept ++ [stored]) /\
  n = Nat.min 10 (List.length q + 1) /\
  (forall t', addScreenshotToQueue now
                {| base64 := base64 s; width := width s; height := height s;
                   timestamp := t' |} q
              = addScreenshotToQueue now s q).
Proof.
  cbn zeta. unfold addScreenshotToQueue. cbn zeta.
  set (stored := {| base64 := base64 s; width := width s; height := height s;
                    timestamp := Some now |}).
  split; [reflexivity|]. split; [|split].
  - unfold push_limited, MAX_SCREENSHOT_QUEUE_SIZE.
    destruct (10 <? List.length (q ++ [stored])) eqn:Hlen.
    + apply Nat.ltb_lt in Hlen. rewrite length_app in Hlen. cbn in Hlen.
      rewrite slice_last by lia. rewrite length_app. cbn [List.length].
      assert (Hk : List.length q + 1 - 10 <= List.length q) by lia.
      rewrite skipn_app.
      replace (List.length q + 1 - 10 - List.length q) with 0 by lia.
      cbn [skipn].
      exists (skipn (List.length q + 1 - 10) q),
             (firstn (List.length q + 1 - 10) q).
      split; [now rewrite firstn_skipn|reflexivity].
    + exists q, []. now split.
  - now destruct (push_limited_suffix stored q) as (_ & _ & ->).
  - reflexivity.
Qed.

Lemma toggle_flips_composer_witness :
  toggleAskButton envA false answered_world
  = Ok tt (with_state (with_composer true (state answered_world)) answered_world)
      [StateUpdate (with_composer true (state answered_world))].
Proof.
  apply (toggle_flips_composer envA answered_world); reflexivity.
Defined.

Lemma toggle_shows_hidden_window_witness :
  stream_calls (trace_of (toggleAskButton envA true (initial_world WinHidden)))
  = [].
Proof.
  apply (toggle_shows_hidden_window envA true (initial_world WinHidden));
    [reflexivity|left; reflexivity].
Defined.

Lemma unconfigured_model_fails_before_provider_witness :
  exists w' tr,
    sendMessage unconfigured_env "What is on screen?" (Some []) one_queued
    = Ok (Failure (Some "AI model or API key not configured.")) w' tr /\
    stream_calls tr = [] /\
    screenshotQueue w' = screenshotQueue one_queued /\
    state w' = failed_state (loading_state "What is on screen?" (state one_queued)) /\
    In (AddAiMessage 7 "user" (Js.trim "What is on screen?")) tr.
Proof.
  apply (unconfigured_model_fails_before_provider unconfigured_env
           "What is on screen?" (Some []) one_queued 7);
    [reflexivity|reflexivity|left; reflexivity].
Defined.

Lemma queued_screenshots_take_precedence_witness :
  screenshotsToAnalyze queued_prepared = screenshotQueue one_queued /\
  userText queued_prepared = default_request 1.
Proof.
  destruct (queued_screenshots_take_precedence envA "" (Some []) one_queued
              queued_prepared
              (world_of (prepare envA "" (Some []) one_queued))
              (trace_of (prepare envA "" (Some []) one_queued)) eq_refl)
    as (_ & Hq & _).
  destruct Hq as (Hs & _ & _ & Ht); [discriminate|].
  split; [exact Hs|exact Ht].
Defined.

Lemma stream_without_window_stays_loading_witness :
  exists w' tr,
    sendMessage envA "q" (Some []) (initial_world WinMissing)
    = Ok (Failure (Some "Ask window is not available.")) w' tr /\
    isLoading (state w') = true.
Proof.
  destruct (stream_without_window_stays_loading envA "q" (Some [])
              (initial_world WinMissing) 0
              (world_of (sendMessage_prologue "q" (initial_world WinMissing)))
              (trace_of (sendMessage_prologue "q" (initial_world WinMissing)))
              windowless_prepared
              (world_of (prepare envA "q" (Some [])
                 (world_of (sendMessage_prologue "q" (initial_world WinMissing)))))
              (trace_of (prepare envA "q" (Some [])
                 (world_of (sendMessage_prologue "q" (initial_world WinMissing)))))
              [Chunk (delta_frame "Hello")]
              eq_refl eq_refl eq_refl eq_refl)
    as (w' & tr & Hrun & Hst & _).
  exists w', tr. split; [exact Hrun|]. now rewrite Hst.
Defined.

Lemma frame_cut_by_chunk_boundary_is_lost_witness :
  JSON_parse envA (cut_head ++ cut_tail)%string = Some (delta_json "Hel") /\
  _processStream envA
    ([] ++ Chunk ("data: " ++ cut_head)%string :: Chunk cut_tail
        :: [Chunk ("data: [DONE]" ++ Js.nl)%string]) 7 0 (initial_world WinVisible)
  = _processStream envA ([] ++ [Chunk ("data: [DONE]" ++ Js.nl)%string]) 7 0
      (initial_world WinVisible).
Proof.
  split; [reflexivity|].
  apply (frame_cut_by_chunk_boundary_is_lost envA cut_head cut_tail);
    try reflexivity. discriminate.
Defined.

Lemma read_error_reported_unless_aborted_witness :
  stream_errors
    (trace_of (_processStream envA
                 [Chunk (delta_frame "Hel"); ReadError (mkError (Some "socket hang up"))]
                 7 0 (initial_world WinVisible)))
  = [Some "socket hang up"].
Proof.
  apply (read_error_reported_unless_aborted envA
           [Chunk (delta_frame "Hel"); ReadError (mkError (Some "socket hang up"))]
           7 0 (initial_world WinVisible)
           (ByError (mkError (Some "socket hang up"))) "Hel").
  reflexivity.
Defined.

(** ** The transcript view *)

Import ListenView.

Lemma found_partial l : forall i,
  findLastPartialIdx l = Some i ->
  exists before m after,
    l = before ++ m :: after /\ List.length before = i /\
    isPartial m = true /\ filter isPartial after = [] /\
    forall t p f, update_at i t p f l
                  = before ++ {| id := id m; text := t; isPartial := p;
                                 isFinal := f |} :: after.
Proof.
  induction l as [|x l IH]; intros i; cbn [findLastPartialIdx]; [discriminate|].
  destruct (findLastPartialIdx l) as [j|] eqn:Hj.
  - intros H. injection H as <-.
    destruct (IH j eq_refl) as (before & m & after & -> & Hlen & Hp & Ha & Hu).
    exists (x :: before), m, after. cbn [app List.length update_at].
    split; [reflexivity|]. split; [congruence|]. split; [exact Hp|].
    split; [exact Ha|]. intros t p f. now rewrite Hu.
  - destruct (isPartial x) eqn:Hx; [|discriminate].
    intros H. injection H as <-. exists [], x, l.
    repeat split; try assumption.
    clear IH. induction l as [|y l IHl]; [reflexivity|].
    cbn [findLastPartialIdx] in Hj.
    destruct (findLastPartialIdx l); [discriminate|].
    destruct (isPartial y) eqn:Hy; [discriminate|].
    cbn [filter]. rewrite Hy. now apply IHl.
Qed.

Lemma no_partial l :
  findLastPartialIdx l = None -> filter isPartial l = [].
Proof.
  induction l as [|y l IHl]; [reflexivity|].
  cbn [findLastPartialIdx]. destruct (findLastPartialIdx l); [discriminate|].
  destruct (isPartial y) eqn:Hy; [discriminate|].
  intros _. cbn [filter]. rewrite Hy. now apply IHl.
Qed.

Lemma sorted_snoc (l : list nat) (x : nat) :
  StronglySorted lt l -> Forall (fun i => i < x) l ->
  StronglySorted lt (l ++ [x]).
Proof.
  induction 1 as [|a l Hs IH Ha]; intros Hx; cbn [app].
  - repeat constructor.
  - inversion Hx as [|? ? Hax Hlx]; subst. constructor; [now apply IH|].
    apply Forall_app. split; [exact Ha|]. now repeat constructor.
Qed.

(** One placement keeps the transcript well formed. *)
Lemma place_well_formed t (p f : bool) v :
  (p = true -> f = false) ->
  well_formed v ->
  let placed := place t p f v in
  StronglySorted lt (ids (fst placed)) /\
  Forall (fun i => i < snd placed) (ids (fst placed)) /\
  List.length (filter isPartial (fst placed)) <= 1 /\
  Forall (fun m => isPartial m = true -> isFinal m = false) (fst placed).
Proof.
  intros Hpf (Hs & Hb & Hc & Hn). unfold place.
  destruct (findLastPartialIdx (transcriptMessages v)) as [i|] eqn:Hfind;
    cbn [fst snd].
  - destruct (found_partial _ _ Hfind)
      as (before & m & after & Hl & _ & Hp & Ha & Hu).
    rewrite Hu. rewrite Hl in Hs, Hb, Hc, Hn. unfold ids in *.
    rewrite map_app in *. cbn [map id] in *.
    split; [exact Hs|]. split; [exact Hb|]. split.
    + rewrite filter_app in *. cbn [filter] in *. rewrite Hp in Hc.
      cbn [isPartial]. rewrite Ha in *. rewrite length_app in *.
      cbn [List.length] in *. destruct p; cbn [List.length]; lia.
    + apply Forall_app in Hn as (Hn1 & Hn2).
      inversion Hn2 as [|? ? _ Hn3]; subst.
      apply Forall_app. split; [exact Hn1|]. constructor; [exact Hpf|exact Hn3].
  - unfold ids in *. rewrite map_app. cbn [map id].
    split; [now apply sorted_snoc|]. split.
    + apply Forall_app. split.
      * eapply Forall_impl; [|exact Hb]. cbn. lia.
      * repeat constructor.
    + split.
      * rewrite filter_app, (no_partial _ Hfind). cbn.
        destruct p; cbn; lia.
      * apply Forall_app. split; [exact Hn|]. now repeat constructor.
Qed.

Lemma update_well_formed v u :
  well_formed v -> well_formed (apply_update v u).
Proof.
  intros Hv. unfold apply_update, handleSttUpdate.
  destruct (u_text u) as [t|]; [|exact Hv]. cbn [fst].
  unfold well_formed. cbn [transcriptMessages messageIdCounter].
  destruct (u_isPartial u).
  - now apply place_well_formed.
  - destruct (u_isFinal u).
    + now apply place_well_formed.
    + exact Hv.
Qed.

(** X13. Whatever updates arrive, in whatever order, the transcript of
    a fresh view keeps distinct identifiers that increase along the
    list and stay below the counter, holds at most one partial entry,
    and no entry is both partial and final. *)
Theorem transcript_stays_well_formed (updates : list SttUpdate) :
  well_formed (fold_left apply_update updates initial_view).
Proof.
  assert (H : forall v, well_formed v ->
                        well_formed (fold_left apply_update updates v)).
  { induction updates as [|u updates IH]; intros v Hv; [exact Hv|].
    cbn [fold_left]. apply IH. now apply update_well_formed. }
  apply H. unfold well_formed, initial_view, ids. cbn.
  split; [constructor|]. split; [constructor|]. split; [lia|constructor].
Qed.

(** X14. The text offered for copying changes only through final
    updates: a partial update, whether it replaces the pending partial
    entry or adds one, leaves it as it is, and a final update that
    finds no partial entry appends its text as a new entry. *)
Theorem copied_text_follows_finals v :
  well_formed v ->
  (forall t final,
     getTranscriptText (fst (handleSttUpdate (Some t) final true v))
     = getTranscriptText v) /\
  (forall t,
     findLastPartialIdx (transcriptMessages v) = None ->
     filter isFinal
       (transcriptMessages (fst (handleSttUpdate (Some t) true false v)))
     = filter isFinal (transcriptMessages v)
       ++ [{| id := messageIdCounter v; text := t; isPartial := false;
              isFinal := true |}]).
Proof.
  intros (_ & _ & _ & Hn). split.
  - intros t final. unfold getTranscriptText, handleSttUpdate.
    cbn [fst transcriptMessages]. unfold place.
    destruct (findLastPartialIdx (transcriptMessages v)) as [i|] eqn:Hfind;
      cbn [fst].
    + destruct (found_partial _ _ Hfind)
        as (before & m & after & Hl & _ & Hp & _ & Hu).
      rewrite Hu, Hl. rewrite Hl in Hn.
      apply Forall_app in Hn as (_ & Hn2).
      inversion Hn2 as [|? ? Hm _]; subst.
      rewrite !filter_app. cbn [filter isFinal]. now rewrite (Hm Hp).
    + rewrite filter_app. cbn [filter isFinal]. now rewrite app_nil_r.
  - intros t Hfind. unfold handleSttUpdate. cbn [fst transcriptMessages].
    unfold place. rewrite Hfind. cbn [fst]. now rewrite filter_app.
Qed.

(** X15. A final update completes the pending partial entry where it
    stands: the entry keeps its identifier and position and takes the
    new text, no entry is added and the counter does not move, the
    other entries are untouched, and no partial entry is left. *)
Theorem final_update_completes_partial v i t :
  well_formed v ->
  findLastPartialIdx (transcriptMessages v) = Some i ->
  let v' := fst (handleSttUpdate (Some t) true false v) in
  messageIdCounter v' = messageIdCounter v /\
  filter isPartial (transcriptMessages v') = [] /\
  exists before m after,
    transcriptMessages v = before ++ m :: after /\
    List.length before = i /\
    transcriptMessages v'
    = before ++ {| id := id m; text := t; isPartial := false;
                   isFinal := true |} :: after.
Proof.
  intros (_ & _ & Hc & _) Hfind. cbn zeta. unfold handleSttUpdate.
  cbn [fst transcriptMessages messageIdCounter]. unfold place.
  rewrite Hfind. cbn [fst snd].
  destruct (found_partial _ _ Hfind)
    as (before & m & after & Hl & Hlen & Hp & Ha & Hu).
  rewrite Hu. split; [reflexivity|]. split.
  - rewrite Hl in Hc. rewrite filter_app in *. cbn [filter isPartial] in *.
    rewrite Hp, Ha, length_app in Hc. cbn [List.length] in Hc.
    rewrite Ha. destruct (filter isPartial before); [reflexivity|].
    cbn [List.length] in Hc. lia.
  - exists before, m, after. now repeat split.
Qed.

Lemma two_digits n :
  n < 100 ->
  padStart2 (of_Z (Z.of_nat n))
  = (digit (n / 10) ++ digit (n mod 10))%string.
Proof.
  intros Hn.
  assert (Hall : forallb
            (fun k => String.eqb (padStart2 (of_Z (Z.of_nat k)))
                        (digit (k / 10) ++ digit (k mod 10))%string)
            (seq 0 100) = true) by (vm_compute; reflexivity).
  rewrite forallb_forall in Hall.
  apply String.eqb_eq, Hall, in_seq. lia.
Qed.

(** X16. During the first hundred minutes of a capture the timer text
    is always two digits of minutes, a colon and two digits of seconds:
    the tens and units of the whole minutes elapsed and of the seconds
    left over. *)
Theorem timer_shows_minutes_and_seconds (captureStartTime now : Z) :
  (captureStartTime <= now < captureStartTime + 6000000)%Z ->
  let elapsed := Z.to_nat ((now - captureStartTime) / 1000) in
  elapsedTime captureStartTime now
  = (digit (elapsed / 60 / 10) ++ digit ((elapsed / 60) mod 10) ++ ":"
     ++ digit ((elapsed mod 60) / 10) ++ digit ((elapsed mod 60) mod 10))%string
  /\ String.length (elapsedTime captureStartTime now) = 5.
Proof.
  intros Hrange. cbn zeta. unfold elapsedTime.
  set (e := ((now - captureStartTime) / 1000)%Z).
  assert (He : (0 <= e < 6000)%Z).
  { subst e. split.
    - apply Z.div_pos; lia.
    - apply Z.div_lt_upper_bound; lia. }
  assert (Hm : (e / 60)%Z = Z.of_nat (Z.to_nat e / 60)).
  { rewrite Nat2Z.inj_div, Z2Nat.id by lia. reflexivity. }
  assert (Hs : Z.rem e 60 = Z.of_nat (Z.to_nat e mod 60)).
  { rewrite Nat2Z.inj_mod, Z2Nat.id by lia. apply Z.rem_mod_nonneg; lia. }
  rewrite Hm, Hs.
  assert (Hmb : Z.to_nat e / 60 < 100)
    by (apply Nat.Div0.div_lt_upper_bound; lia).
  assert (Hsb : Z.to_nat e mod 60 < 100)
    by (pose proof (Nat.mod_upper_bound (Z.to_nat e) 60); lia).
  rewrite (two_digits _ Hmb), (two_digits _ Hsb).
  split; [|reflexivity].
  unfold digit. reflexivity.
Qed.

Lemma timer_shows_minutes_and_seconds_witness :
  elapsedTime 1000 (1000 + 754321) = "12:34".
Proof.
  apply (timer_shows_minutes_and_seconds 1000 (1000 + 754321)). lia.
Defined.

Lemma pending_view_well_formed : well_formed pending_view.
Proof.
  unfold pending_view, well_formed, ids. cbn.
  split; [repeat constructor|]. split; [repeat constructor|].
  split; [lia|]. repeat constructor; discriminate.
Defined.

Lemma copied_text_follows_finals_witness :
  getTranscriptText
    (fst (handleSttUpdate (Some (Some "how are you")) false true pending_view))
  = "hello".
Proof.
  rewrite (proj1 (copied_text_follows_finals pending_view
                    pending_view_well_formed)).
  reflexivity.
Defined.

Lemma final_update_completes_partial_witness :
  transcriptMessages
    (fst (handleSttUpdate (Some (Some "how are you")) true false pending_view))
  = [mkMessage 0 (Some "hello") false true;
     mkMessage 1 (Some "how are you") false true].
Proof.
  destruct (final_update_completes_partial pending_view 1 (Some "how are you")
              pending_view_well_formed eq_refl)
    as (_ & _ & before & m & after & Hl & Hlen & Hv).
  rewrite Hv. clear Hv.
  destruct before as [|b0 [|b1 before]]; try discriminate.
  cbn in Hl. injection Hl as <- <- <-. reflexivity.
Defined.

(** ** The Copilot provider *)

Import Copilot.

Lemma insert_sorted_perm {A} (cmp : A -> A -> option Z) x l :
  Permutation (insert_sorted cmp x l) (x :: l).
Proof.
  induction l as [|y l IH]; cbn; [reflexivity|].
  destruct (gtC cmp x y); [|reflexivity].
  rewrite IH. apply perm_swap.
Qed.


Lemma gtC_rank a b :
  categoryOrder (_category a) <> None ->
  categoryOrder (_category b) <> None ->
  gtC compare_models a b = (category_rank b <? category_rank a)%Z.
Proof.
  unfold gtC, compare_models, category_rank.
  destruct (categoryOrder (_category a)), (categoryOrder (_category b));
    try congruence.
  intros _ _. destruct (Z.ltb_spec 0 (z - z0)), (Z.ltb_spec z0 z);
    try reflexivity; lia.
Qed.

Lemma consistent_ranked l :
  Forall (fun m => categoryOrder (_category m) <> None) l ->
  consistent compare_models l = true.
Proof.
  intros Hall. rewrite Forall_forall in Hall. unfold consistent.
  apply forallb_forall. intros a Ha.
  pose proof (Hall a Ha) as Hra.
  apply andb_true_intro. split.
  { unfold eqC, compare_models.
    destruct (categoryOrder (_category a)); [|congruence].
    apply Z.eqb_eq. lia. }
  apply forallb_forall. intros b Hb. pose proof (Hall b Hb) as Hrb.
  unfold eqC, ltC, gtC, compare_models.
  destruct (categoryOrder (_category a)) as [x|]; [|congruence].
  destruct (categoryOrder (_category b)) as [y|]; [|congruence].
  apply andb_true_intro. split.
  { cbn. destruct (Z.eqb_spec (x - y) 0); [|reflexivity].
    apply Z.eqb_eq. lia. }
  apply forallb_forall. intros c Hc. pose proof (Hall c Hc) as Hrc.
  destruct (categoryOrder (_category c)) as [z|]; [|congruence].
  repeat (apply andb_true_intro; split).
  - destruct (Z.eqb_spec (x - y) 0), (Z.eqb_spec (y - z) 0); cbn;
      try reflexivity. apply Z.eqb_eq. lia.
  - destruct (Z.ltb_spec (x - y) 0), (Z.ltb_spec (y - z) 0); cbn;
      try reflexivity. apply Z.ltb_lt. lia.
  - destruct (Z.ltb_spec 0 (x - y)), (Z.ltb_spec 0 (y - z)); cbn;
      try reflexivity. apply Z.ltb_lt. lia.
Qed.

Lemma insert_sorted_sorted x l :
  categoryOrder (_category x) <> None ->
  Forall (fun m => categoryOrder (_category m) <> None) l ->
  StronglySorted by_rank l ->
  StronglySorted by_rank (insert_sorted compare_models x l).
Proof.
  intros Hx Hall Hs. induction Hs as [|y l Hs IH Hy]; cbn.
  { repeat constructor. }
  inversion Hall as [|? ? Hry Hall']; subst.
  rewrite (gtC_rank _ _ Hx Hry).
  destruct (Z.ltb_spec (category_rank y) (category_rank x)).
  - constructor; [now apply IH|].
    rewrite (insert_sorted_perm compare_models x l).
    constructor; [unfold by_rank; lia | exact Hy].
  - constructor; [now constructor|].
    constructor; [exact H|].
    eapply Forall_impl; [|exact Hy]. unfold by_rank. intros; lia.
Qed.

Lemma insert_sorted_stable r x l :
  categoryOrder (_category x) <> None ->
  Forall (fun m => categoryOrder (_category m) <> None) l ->
  filter (fun m => (category_rank m =? r)%Z) (insert_sorted compare_models x l)
  = filter (fun m => (category_rank m =? r)%Z) (x :: l).
Proof.
  intros Hx Hall. induction Hall as [|y l Hry Hall IH]; [reflexivity|].
  cbn [insert_sorted]. rewrite (gtC_rank _ _ Hx Hry).
  destruct (Z.ltb_spec (category_rank y) (category_rank x)); [|reflexivity].
  cbn [filter] in *. rewrite IH.
  destruct (Z.eqb_spec (category_rank x) r), (Z.eqb_spec (category_rank y) r);
    try reflexivity. lia.
Qed.

Lemma sorted_fold l :
  Forall (fun m => categoryOrder (_category m) <> None) l ->
  Forall (fun m => categoryOrder (_category m) <> None)
    (fold_right (insert_sorted compare_models) [] l) /\
  StronglySorted by_rank (fold_right (insert_sorted compare_models) [] l) /\
  forall r, filter (fun m => (category_rank m =? r)%Z)
              (fold_right (insert_sorted compare_models) [] l)
            = filter (fun m => (category_rank m =? r)%Z) l.
Proof.
  intros Hall. induction Hall as [|x l Hx Hall (IH1 & IH2 & IH3)].
  { cbn. repeat split; constructor. }
  cbn [fold_right]. split; [|split].
  - rewrite (insert_sorted_perm compare_models x). now constructor.
  - now apply insert_sorted_sorted.
  - intros r. rewrite (insert_sorted_stable r x _ Hx IH1).
    cbn [filter]. now rewrite IH3.
Qed.

(** X17. When no category of the endpoint names a member of
    Object.prototype, the catalogue is the chat-enabled entries sorted
    by category: lightweight, versatile, powerful, then every other,
    and inside one category the entries keep the order of the
    endpoint. *)
Theorem catalogue_sorted_by_category (rawModels : list RawModel) :
  Forall ranked rawModels ->
  exists l,
    modelList rawModels = Some l /\
    StronglySorted by_rank l /\
    forall r,
      filter (fun m => (category_rank m =? r)%Z) l
      = filter (fun m => (category_rank m =? r)%Z)
          (map to_entry (filter chat_enabled rawModels)).
Proof.
  intros Hall.
  assert (Hr : Forall (fun m => categoryOrder (_category m) <> None)
                 (map to_entry (filter chat_enabled rawModels))).
  { apply Forall_map. apply Forall_forall. intros m Hm.
    apply filter_In in Hm as (Hm & _).
    rewrite Forall_forall in Hall. exact (Hall m Hm). }
  unfold modelList, Array_sort.
  destruct (sorted_fold _ Hr) as (_ & Hs & Hst).
  destruct (List.length (map to_entry (filter chat_enabled rawModels)) <=? 1)
    eqn:Hlen.
  - eexists. split; [reflexivity|]. split; [|reflexivity].
    destruct (map to_entry (filter chat_enabled rawModels)) as [|a [|b l]];
      try discriminate; repeat constructor.
  - rewrite (consistent_ranked _ Hr). eexists. split; [reflexivity|].
    split; [exact Hs | exact Hst].
Qed.

Lemma catalogue_sorted_by_category_witness :
  exists l,
    modelList sample_models = Some l /\
    StronglySorted by_rank l /\
    forall r,
      filter (fun m => (category_rank m =? r)%Z) l
      = filter (fun m => (category_rank m =? r)%Z)
          (map to_entry (filter chat_enabled sample_models)).
Proof.
  apply (catalogue_sorted_by_category sample_models).
  repeat constructor; discriminate.
Defined.







(** X19. A Copilot token obtained by an exchange is served from the
    cache until sixty seconds before it expires: any later call inside
    that window sends no request and returns the same token and
    endpoint, whichever GitHub token it is made for. *)
Theorem copilot_token_reused_until_expiry now githubToken t e api c
    now' githubToken' answer' :
  token_fresh now c = false ->
  Js.truthy t = true ->
  (now' < e * 1000 - 60000)%Z ->
  exists c1,
    getCopilotApiToken now githubToken (ExData (Some t) (Some e) api) c
    = (Returned (Some t, or_else api COPILOT_CHAT_FALLBACK), c1,
       [TokenExchange githubToken]) /\
    getCopilotApiToken now' githubToken' answer' c1
    = (Returned (Some t, or_else api COPILOT_CHAT_FALLBACK), c1, []).
Proof.
  intros Hstale Ht Hnow. unfold getCopilotApiToken at 1. rewrite Hstale.
  eexists. split; [reflexivity|].
  unfold getCopilotApiToken, token_fresh.
  cbn [_cachedToken _cachedExpiry _cachedEndpoint or_else]. rewrite !Ht.
  destruct (Z.ltb_spec now' (e * 1000 - 60000)); [reflexivity | lia].
Qed.

Lemma copilot_token_reused_until_expiry_witness :
  exists c1,
    getCopilotApiToken 1000 "gho_a" (ExData (Some "tok") (Some 1800%Z) None)
      initial_cache
    = (Returned (Some "tok", COPILOT_CHAT_FALLBACK), c1,
       [TokenExchange "gho_a"]) /\
    getCopilotApiToken 1739999 "gho_b" (ExRejected "offline") c1
    = (Returned (Some "tok", COPILOT_CHAT_FALLBACK), c1, []).
Proof.
  apply (copilot_token_reused_until_expiry 1000 "gho_a" "tok" 1800 None
           initial_cache 1739999 "gho_b" (ExRejected "offline")).
  - reflexivity.
  - reflexivity.
  - lia.
Defined.

(** A call of [getCopilotApiToken] that throws found no usable
    token in the cache, has sent exactly one exchange request, and
    leaves the caches as they were. *)
Lemma failed_exchange_keeps_cache now githubToken answer c e c1 tr :
  getCopilotApiToken now githubToken answer c = (Thrown e, c1, tr) ->
  c1 = c /\ tr = [TokenExchange githubToken] /\ token_fresh now c = false.
Proof.
  unfold getCopilotApiToken.
  destruct (token_fresh now c) eqn:Hf; [discriminate|].
  destruct answer; intros [= <- <- <-]; now repeat split.
Qed.







Lemma fold_without_prompt parts : forall userContent,
  Forall (fun p => is_prompt p = false) parts ->
  fold_left take_part parts (None, userContent)
  = (None, userContent ++ flat_map content_of parts).
Proof.
  induction parts as [|p parts IH]; intros uc Hall; cbn [fold_left flat_map].
  { now rewrite app_nil_r. }
  inversion Hall as [|? ? Hp Hall']; subst.
  destruct p as [s|mimeType data|]; cbn [take_part or_else is_prompt] in *.
  - rewrite Hp, andb_false_r, IH by assumption. cbn. now rewrite <- app_assoc.
  - rewrite IH by assumption. cbn. now rewrite <- app_assoc.
  - now rewrite IH.
Qed.

Lemma fold_after_prompt s parts : forall userContent,
  Js.truthy s = true ->
  fold_left take_part parts (Some s, userContent)
  = (Some s, userContent ++ flat_map content_of parts).
Proof.
  intros uc Hs. revert uc.
  induction parts as [|p parts IH]; intros uc; cbn [fold_left flat_map].
  { now rewrite app_nil_r. }
  destruct p as [t|mimeType data|]; cbn [take_part or_else].
  - rewrite !Hs. cbn [negb andb]. rewrite IH. cbn. now rewrite <- app_assoc.
  - rewrite IH. cbn. now rewrite <- app_assoc.
  - now rewrite IH.
Qed.

Lemma includes_nonempty s :
  Js.includes "You are" s = true -> Js.truthy s = true.
Proof. destruct s; [discriminate | reflexivity]. Qed.

(** X22. [generateContent] takes the first text part that holds the
    words [You are] as the system message and nothing else: every
    other part, later texts with those words included, goes into the
    one user message in the order given, which is left out when it
    would be empty; without such a text there is no system message. *)
Theorem first_prompt_text_is_system_message (before after : list Part)
    (s : string) :
  Forall (fun p => is_prompt p = false) before ->
  Js.includes "You are" s = true ->
  generateContent_messages (before ++ PText s :: after)
  = SystemMessage s :: user_message (flat_map content_of (before ++ after))
  /\ generateContent_messages before
     = user_message (flat_map content_of before).
Proof.
  intros Hbefore Hs. pose proof (includes_nonempty s Hs) as Ht.
  unfold generateContent_messages. split.
  - rewrite fold_left_app, (fold_without_prompt before [] Hbefore).
    cbn [fold_left take_part or_else app]. rewrite Hs.
    cbn [negb andb Js.truthy].
    rewrite (fold_after_prompt s after _ Ht). cbn [or_else].
    rewrite !Ht. now rewrite flat_map_app.
  - now rewrite (fold_without_prompt before [] Hbefore).
Qed.

Lemma first_prompt_text_is_system_message_witness :
  generateContent_messages
    ([PImage "image/png" "AAAA"; PText "hello"]
     ++ PText "You are terse." :: [PText "You are late"; POther])
  = [SystemMessage "You are terse.";
     UserMessage [ImageUrl "data:image/png;base64,AAAA"; TextContent "hello";
                  TextContent "You are late"]].
Proof.
  apply (proj1 (first_prompt_text_is_system_message
                  [PImage "image/png" "AAAA"; PText "hello"]
                  [PText "You are late"; POther] "You are terse."
                  ltac:(repeat constructor) eq_refl)).
Defined.

(** X23. [validateApiKey] reports success exactly when the token is a
    non-empty string and both checks answer with an ok status.  The
    Copilot entitlement is asked only after the GitHub check passed,
    no request is sent for a token that is missing or empty, and every
    failure carries an error text. *)
Theorem validation_needs_both_checks (token : option string)
    (userResp copilotResp : Reply) :
  let r := validateApiKey token userResp copilotResp in
  (success (fst r) = true <->
   exists t s1 s2,
     token = Some t /\ Js.truthy t = true /\
     userResp = RpStatus true s1 /\ copilotResp = RpStatus true s2) /\
  (forall t, In (EntitlementCheck t) (snd r) ->
     token = Some t /\ snd r = [UserCheck t; EntitlementCheck t] /\
     exists s1, userResp = RpStatus true s1) /\
  (snd r <> [] -> exists t, token = Some t /\ Js.truthy t = true) /\
  (success (fst r) = false -> error (fst r) <> None).
Proof.
  cbn zeta. unfold validateApiKey.
  destruct token as [t|]; [destruct (Js.truthy t) eqn:Ht; cbn [negb]|];
    [destruct userResp as [e|[|] s1];
     [|destruct copilotResp as [e|[|] s2]|]| |];
    cbn [fst snd success error]; (split; [|split; [|split]]).
  all: try (split; [discriminate|];
            intros (t0 & s1' & s2' & H1 & H2 & H3 & H4); congruence).
  all: try (split; [intros _; eauto 8 | reflexivity]).
  all: try (intros _; discriminate).
  all: try discriminate.
  all: try (intros t0 Hin; cbn [In] in Hin;
            repeat (destruct Hin as [Hin|Hin]); try discriminate;
            try contradiction; injection Hin as <-; now eauto).
  all: intros Hne; try congruence; eauto.
Qed.

(** ** Device-flow sign-in *)

Import CopilotAuth.

Lemma slow_downs_cons k a rest :
  slow_downs (S k) (a :: rest)
  = ((match verdict a with SlowDown => 1 | _ => 0 end) + slow_downs k rest)%Z.
Proof.
  unfold slow_downs. cbn [firstn filter].
  destruct (verdict a); cbn [List.length]; lia.
Qed.

Lemma turns_cons deviceCode interval a rest k :
  turns deviceCode interval (a :: rest) (S k)
  = [Sleep (interval * 1000); TokenPoll deviceCode]
    ++ turns deviceCode
         (interval + match verdict a with SlowDown => 5 | _ => 0 end)
         rest k.
Proof.
  unfold turns. cbn [seq flat_map].
  replace (slow_downs 0 (a :: rest)) with 0%Z by reflexivity.
  rewrite <- seq_shift, flat_map_concat_map, map_map, <- flat_map_concat_map.
  rewrite Z.mul_0_r, Z.add_0_r. cbn [app]. do 2 f_equal.
  apply flat_map_ext. intros j. rewrite slow_downs_cons.
  do 2 f_equal. destruct (verdict a); lia.
Qed.

Lemma turns_one deviceCode interval replies :
  turns deviceCode interval replies 1
  = [Sleep (interval * 1000); TokenPoll deviceCode].
Proof.
  unfold turns. cbn [seq flat_map].
  replace (slow_downs 0 replies) with 0%Z by (now destruct replies).
  now rewrite Z.mul_0_r, Z.add_0_r.
Qed.

Lemma poll_loop_turns deviceCode bound replies : forall i interval,
  exists k,
    snd (poll_loop deviceCode bound i interval replies)
    = turns deviceCode interval replies k /\
    k <= S (List.length replies) /\
    (forall n, bound = Attempts n -> (Z.of_nat k <= Z.max 0 (n - i))%Z).
Proof.
  induction replies as [|a rest IH]; intros i interval; cbn [poll_loop].
  - destruct (below i bound) eqn:Hb.
    + exists 1. rewrite turns_one. repeat split; [cbn; lia|].
      intros n ->. cbn in Hb. apply Z.ltb_lt in Hb. lia.
    + exists 0. repeat split; [cbn; lia|]. intros; lia.
  - destruct (below i bound) eqn:Hb.
    2:{ exists 0. repeat split; [cbn; lia|]. intros; lia. }
    assert (Hone : forall n, bound = Attempts n -> (1 <= Z.max 0 (n - i))%Z).
    { intros n ->. cbn in Hb. apply Z.ltb_lt in Hb. lia. }
    destruct (verdict a) eqn:Hv.
    + exists 1. rewrite turns_one. repeat split; [cbn; lia|].
      intros n Hn. now apply Hone.
    + exists 1. rewrite turns_one. repeat split; [cbn; lia|].
      intros n Hn. now apply Hone.
    + destruct (IH (i + 1)%Z interval) as (k & Hk & Hlen & Hbound).
      exists (S k). rewrite turns_cons, Hv, Z.add_0_r, <- Hk.
      destruct (poll_loop deviceCode bound (i + 1) interval rest)
        as [[res polling] tr]. cbn [after snd].
      repeat split; [cbn [List.length]; lia|].
      intros n Hn. specialize (Hbound n Hn). specialize (Hone n Hn). lia.
    + destruct (IH (i + 1)%Z (interval + 5)%Z) as (k & Hk & Hlen & Hbound).
      exists (S k). rewrite turns_cons, Hv, <- Hk.
      destruct (poll_loop deviceCode bound (i + 1) (interval + 5) rest)
        as [[res polling] tr]. cbn [after snd].
      repeat split; [cbn [List.length]; lia|].
      intros n Hn. specialize (Hbound n Hn). specialize (Hone n Hn). lia.
Qed.

(** X24. The number of polls is fixed before the loop starts: for an
    interval other than zero, [_pollForToken] sends at most
    floor(expiresIn / interval) requests, each after a sleep, and the
    sleep before a request is the interval plus five seconds for every
    earlier answer that asked to slow down.  Backing off lengthens the
    waits and does not lower the number of attempts. *)
Theorem poll_backs_off_within_fixed_bound deviceCode interval expiresIn
    replies :
  interval <> 0%Z ->
  exists k,
    snd (_pollForToken deviceCode interval expiresIn replies)
    = turns deviceCode interval replies k /\
    (Z.of_nat k <= Z.max 0 (expiresIn / interval))%Z /\
    k <= S (List.length replies).
Proof.
  intros Hi. unfold _pollForToken.
  destruct (poll_loop_turns deviceCode (maxAttempts expiresIn interval)
              replies 0%Z interval) as (k & Hk & Hlen & Hbound).
  exists k. repeat split; try assumption.
  unfold maxAttempts in Hbound.
  destruct (Z.eqb_spec interval 0); [contradiction|].
  specialize (Hbound _ eq_refl). lia.
Qed.

Lemma poll_backs_off_within_fixed_bound_witness :
  exists k,
    snd (_pollForToken "dev" 5 900
           [PollData None (Some "slow_down");
            PollData None (Some "authorization_pending");
            PollData (Some "gho_a") None])
    = turns "dev" 5
        [PollData None (Some "slow_down");
         PollData None (Some "authorization_pending");
         PollData (Some "gho_a") None] k /\
    (Z.of_nat k <= Z.max 0 (900 / 5))%Z /\
    k <= 4.
Proof.
  apply (poll_backs_off_within_fixed_bound "dev" 5 900
           [PollData None (Some "slow_down");
            PollData None (Some "authorization_pending");
            PollData (Some "gho_a") None]).
  discriminate.
Defined.

Lemma poll_loop_waiting deviceCode bound waiting a rest :
  forall i interval,
  Forall (fun x => decisive x = false) waiting ->
  below (i + Z.of_nat (List.length waiting)) bound = true ->
  (forall j, (i <= j <= i + Z.of_nat (List.length waiting))%Z ->
             below j bound = true) ->
  decisive a = true ->
  fst (poll_loop deviceCode bound i interval (waiting ++ a :: rest))
  = (match verdict a with Granted t => Token t | _ => Null end, true).
Proof.
  induction waiting as [|w waiting IH]; intros i interval Hall Hb Hbelow Ha.
  - cbn [app poll_loop]. rewrite (Hbelow i) by (cbn; lia).
    unfold decisive in Ha. destruct (verdict a); try discriminate; reflexivity.
  - inversion Hall as [|? ? Hw Hall']; subst.
    cbn [app poll_loop]. rewrite (Hbelow i) by (cbn [List.length]; lia).
    unfold decisive in Hw.
    assert (Hnext : forall interval',
              fst (poll_loop deviceCode bound (i + 1) interval'
                     (waiting ++ a :: rest))
              = (match verdict a with Granted t => Token t | _ => Null end,
                 true)).
    { intros interval'. apply IH; try assumption.
      - replace (i + 1 + Z.of_nat (List.length waiting))%Z
          with (i + Z.of_nat (List.length (w :: waiting)))%Z
          by (cbn [List.length]; lia). exact Hb.
      - intros j Hj. apply Hbelow. cbn [List.length]. lia. }
    destruct (verdict w); try discriminate.
    + specialize (Hnext interval).
      destruct (poll_loop deviceCode bound (i + 1) interval
                  (waiting ++ a :: rest)) as [[res polling] tr].
      exact Hnext.
    + specialize (Hnext (interval + 5)%Z).
      destruct (poll_loop deviceCode bound (i + 1) (interval + 5)
                  (waiting ++ a :: rest)) as [[res polling] tr].
      exact Hnext.
Qed.

Lemma below_monotone bound i j :
  (0 <= j <= i)%Z -> below i bound = true -> below j bound = true.
Proof.
  destruct bound as [n|]; cbn; [|reflexivity].
  intros Hj Hi. apply Z.ltb_lt in Hi. apply Z.ltb_lt. lia.
Qed.

(** X25. The first answer that grants a token or ends the flow decides
    the poll, provided it arrives within the attempts allowed: the
    poll returns that token, or null for an expired or denied flow,
    whatever was answered before (pending, slow down, unknown errors,
    failed requests) and whatever would be answered after; and
    [_polling] is left set. *)
Theorem first_decisive_answer_wins deviceCode interval expiresIn
    (waiting : list PollAnswer) (a : PollAnswer) (rest : list PollAnswer) :
  Forall (fun x => decisive x = false) waiting ->
  decisive a = true ->
  below (Z.of_nat (List.length waiting)) (maxAttempts expiresIn interval)
  = true ->
  fst (_pollForToken deviceCode interval expiresIn (waiting ++ a :: rest))
  = (match verdict a with Granted t => Token t | _ => Null end, true).
Proof.
  intros Hall Ha Hb. unfold _pollForToken.
  apply poll_loop_waiting; try assumption.
  intros j Hj. eapply below_monotone; [|exact Hb]. lia.
Qed.

Lemma first_decisive_answer_wins_witness :
  fst (_pollForToken "dev" 5 900
         ([PollData None (Some "authorization_pending"); PollFailed "offline";
           PollData None (Some "slow_down")]
          ++ PollData (Some "gho_a") (Some "slow_down")
             :: [PollData None (Some "access_denied")]))
  = (Token "gho_a", true).
Proof.
  apply (first_decisive_answer_wins "dev" 5 900
           [PollData None (Some "authorization_pending"); PollFailed "offline";
            PollData None (Some "slow_down")]
           (PollData (Some "gho_a") (Some "slow_down"))
           [PollData None (Some "access_denied")]).
  - repeat constructor.
  - reflexivity.
  - reflexivity.
Defined.

Lemma poll_loop_exhausted deviceCode n : forall replies i interval,
  Forall (fun x => decisive x = false) replies ->
  (0 <= n - i)%Z ->
  (n - i <= Z.of_nat (List.length replies))%Z ->
  poll_loop deviceCode (Attempts n) i interval replies
  = (Null, false, turns deviceCode interval replies (Z.to_nat (n - i))).
Proof.
  induction replies as [|a rest IH]; intros i interval Hall Hlo Hhi.
  - cbn [List.length] in Hhi. cbn [poll_loop below].
    destruct (Z.ltb_spec i n); [lia|].
    replace (n - i)%Z with 0%Z by lia. reflexivity.
  - cbn [poll_loop below]. destruct (Z.ltb_spec i n).
    2:{ replace (n - i)%Z with 0%Z by lia. reflexivity. }
    inversion Hall as [|? ? Ha Hall']; subst.
    replace (Z.to_nat (n - i)) with (S (Z.to_nat (n - (i + 1)))) by lia.
    rewrite turns_cons. unfold decisive in Ha.
    cbn [List.length] in Hhi.
    destruct (verdict a); try discriminate.
    + rewrite (IH (i + 1)%Z interval) by (try assumption; lia).
      cbn [after]. now rewrite Z.add_0_r.
    + rewrite (IH (i + 1)%Z (interval + 5)%Z) by (try assumption; lia).
      reflexivity.
Qed.

(** X26. When none of the replies grants a token or ends the flow, the
    poll gives up after exactly floor(expiresIn / interval) requests:
    it returns null and clears [_polling], the only exit that does. *)
Theorem poll_gives_up_after_bound deviceCode interval expiresIn replies :
  interval <> 0%Z ->
  Forall (fun x => decisive x = false) replies ->
  (0 <= expiresIn / interval <= Z.of_nat (List.length replies))%Z ->
  _pollForToken deviceCode interval expiresIn replies
  = (Null, false,
     turns deviceCode interval replies (Z.to_nat (expiresIn / interval))).
Proof.
  intros Hi Hall Hn. unfold _pollForToken, maxAttempts.
  destruct (Z.eqb_spec interval 0); [contradiction|].
  rewrite (poll_loop_exhausted deviceCode (expiresIn / interval) replies 0
             interval Hall) by lia.
  now rewrite Z.sub_0_r.
Qed.

Lemma poll_gives_up_after_bound_witness :
  _pollForToken "dev" 5 12
    [PollData None (Some "slow_down"); PollFailed "offline";
     PollData None (Some "authorization_pending")]
  = (Null, false,
     [Sleep 5000; TokenPoll "dev"; Sleep 10000; TokenPoll "dev"]).
Proof.
  apply (poll_gives_up_after_bound "dev" 5 12
           [PollData None (Some "slow_down"); PollFailed "offline";
            PollData None (Some "authorization_pending")]).
  - discriminate.
  - repeat constructor.
  - cbn. lia.
Defined.





(** ** Keyboard shortcuts *)

Import Shortcuts.

Lemma get_set_same k v o : get k (set k v o) = v.
Proof.
  induction o as [|[k' v'] o IH]; cbn.
  - now rewrite String.eqb_refl.
  - destruct (String.eqb k' k) eqn:E; cbn; now rewrite E.
Qed.

Lemma get_set_other k k' v o : k <> k' -> get k (set k' v o) = get k o.
Proof.
  intros Hne. induction o as [|[k0 v0] o IH]; cbn.
  - destruct (String.eqb_spec k' k); [congruence | reflexivity].
  - destruct (String.eqb_spec k0 k'); cbn.
    + subst. destruct (String.eqb_spec k' k); [congruence | reflexivity].
    + now rewrite IH.
Qed.

Lemma get_assign_other k k' v o : k <> k' -> get k (assign k' v o) = get k o.
Proof.
  intros Hne. unfold assign. destruct (String.eqb k' "__proto__");
    [reflexivity | now apply get_set_other].
Qed.

Lemma fill_defaults ds :
  Forall (fun d => truthy (snd d) = true /\ fst d <> "__proto__") ds ->
  forall keybinds needsUpdate,
    (forall d, In d ds ->
       truthy (get (fst d) (fst (fold_left fill ds (keybinds, needsUpdate))))
       = true) /\
    (forall a, truthy (get a keybinds) = true ->
       get a (fst (fold_left fill ds (keybinds, needsUpdate)))
       = get a keybinds) /\
    snd (fold_left fill ds (keybinds, needsUpdate))
    = needsUpdate || existsb (missing keybinds) ds.
Proof.
  induction 1 as [|d ds (Hd & Hk) Hall IH]; intros keybinds needsUpdate.
  { cbn. repeat split; [intros ? [] | now rewrite orb_false_r]. }
  cbn [fold_left existsb]. unfold fill at 2 4 6, missing at 1.
  destruct (truthy (get (fst d) keybinds)) eqn:Hget; cbn [negb].
  - destruct (IH keybinds needsUpdate) as (IH1 & IH2 & IH3).
    repeat split.
    + intros d' [<-|Hin]; [|now apply IH1].
      rewrite (IH2 _ Hget). exact Hget.
    + exact IH2.
    + rewrite IH3. reflexivity.
  - destruct (IH (assign (fst d) (snd d) keybinds) true) as (IH1 & IH2 & IH3).
    assert (Hnew : get (fst d) (assign (fst d) (snd d) keybinds) = snd d).
    { unfold assign. destruct (String.eqb_spec (fst d) "__proto__");
        [contradiction|]. apply get_set_same. }
    repeat split.
    + intros d' [<-|Hin]; [|now apply IH1].
      rewrite IH2; rewrite Hnew; exact Hd.
    + intros a Ha.
      assert (Hne : a <> fst d) by (intros ->; congruence).
      rewrite IH2; rewrite (get_assign_other _ _ _ _ Hne); [reflexivity|].
      exact Ha.
    + rewrite IH3. now rewrite orb_true_r.
Qed.

Lemma defaults_plain isMac :
  entries (getDefaultKeybinds isMac) = getDefaultKeybinds isMac /\
  Forall (fun d => truthy (snd d) = true /\ fst d <> "__proto__")
    (getDefaultKeybinds isMac) /\
  forall d, In d (getDefaultKeybinds isMac) ->
            get (fst d) (getDefaultKeybinds isMac) = snd d.
Proof.
  destruct isMac; (split; [vm_compute; reflexivity|]); split.
  1,3: repeat constructor; cbn; discriminate.
  all: intros d Hin; cbn in Hin;
    repeat (destruct Hin as [<-|Hin]; [vm_compute; reflexivity|]);
    contradiction.
Qed.

(** X28. What [loadKeybinds] returns has a non-empty accelerator for
    every default action; a non-empty accelerator found in the table
    is kept as it is, under whatever action; the table is written
    exactly when it was empty or a default action had no accelerator
    in it, and what is written is the object returned, row by row. *)
Theorem loaded_keybinds_cover_defaults env keybinds tr :
  loadKeybinds env = Done keybinds tr ->
  (forall d, In d (getDefaultKeybinds (isMac env)) ->
     truthy (get (fst d) keybinds) = true) /\
  (forall rows a,
     getAllKeybinds env = inr (Some rows) ->
     truthy (get a (object_of rows)) = true ->
     get a keybinds = get a (object_of rows)) /\
  (forall rows, In (UpsertKeybinds rows) tr -> rows = rows_of keybinds) /\
  ((exists rows, In (UpsertKeybinds rows) tr) <->
   match getAllKeybinds env with
   | inr (Some (r :: rows)) =>
       existsb (missing (object_of (r :: rows)))
         (getDefaultKeybinds (isMac env)) = true
   | _ => True
   end).
Proof.
  destruct (defaults_plain (isMac env)) as (Hent & Hall & Hown).
  unfold loadKeybinds.
  destruct (getAllKeybinds env) as [e|[[|r rows]|]] eqn:Hstored;
    try discriminate.
  1,3: unfold saveKeybinds, and_after;
    destruct (upsertKeybinds env _); [discriminate|];
    intros [= <- <-]; repeat split;
    [ intros d Hin; rewrite (Hown d Hin);
      rewrite Forall_forall in Hall; exact (proj1 (Hall d Hin))
    | intros rows0 a Heq; try discriminate Heq; injection Heq as <-;
      cbn; discriminate
    | intros rows0 [H|[H|[]]]; [discriminate | now injection H as <-]
    | intros _; eexists; right; left; reflexivity ].
  cbn zeta. rewrite Hent.
  destruct (fill_defaults _ Hall (object_of (r :: rows)) false)
    as (H1 & H2 & H3).
  destruct (fold_left fill (getDefaultKeybinds (isMac env))
              (object_of (r :: rows), false)) as [kb needs].
  cbn [fst snd orb] in H1, H2, H3. subst needs.
  destruct (existsb (missing (object_of (r :: rows)))
              (getDefaultKeybinds (isMac env))) eqn:Hmiss.
  - unfold saveKeybinds, and_after.
    destruct (upsertKeybinds env _); [discriminate|].
    intros [= <- <-]. repeat split; try assumption.
    + intros rows0 a [= <-]. apply H2.
    + intros rows0 [H|[H|[]]]; [discriminate | now injection H as <-].
    + intros _. eexists. right. left. reflexivity.
  - cbn [and_after app]. intros [= <- <-]. repeat split; try assumption.
    + intros rows0 a [= <-]. apply H2.
    + intros rows0 [H|[]]. discriminate.
    + intros (rows0 & [H|[]]). discriminate.
    + discriminate.
Qed.

Lemma loaded_keybinds_cover_defaults_witness :
  (forall d, In d (getDefaultKeybinds false) ->
     truthy (get (fst d) sample_loaded) = true) /\
  get "nextStep" sample_loaded = Some "Ctrl+J" /\
  get "quitApp" sample_loaded = Some "Ctrl+Q".
Proof.
  destruct (loaded_keybinds_cover_defaults sample_env sample_loaded
              [GetAllKeybinds; UpsertKeybinds (rows_of sample_loaded)]
              eq_refl) as (Hall & _).
  split; [exact Hall|]. split; reflexivity.
Defined.

Lemma and_after_done {A B} (r : Run A) (k : A -> Run B) b tr :
  and_after r k = Done b tr ->
  exists a tr1 tr2, r = Done a tr1 /\ k a = Done b tr2 /\ tr = tr1 ++ tr2.
Proof.
  unfold and_after. destruct r as [a tr1|e tr1]; [|discriminate].
  destruct (k a) as [b' tr2|e tr2] eqn:Hk; [|discriminate].
  intros [= <- <-]. eauto 6.
Qed.

Lemma register_toggle_done env keybinds a tr :
  get "toggleVisibility" keybinds = Some a ->
  Js.truthy a = true ->
  register_toggle env keybinds = Done tt tr ->
  tr = [Register a ToggleAllWindows].
Proof.
  unfold register_toggle, register. intros -> ->.
  destruct (register_throws env a); [discriminate|]. now intros [= <-].
Qed.

Lemma loaded_toggle env keybinds tr :
  loadKeybinds env = Done keybinds tr ->
  exists a, get "toggleVisibility" keybinds = Some a /\ Js.truthy a = true.
Proof.
  unfold loadKeybinds.
  destruct (defaults_plain (isMac env)) as (Hent & Hall & Hown).
  assert (Hin : exists v, In ("toggleVisibility", v)
                            (getDefaultKeybinds (isMac env))).
  { eexists. cbn. do 4 right. left. reflexivity. }
  destruct Hin as (v & Hin).
  assert (Hgoal : forall kb,
            truthy (get "toggleVisibility" kb) = true ->
            exists a, get "toggleVisibility" kb = Some a
                      /\ Js.truthy a = true).
  { intros kb Hkb. destruct (get "toggleVisibility" kb) as [a|];
      [eauto | discriminate]. }
  destruct (getAllKeybinds env) as [e|[[|r rows]|]]; try discriminate.
  1,3: unfold saveKeybinds, and_after;
    destruct (upsertKeybinds env _); [discriminate|];
    intros [= <- <-]; apply Hgoal;
    pose proof (Hown _ Hin) as Hv; cbn [fst snd] in Hv; rewrite Hv;
    rewrite Forall_forall in Hall; exact (proj1 (Hall _ Hin)).
  cbn zeta. rewrite Hent.
  destruct (fill_defaults _ Hall (object_of (r :: rows)) false)
    as (H1 & _ & _).
  destruct (fold_left fill (getDefaultKeybinds (isMac env))
              (object_of (r :: rows), false)) as [kb needs].
  cbn [fst] in H1. intros Hrun.
  assert (keybinds = kb) as ->.
  { destruct needs; unfold saveKeybinds, and_after in Hrun;
      [destruct (upsertKeybinds env _); [discriminate|]|];
      now injection Hrun as <- _. }
  apply Hgoal. exact (H1 _ Hin).
Qed.

(** X29. Hiding all windows leaves one shortcut alive, the one that
    brings them back: when the windows are visible and the toggle
    completes, the request to hide is emitted first, every shortcut is
    unregistered, the keybinds are sent to the windows, and the single
    registration made afterwards binds the accelerator of
    [toggleVisibility], which [loadKeybinds] always provides, to the
    toggle of all windows; the flag is then cleared. *)
Theorem hiding_keeps_only_the_toggle env s s' tr :
  windowPool s = true ->
  allWindowVisibility s = true ->
  toggleAllWindowsVisibility env s = (s', Done tt tr) ->
  allWindowVisibility s' = false /\
  exists keybinds loaded a,
    loadKeybinds env = Done keybinds loaded /\
    get "toggleVisibility" keybinds = Some a /\ Js.truthy a = true /\
    tr = RequestToggleAllWindowsVisibility false
         :: loaded
         ++ [UnregisterAll; SendToRenderer "shortcuts-updated" keybinds;
             Register a ToggleAllWindows].
Proof.
  intros Hpool Hvis. unfold toggleAllWindowsVisibility.
  rewrite Hvis. cbn [negb].
  destruct (and_after _ _) as [[] tr0|e tr0] eqn:Hrun.
  2: discriminate.
  intros [= <- <-]. split; [reflexivity|].
  apply and_after_done in Hrun as ([] & tr1 & tr2 & [= <-] & Hreg & ->).
  unfold registerShortcuts in Hreg. rewrite Hpool in Hreg. cbn [negb] in Hreg.
  apply and_after_done in Hreg as (kb & loaded & tr3 & Hload & Hreg & ->).
  apply and_after_done in Hreg as ([] & tr4 & tr5 & [= <-] & Hreg & ->).
  destruct (loaded_toggle _ _ _ Hload) as (a & Ha & Hta).
  rewrite (register_toggle_done _ _ _ _ Ha Hta Hreg).
  exists kb, loaded, a. repeat split; try assumption.
Qed.

Lemma hiding_keeps_only_the_toggle_witness :
  snd (toggleAllWindowsVisibility sample_env (mkService true true))
  = Done tt
      (RequestToggleAllWindowsVisibility false
       :: [GetAllKeybinds; UpsertKeybinds (rows_of sample_loaded)]
       ++ [UnregisterAll; SendToRenderer "shortcuts-updated" sample_loaded;
           Register "Ctrl+\" ToggleAllWindows]).
Proof.
  destruct (hiding_keeps_only_the_toggle sample_env (mkService true true)
              (mkService true false)
              (RequestToggleAllWindowsVisibility false
               :: [GetAllKeybinds; UpsertKeybinds (rows_of sample_loaded)]
               ++ [UnregisterAll;
                   SendToRenderer "shortcuts-updated" sample_loaded;
                   Register "Ctrl+\" ToggleAllWindows])
              eq_refl eq_refl eq_refl) as (_ & _).
  reflexivity.
Defined.

Lemma register_action_done env p :
  exists tr,
    register_action env p = Done tt tr /\
    forall a cb,
      In (Register a cb) tr <->
      snd p = Some a /\ Js.truthy a = true /\
      callback_of (fst p) = Some cb /\ register_throws env a = None.
Proof.
  unfold register_action, register. destruct p as [action [a|]]; cbn [fst snd].
  2:{ eexists. split; [reflexivity|]. intros a cb. split; [intros []|].
      intros (H & _). discriminate. }
  destruct (Js.truthy a) eqn:Ht; cbn [negb].
  2:{ eexists. split; [reflexivity|]. intros a0 cb. split; [intros []|].
      intros ([= <-] & H & _). congruence. }
  destruct (callback_of action) as [cb|] eqn:Hcb.
  2:{ eexists. split; [reflexivity|]. intros a0 cb. split; [intros []|].
      intros (_ & _ & H & _). discriminate. }
  destruct (register_throws env a) eqn:Hthrow.
  - eexists. split; [reflexivity|]. intros a0 cb0. split.
    + intros [H|[]]. discriminate.
    + intros ([= <-] & _ & _ & H). congruence.
  - eexists. split; [reflexivity|]. intros a0 cb0. split.
    + intros [[= <- <-]|[]]. now repeat split.
    + intros ([= <-] & _ & [= <-] & _). now left.
Qed.

Lemma in_turn_actions env es :
  exists tr,
    in_turn (map (register_action env) es) = Done tt tr /\
    forall a cb,
      In (Register a cb) tr <->
      exists action,
        In (action, Some a) es /\ Js.truthy a = true /\
        callback_of action = Some cb /\ register_throws env a = None.
Proof.
  induction es as [|p es (tr & Hrun & Hin)]; cbn [map in_turn].
  { exists []. split; [reflexivity|]. intros a cb. split; [intros []|].
    intros (? & [] & _). }
  destruct (register_action_done env p) as (tr0 & Hp & Hin0).
  rewrite Hp. cbn [and_after]. rewrite Hrun.
  exists (tr0 ++ tr). split; [reflexivity|]. intros a cb.
  rewrite in_app_iff, Hin0, Hin. split.
  - intros [(Hs & Ht & Hc & Hr)|(action & Ha & Ht & Hc & Hr)].
    + exists (fst p). repeat split; try assumption. left.
      destruct p; cbn in *; now subst.
    + exists action. repeat split; try assumption. now right.
  - intros (action & [->|Ha] & Ht & Hc & Hr).
    + left. now repeat split.
    + right. exists action. now repeat split.
Qed.

(** X30. With the main header showing, the configurable shortcuts are
    registered for exactly the keybinds that have a non-empty
    accelerator, an action the service knows, and an accelerator the
    system accepts, each with the callback of its action: an
    accelerator that makes the registration throw is skipped and does
    not stop the others, so once the fixed shortcuts are registered
    the call completes. *)
Theorem configurable_shortcuts_survive_bad_accelerators env s keybinds loaded
    fixed :
  windowPool s = true ->
  loadKeybinds env = Done keybinds loaded ->
  in_turn (display_steps env ++ edge_steps env) = Done tt fixed ->
  match currentHeaderState env with
  | Some h => String.eqb h "apikey"
  | None => false
  end = false ->
  exists configurable,
    registerShortcuts env false s
    = Done tt
        (loaded
         ++ [UnregisterAll; SendToRenderer "shortcuts-updated" keybinds]
         ++ fixed ++ configurable) /\
    forall a cb,
      In (Register a cb) configurable <->
      exists action,
        In (action, Some a) (entries keybinds) /\ Js.truthy a = true /\
        callback_of action = Some cb /\ register_throws env a = None.
Proof.
  intros Hpool Hload Hfixed Hheader.
  destruct (in_turn_actions env (entries keybinds)) as (conf & Hrun & Hin).
  exists conf. split; [|exact Hin].
  unfold registerShortcuts. rewrite Hpool, Hload. cbn [negb and_after].
  rewrite Hfixed, Hheader, Hrun. reflexivity.
Qed.

Lemma configurable_shortcuts_survive_bad_accelerators_witness :
  exists configurable,
    registerShortcuts
      {| isMac := false;
         getAllKeybinds := getAllKeybinds sample_env;
         upsertKeybinds := fun _ => None;
         displays := [11];
         currentHeaderState := Some "main";
         register_throws :=
           fun a => if String.eqb a "Ctrl+J" then Some "conversion failure"
                    else None |}
      false (mkService true true)
    = Done tt
        ([GetAllKeybinds; UpsertKeybinds (rows_of sample_loaded)]
         ++ [UnregisterAll; SendToRenderer "shortcuts-updated" sample_loaded]
         ++ [Register "Ctrl+Shift+Left" (MoveToEdge "left");
             Register "Ctrl+Shift+Right" (MoveToEdge "right")]
         ++ configurable) /\
    forall a cb,
      In (Register a cb) configurable <->
      exists action,
        In (action, Some a) (entries sample_loaded) /\ Js.truthy a = true /\
        callback_of action = Some cb /\
        (if String.eqb a "Ctrl+J" then Some "conversion failure" else None)
        = None.
Proof.
  apply (configurable_shortcuts_survive_bad_accelerators
           {| isMac := false;
              getAllKeybinds := getAllKeybinds sample_env;
              upsertKeybinds := fun _ => None;
              displays := [11];
              currentHeaderState := Some "main";
              register_throws :=
                fun a => if String.eqb a "Ctrl+J"
                         then Some "conversion failure" else None |}
           (mkService true true) sample_loaded
           [GetAllKeybinds; UpsertKeybinds (rows_of sample_loaded)]
           [Register "Ctrl+Shift+Left" (MoveToEdge "left");
            Register "Ctrl+Shift+Right" (MoveToEdge "right")]);
    reflexivity.
Defined.
